(** * Weather app: location parsing, upstream clients, service layer and store

    A shallow embedding of [weather/api.py], [weather/geocode.py],
    [weather/weather_app.py], [weather/crud.py], [weather/models.py],
    [weather/schemas.py] and of the helper functions of
    [streamlit_frontend.py], with the properties of the written
    specification stated over it. *)

From Stdlib Require Import List Ascii String ZArith NArith Lia Bool.
From Stdlib Require Import Floats.SpecFloat DecimalString.
Import ListNotations.

Set Implicit Arguments.
Set Warnings "-register-all".

(** ** Strings

    A Python [str] is taken as the list of its characters; the development
    covers the strings whose code points are below 256, so a character is an
    [ascii]. *)

Definition str := list ascii.

Definition lit (s : string) : str := list_ascii_of_string s.

Definition code (c : ascii) : N := N_of_ascii c.

(** [\d] of the [re] module on a [str] pattern: the decimal digits; below
    256 these are [0] to [9]. *)
Definition is_digit (c : ascii) : bool :=
  ((48 <=? code c) && (code c <=? 57))%N.

(** [\s] of the [re] module on a [str] pattern: the Unicode white space;
    below 256 these are TAB, LF, VT, FF, CR, FS, GS, RS, US, SPACE, NEL and
    NBSP. *)
Definition is_space (c : ascii) : bool :=
  existsb (N.eqb (code c)) [9; 10; 11; 12; 13; 28; 29; 30; 31; 32; 133; 160]%N.

(** The class [[-+]]. *)
Definition is_sign (c : ascii) : bool :=
  Ascii.eqb c "-" || Ascii.eqb c "+".

(** The class of a pattern that reads [-] alone. *)
Definition is_minus (c : ascii) : bool := Ascii.eqb c "-".

Definition newline : ascii := ascii_of_N 10.

(** ** Regular expressions

    The fragment of the [re] syntax that the patterns of the program use:
    literal characters, character classes, greedy [*] and [+] on a class,
    greedy [?], concatenation, capturing groups and [$]. *)

Inductive regex : Type :=
| Chr (c : ascii)
| Cls (p : ascii -> bool)
| Star (p : ascii -> bool)
| Plus (p : ascii -> bool)
| Opt (r : regex)
| Seq (r1 r2 : regex)
| Group (n : nat) (r : regex)
| Eol.

Declare Scope regex_scope.
Delimit Scope regex_scope with re.
Bind Scope regex_scope with regex.
Infix ">>" := Seq (at level 61, right associativity) : regex_scope.

(** The groups that took part in a match, the latest capture first. *)
Definition captures := list (nat * str).

Fixpoint group (n : nat) (g : captures) : option str :=
  match g with
  | [] => None
  | (m, t) :: g' => if Nat.eqb m n then Some t else group n g'
  end.

(** The matcher is the backtracking one of [re]: each construct is tried
    greedily and hands the rest of the input to a continuation; when the
    continuation fails the construct gives back input. *)
Definition cont := str -> captures -> option captures.

Fixpoint star_cls (p : ascii -> bool) (s : str) (k : cont) (g : captures)
  : option captures :=
  match s with
  | c :: s' =>
      if p c then
        match star_cls p s' k g with
        | Some r => Some r
        | None => k s g
        end
      else k s g
  | [] => k s g
  end.

Fixpoint rmatch (r : regex) (s : str) (k : cont) (g : captures)
  : option captures :=
  match r with
  | Chr c =>
      match s with
      | a :: s' => if Ascii.eqb a c then k s' g else None
      | [] => None
      end
  | Cls p =>
      match s with
      | a :: s' => if p a then k s' g else None
      | [] => None
      end
  | Star p => star_cls p s k g
  | Plus p =>
      match s with
      | a :: s' => if p a then star_cls p s' k g else None
      | [] => None
      end
  | Opt r1 =>
      match rmatch r1 s k g with
      | Some x => Some x
      | None => k s g
      end
  | Seq r1 r2 => rmatch r1 s (fun s' g' => rmatch r2 s' k g') g
  | Group n r1 =>
      rmatch r1 s
        (fun s' g' =>
           k s' ((n, firstn (List.length s - List.length s') s) :: g')) g
  | Eol =>
      match s with
      | [] => k s g
      | [c] => if Ascii.eqb c newline then k s g else None
      | _ => None
      end
  end.

(** [re.match(pattern, s)]: the pattern is tried at the start of [s] only,
    and need not reach its end unless the pattern says so. *)
Definition re_match (r : regex) (s : str) : option captures :=
  rmatch r s (fun _ g => Some g) [].

(** A signed decimal with its optional fraction, [(S?\d+(\.\d+)?)], as
    group [n], the fraction as group [n+1]. *)
Definition number_re (sign : ascii -> bool) (n : nat) : regex :=
  Group n (Opt (Cls sign) >> Plus is_digit >>
           Opt (Group (S n) (Chr "." >> Plus is_digit)))%re.

Definition pair_re (sign : ascii -> bool) : regex :=
  (Star is_space >> number_re sign 1 >> Star is_space >> Chr "," >>
   Star is_space >> number_re sign 3 >> Star is_space >> Eol)%re.

(** The pattern of both [parse_input] functions,
    [\s*([-+]?\d+(\.\d+)?)\s*,\s*([-+]?\d+(\.\d+)?)\s*$]. *)
Definition COORD_RE : regex := pair_re is_sign.

(** The pattern as the specification writes it,
    [^\s*-?\d+(\.\d+)?\s*,\s*-?\d+(\.\d+)?\s*$]; its [^] is the anchoring
    of [re_match]. *)
Definition SPEC_COORD_RE : regex := pair_re is_minus.

(** ** Floating-point numbers

    A Python [float] is an IEEE 754 binary64 number. *)

Definition float := spec_float.
Definition prec : Z := 53.
Definition emax : Z := 1024.

Definition digit_val (c : ascii) : N := code c - 48.

Definition digits_val (ds : str) : N :=
  fold_left (fun acc c => 10 * acc + digit_val c)%N ds 0%N.

(** The binary64 number nearest to [n * 10^x], ties to even, as the
    conversion of a decimal literal gives it. *)
Definition float_of_decimal (neg : bool) (n : N) (x : Z) : float :=
  match n with
  | N0 => S754_zero neg
  | Npos m =>
      match x with
      | Zneg p =>
          SFdiv prec emax (S754_finite neg m 0)
                (S754_finite false (10 ^ p) 0)
      | Z0 => binary_round prec emax neg m 0
      | Zpos p => binary_round prec emax neg (m * 10 ^ p) 0
      end
  end.

(** White space that [float()] strips from both ends of a [str]. *)
Definition is_float_space (c : ascii) : bool :=
  existsb (N.eqb (code c)) [9; 10; 11; 12; 13; 32; 133; 160]%N.

Fixpoint lstrip (p : ascii -> bool) (s : str) : str :=
  match s with
  | c :: s' => if p c then lstrip p s' else s
  | [] => []
  end.

Definition strip (p : ascii -> bool) (s : str) : str :=
  rev (lstrip p (rev (lstrip p s))).

(** Underscores of a numeric literal: each one stands between two digits;
    they are dropped before the literal is read. *)
Fixpoint drop_underscores (prev : ascii) (s : str) : option str :=
  match s with
  | [] => if Ascii.eqb prev "_" then None else Some []
  | c :: s' =>
      if Ascii.eqb c "_" then
        if is_digit prev then drop_underscores c s' else None
      else if Ascii.eqb prev "_" && negb (is_digit c) then None
      else option_map (cons c) (drop_underscores c s')
  end.

Fixpoint span (p : ascii -> bool) (s : str) : str * str :=
  match s with
  | c :: s' =>
      if p c then let (a, b) := span p s' in (c :: a, b) else ([], s)
  | [] => ([], [])
  end.

Definition lower (c : ascii) : ascii :=
  if ((65 <=? code c) && (code c <=? 90))%N
  then ascii_of_N (code c + 32) else c.

Definition str_eqb (a b : str) : bool :=
  if list_eq_dec ascii_dec a b then true else false.

Definition split_sign (s : str) : bool * str :=
  match s with
  | "-"%char :: r => (true, r)
  | "+"%char :: r => (false, r)
  | _ => (false, s)
  end.

(** The unsigned part of a float literal: [inf], [infinity], [nan] in any
    case, or digits with an optional point and an optional exponent. *)
Definition float_of_body (neg : bool) (s : str) : option float :=
  let l := map lower s in
  if str_eqb l (lit "inf") || str_eqb l (lit "infinity")
  then Some (S754_infinity neg)
  else if str_eqb l (lit "nan") then Some S754_nan
  else
    let (ip, r1) := span is_digit s in
    let (fp, r2) :=
      match r1 with
      | "."%char :: r => span is_digit r
      | _ => ([], r1)
      end in
    match ip ++ fp with
    | [] => None
    | ds =>
        let shift := Z.of_nat (List.length fp) in
        match r2 with
        | [] => Some (float_of_decimal neg (digits_val ds) (- shift))
        | e :: r3 =>
            if Ascii.eqb (lower e) "e" then
              let (eneg, r4) := split_sign r3 in
              match span is_digit r4 with
              | ((_ :: _) as ed, []) =>
                  let x := Z.of_N (digits_val ed) in
                  Some (float_of_decimal neg (digits_val ds)
                          ((if eneg then - x else x) - shift))
              | _ => None
              end
            else None
        end
    end.

(** [float(s)] on a [str]; [None] stands for its [ValueError]. *)
Definition float_of_str (s : str) : option float :=
  match drop_underscores " " (strip is_float_space s) with
  | Some t => let (neg, body) := split_sign t in float_of_body neg body
  | None => None
  end.

Definition f90 : float := S754_finite false 6333186975989760 (-46).
Definition f180 : float := S754_finite false 6333186975989760 (-45).

(** [format(x, ".4f")]: the decimal expansion of [x] rounded to four places,
    ties to even on the exact binary value. *)
Definition dec_str (n : N) : str :=
  list_ascii_of_string (DecimalString.NilZero.string_of_uint (N.to_uint n)).

Definition dec_digit (n : N) : ascii := ascii_of_N (48 + n mod 10).

Definition scaled_4 (m : positive) (e : Z) : N :=
  let n := (Npos m * 10000)%N in
  match e with
  | Zneg p =>
      let d := Npos (2 ^ p) in
      let q := (n / d)%N in
      let r := (n mod d)%N in
      match (2 * r ?= d)%N with
      | Gt => (q + 1)%N
      | Eq => if N.even q then q else (q + 1)%N
      | Lt => q
      end
  | Z0 => n
  | Zpos p => (n * Npos (2 ^ p))%N
  end.

Definition format_4f (x : float) : str :=
  match x with
  | S754_nan => lit "nan"
  | S754_infinity s => (if s then lit "-" else []) ++ lit "inf"
  | S754_zero s => (if s then lit "-" else []) ++ lit "0.0000"
  | S754_finite s m e =>
      let n := scaled_4 m e in
      let f := (n mod 10000)%N in
      (if s then lit "-" else []) ++ dec_str (n / 10000) ++ lit "."
        ++ [dec_digit (f / 1000); dec_digit (f / 100);
            dec_digit (f / 10); dec_digit f]
  end.

(** ** JSON values

    What [resp.json()] gives: [None], [bool], [int], [float], [str],
    [list] and [dict].  A number written without fraction and exponent is
    an [int], of any size; every other number is a [float]; a [dict] is
    carried as its items, each key once. *)

Inductive json : Type :=
| JNull
| JBool (b : bool)
| JInt (z : Z)
| JNum (x : float)
| JStr (s : str)
| JArr (l : list json)
| JObj (items : list (str * json)).

Fixpoint assoc (key : str) (items : list (str * json)) : option json :=
  match items with
  | [] => None
  | (k, v) :: rest => if str_eqb k key then Some v else assoc key rest
  end.

(** ** Exceptions *)

(** The texts of the messages the program raises. *)
Inductive message : Type :=
| Coordinates_out_of_range (lat lon : float)
| Missing_GEOCODER_EMAIL
| Error_contacting_geocoding_service
| Malformed_JSON_from_geocoding_service
| No_location_found (address : str)
| Latitude_or_longitude_missing
| Error_fetching_current_weather
| Invalid_JSON_for_current_weather
| Missing_current_weather
| Error_fetching_5day_forecast
| Invalid_JSON_for_5day_forecast
| Missing_daily
| Forecast_arrays_unequal
| Location_not_found
| Could_not_convert_to_float
| Other_text.

Inductive request_failure : Type :=
| Transport
| HTTPError (status : Z).

(** Failures of the persistence layer, all of them [SQLAlchemyError]s. *)
Inductive db_error : Type :=
| IntegrityError
| OperationalError
| InvalidRequestError
| StaleDataError.

(** [JSONDecodeError wrapped] is what [resp.json()] raises on a body that
    is not JSON: always a [ValueError]; with [wrapped] also a
    [requests.RequestException], as the newer releases of [requests] have
    it. *)
Inductive exn : Type :=
| ValueError (m : message)
| RuntimeError (m : message)
| ConnectionError (m : message)
| TypeError
| KeyError
| AttributeError
| OverflowError
| RequestException (why : request_failure)
| JSONDecodeError (wrapped : bool)
| HTTPException (status_code : Z) (detail : message)
| SQLAlchemyError (e : db_error).

(** [str(e)] *)
Definition str_of_exn (e : exn) : message :=
  match e with
  | ValueError m | RuntimeError m | ConnectionError m => m
  | HTTPException _ m => m
  | _ => Other_text
  end.

Definition is_ValueError (e : exn) : bool :=
  match e with
  | ValueError _ | JSONDecodeError _ => true
  | _ => false
  end.

Definition is_RequestException (e : exn) : bool :=
  match e with
  | RequestException _ | JSONDecodeError true => true
  | _ => false
  end.

Definition is_ConnectionError (e : exn) : bool :=
  match e with
  | ConnectionError _ => true
  | _ => false
  end.

Definition is_SQLAlchemyError (e : exn) : bool :=
  match e with
  | SQLAlchemyError _ => true
  | _ => false
  end.

Definition is_Key_Type_ValueError (e : exn) : bool :=
  match e with
  | KeyError | TypeError => true
  | _ => is_ValueError e
  end.

Inductive outcome (A : Type) : Type :=
| Ok (a : A)
| Raise (e : exn).

Arguments Raise {A} e.

(** ** Upstream services *)

Inductive param : Type :=
| PStr (s : str)
| PInt (z : Z)
| PFloat (x : float)
| PBool (b : bool).

Record request : Type := {
  url : str;
  params : list (str * param);
  headers : list (str * str);
  timeout : option Z }.

Inductive body : Type :=
| Json (j : json)
| NotJson.

Inductive reply : Type :=
| Unreachable
| Answered (status : Z) (b : body).

(** What a run of the program finds around it: the environment variable,
    the answers of the upstream services and the release of [requests]. *)
Record World : Type := {
  GEOCODER_EMAIL : option str;
  upstream : request -> reply;
  requests_wraps_json_error : bool }.

(** ** Computations

    A computation runs on a state, ends with a value or with an exception,
    and leaves a state; what it did to the state before an exception
    stays done. *)
Definition M (S A : Type) : Type := S -> outcome A * S.

Definition ret {S A} (a : A) : M S A := fun s => (Ok a, s).

Definition raise {S A} (e : exn) : M S A := fun s => (Raise e, s).

Definition bind {S A B} (m : M S A) (f : A -> M S B) : M S B :=
  fun s =>
    match m s with
    | (Ok a, s') => f a s'
    | (Raise e, s') => (Raise e, s')
    end.

Declare Scope comp_scope.
Delimit Scope comp_scope with comp.
Notation "x <- m ;; k" := (bind m (fun x => k))
  (at level 62, m at next level, right associativity) : comp_scope.
Notation "m ;; k" := (bind m (fun _ => k))
  (at level 62, right associativity) : comp_scope.
Open Scope comp_scope.

(** [try: m except C as e: h e] *)
Definition try_except {S A} (m : M S A) (C : exn -> bool) (h : exn -> M S A)
  : M S A :=
  fun s =>
    match m s with
    | (Raise e, s') => if C e then h e s' else (Raise e, s')
    | ok => ok
    end.

(** [try: m except C1 as e: h1 e except C2 as e: h2 e]: the first clause
    whose class fits handles the exception. *)
Definition try_except2 {S A} (m : M S A) (C1 : exn -> bool) (h1 : exn -> M S A)
  (C2 : exn -> bool) (h2 : exn -> M S A) : M S A :=
  try_except m (fun e => C1 e || C2 e) (fun e => if C1 e then h1 e else h2 e).

(** [try: m except: h] *)
Definition try_except_all {S A} (m : M S A) (h : M S A) : M S A :=
  try_except m (fun _ => true) (fun _ => h).

Definition lift {S A} (o : outcome A) : M S A := fun s => (o, s).

(** The calls a computation makes to the collaborators, in order. *)
Inductive event : Type :=
| Geocode_called (address : str)
| Http_get (rq : request).

Definition io (A : Type) : Type := M (list event) A.

Definition emit (ev : event) : io unit := fun t => (Ok tt, t ++ [ev]).

(** The outcome and the calls of a computation run on its own. *)
Definition run {A} (m : io A) : outcome A * list event := m [].

Record response : Type := { status : Z; content : body }.

(** [requests.get] and [Session.get] *)
Definition http_get (w : World) (rq : request) : io response :=
  emit (Http_get rq) ;;
  match upstream w rq with
  | Unreachable => raise (RequestException Transport)
  | Answered st b => ret {| status := st; content := b |}
  end.

(** The statuses [raise_for_status] raises on: 4xx and 5xx. *)
Definition is_error_status (st : Z) : bool :=
  ((400 <=? st) && (st <? 600))%Z.

Definition raise_for_status (r : response) : io unit :=
  if is_error_status (status r)
  then raise (RequestException (HTTPError (status r)))
  else ret tt.

Definition resp_json (w : World) (r : response) : io json :=
  match content r with
  | Json j => ret j
  | NotJson => raise (JSONDecodeError (requests_wraps_json_error w))
  end.

(** ** Operations of Python on JSON values *)

(** [float(n)] for an [int]: the nearest binary64 number, ties to even;
    an [int] beyond the range of binary64 raises [OverflowError]. *)
Definition float_of_int (z : Z) : outcome float :=
  match z with
  | Z0 => Ok (S754_zero false)
  | Zpos p =>
      match binary_round prec emax false p 0 with
      | S754_infinity _ => Raise OverflowError
      | x => Ok x
      end
  | Zneg p =>
      match binary_round prec emax true p 0 with
      | S754_infinity _ => Raise OverflowError
      | x => Ok x
      end
  end.

(** [float(v)] *)
Definition py_float (v : json) : outcome float :=
  match v with
  | JNum x => Ok x
  | JInt z => float_of_int z
  | JBool b => Ok (if b then binary_round prec emax false 1 0
                   else S754_zero false)
  | JStr s =>
      match float_of_str s with
      | Some x => Ok x
      | None => Raise (ValueError Could_not_convert_to_float)
      end
  | _ => Raise TypeError
  end.

(** [float(m.group(n))]: a group that took no part in the match is
    [None]. *)
Definition float_of_group (g : option str) : outcome float :=
  match g with
  | Some t => py_float (JStr t)
  | None => Raise TypeError
  end.

(** [v[key]] for a [str] key *)
Definition getitem (v : json) (key : str) : outcome json :=
  match v with
  | JObj items =>
      match assoc key items with
      | Some x => Ok x
      | None => Raise KeyError
      end
  | _ => Raise TypeError
  end.

(** [v.get(key, default)] *)
Definition dict_get (v : json) (key : str) (default : json) : outcome json :=
  match v with
  | JObj items =>
      match assoc key items with
      | Some x => Ok x
      | None => Ok default
      end
  | _ => Raise AttributeError
  end.

(** [bool(v)] *)
Definition truthy (v : json) : bool :=
  match v with
  | JNull => false
  | JBool b => b
  | JInt z => negb (Z.eqb z 0)
  | JNum (S754_zero _) => false
  | JNum _ => true
  | JStr s => negb (str_eqb s [])
  | JArr [] => false
  | JArr _ => true
  | JObj [] => false
  | JObj _ => true
  end.

(** [v[0]] *)
Definition first (v : json) : outcome json :=
  match v with
  | JArr (x :: _) => Ok x
  | JStr (c :: _) => Ok (JStr [c])
  | JObj _ => Raise KeyError
  | _ => Raise TypeError
  end.

(** [len(v)] *)
Definition len (v : json) : outcome nat :=
  match v with
  | JArr l => Ok (List.length l)
  | JStr s => Ok (List.length s)
  | JObj items => Ok (List.length items)
  | _ => Raise TypeError
  end.

(** The items [v] yields when iterated: [zip] stops at the shortest. *)
Definition iterate (v : json) : outcome (list json) :=
  match v with
  | JArr l => Ok l
  | JStr s => Ok (map (fun c => JStr [c]) s)
  | JObj items => Ok (map (fun kv => JStr (fst kv)) items)
  | _ => Raise TypeError
  end.

(** ** [weather/geocode.py] *)

Module Geocode.

Definition NOMINATIM_URL : str :=
  lit "https://nominatim.openstreetmap.org/search".

Definition TIMEOUT : Z := 10.

(** [USER_AGENT_TEMPLATE.format(email=email)] *)
Definition USER_AGENT_TEMPLATE (email : str) : str :=
  lit "weather-app-example/1.0 (" ++ email ++ lit ")".

(** The request of [geocode]: [headers], [params] and the time limit. *)
Definition search_request (email address : str) : request :=
  {| url := NOMINATIM_URL;
     params := [(lit "q", PStr address); (lit "format", PStr (lit "json"));
                (lit "limit", PInt 1)];
     headers := [(lit "User-Agent", USER_AGENT_TEMPLATE email)];
     timeout := Some TIMEOUT |}.

(** [float(location[key])] *)
Definition float_at (location : json) (key : str) : outcome float :=
  match getitem location key with
  | Ok v => py_float v
  | Raise e => Raise e
  end.

Definition geocode (w : World) (address : str) : io (float * float) :=
  emit (Geocode_called address) ;;
  match GEOCODER_EMAIL w with
  | None | Some [] => raise (RuntimeError Missing_GEOCODER_EMAIL)
  | Some email =>
      resp <- try_except
                (resp <- http_get w (search_request email address) ;;
                 raise_for_status resp ;;
                 ret resp)
                is_RequestException
                (fun _ => raise (ConnectionError
                                   Error_contacting_geocoding_service)) ;;
      data <- try_except (resp_json w resp) is_ValueError
                (fun _ => raise (ValueError
                                   Malformed_JSON_from_geocoding_service)) ;;
      match data with
      | JArr (location :: _) =>
          try_except
            (lat <- lift (float_at location (lit "lat")) ;;
             lon <- lift (float_at location (lit "lon")) ;;
             ret (lat, lon))
            is_Key_Type_ValueError
            (fun _ => raise (ValueError Latitude_or_longitude_missing))
      | _ => raise (ValueError (No_location_found address))
      end
  end.

End Geocode.

(** ** [weather/weather_app.py] *)

Module WeatherApp.

Definition BASE_URL : str := lit "https://api.open-meteo.com/v1/forecast".

Definition TIMEOUT : Z := 10.

Definition current_request (lat lon : float) : request :=
  {| url := BASE_URL;
     params := [(lit "latitude", PFloat lat); (lit "longitude", PFloat lon);
                (lit "current_weather", PBool true);
                (lit "timezone", PStr (lit "auto"))];
     headers := [];
     timeout := Some TIMEOUT |}.

Definition fetch_current (w : World) (lat lon : float) : io json :=
  data <- try_except2
            (resp <- http_get w (current_request lat lon) ;;
             raise_for_status resp ;;
             resp_json w resp)
            is_RequestException
            (fun _ => raise (ConnectionError Error_fetching_current_weather))
            is_ValueError
            (fun _ => raise (ValueError Invalid_JSON_for_current_weather)) ;;
  match data with
  | JObj items =>
      match assoc (lit "current_weather") items with
      | Some cur => ret cur
      | None => raise (ValueError Missing_current_weather)
      end
  | _ => raise (ValueError Missing_current_weather)
  end.

(** One day of the forecast: the dict with the keys [date], [temp_max],
    [temp_min] and [weathercode]. *)
Record day : Type := {
  date : json;
  temp_max : json;
  temp_min : json;
  weathercode : json }.

(** [zip] of four lists, stopping at the shortest, each tuple made into a
    day record. *)
Fixpoint zip_days (ts xs ns cs : list json) : list day :=
  match ts, xs, ns, cs with
  | t :: ts', x :: xs', n :: ns', c :: cs' =>
      {| date := t; temp_max := x; temp_min := n; weathercode := c |}
        :: zip_days ts' xs' ns' cs'
  | _, _, _, _ => []
  end.

Definition daily_request (lat lon : float) : request :=
  {| url := BASE_URL;
     params := [(lit "latitude", PFloat lat); (lit "longitude", PFloat lon);
                (lit "daily",
                 PStr (lit "temperature_2m_max,temperature_2m_min,weathercode"));
                (lit "timezone", PStr (lit "auto"));
                (lit "forecast_days", PInt 5)];
     headers := [];
     timeout := Some TIMEOUT |}.

Definition fetch_5day (w : World) (lat lon : float) : io (list day) :=
  payload <- try_except2
               (resp <- http_get w (daily_request lat lon) ;;
                raise_for_status resp ;;
                resp_json w resp)
               is_RequestException
               (fun _ => raise (ConnectionError Error_fetching_5day_forecast))
               is_ValueError
               (fun _ => raise (ValueError Invalid_JSON_for_5day_forecast)) ;;
  daily <- lift (dict_get payload (lit "daily") JNull) ;;
  match daily with
  | JObj _ =>
      times <- lift (dict_get daily (lit "time") (JArr [])) ;;
      max_temps <- lift (dict_get daily (lit "temperature_2m_max") (JArr [])) ;;
      min_temps <- lift (dict_get daily (lit "temperature_2m_min") (JArr [])) ;;
      weathercodes <- lift (dict_get daily (lit "weathercode") (JArr [])) ;;
      a <- lift (len times) ;;
      b <- lift (len max_temps) ;;
      if negb (Nat.eqb a b) then raise (ValueError Forecast_arrays_unequal)
      else
        c <- lift (len min_temps) ;;
        if negb (Nat.eqb b c) then raise (ValueError Forecast_arrays_unequal)
        else
          d <- lift (len weathercodes) ;;
          if negb (Nat.eqb c d)
          then raise (ValueError Forecast_arrays_unequal)
          else
            ts <- lift (iterate times) ;;
            xs <- lift (iterate max_temps) ;;
            ns <- lift (iterate min_temps) ;;
            cs <- lift (iterate weathercodes) ;;
            ret (zip_days ts xs ns cs)
  | _ => raise (ValueError Missing_daily)
  end.

End WeatherApp.

(** ** [streamlit_frontend.py]: the helper functions *)

Module Frontend.

Definition USER_AGENT : str :=
  lit "weather-app-streamlit/1.0 (khushidesai.ai@gmail.com)".

Definition search_request (address : str) : request :=
  {| url := lit "https://nominatim.openstreetmap.org/search";
     params := [(lit "q", PStr address); (lit "format", PStr (lit "json"));
                (lit "limit", PInt 1)];
     headers := [(lit "User-Agent", USER_AGENT)];
     timeout := Some 10%Z |}.

Definition reverse_request (lat lon : float) : request :=
  {| url := lit "https://nominatim.openstreetmap.org/reverse";
     params := [(lit "lat", PFloat lat); (lit "lon", PFloat lon);
                (lit "format", PStr (lit "json"))];
     headers := [(lit "User-Agent", USER_AGENT)];
     timeout := Some 10%Z |}.

Definition geocode (w : World) (address : str) : io (float * float) :=
  emit (Geocode_called address) ;;
  resp <- http_get w (search_request address) ;;
  raise_for_status resp ;;
  data <- resp_json w resp ;;
  if negb (truthy data) then raise (ValueError (No_location_found address))
  else
    loc <- lift (first data) ;;
    lat_v <- lift (getitem loc (lit "lat")) ;;
    lat <- lift (py_float lat_v) ;;
    lon_v <- lift (getitem loc (lit "lon")) ;;
    lon <- lift (py_float lon_v) ;;
    ret (lat, lon).

(** [f"{lat:.4f}, {lon:.4f}"] *)
Definition lat_lon_str (lat lon : float) : str :=
  format_4f lat ++ lit ", " ++ format_4f lon.

Definition reverse_geocode (w : World) (lat lon : float) : io json :=
  try_except_all
    (rev <- http_get w (reverse_request lat lon) ;;
     raise_for_status rev ;;
     j <- resp_json w rev ;;
     lift (dict_get j (lit "display_name") (JStr (lat_lon_str lat lon))))
    (ret (JStr (lat_lon_str lat lon))).

Definition parse_input (w : World) (inp : str) : io (float * float) :=
  match re_match COORD_RE inp with
  | Some m =>
      lat <- lift (float_of_group (group 1 m)) ;;
      lon <- lift (float_of_group (group 3 m)) ;;
      ret (lat, lon)
  | None => geocode w inp
  end.

End Frontend.

(** ** [weather/schemas.py] *)

Module Schemas.

Module LocationCreate.
Record t : Type := { name : str; latitude : float; longitude : float }.
End LocationCreate.

(** A field of an update request: left out, sent as [null], or sent with a
    value.  [dict(exclude_unset=True)] keeps the last two. *)
Inductive supplied (A : Type) : Type :=
| Unset
| Null
| Value (a : A).

Arguments Unset {A}.
Arguments Null {A}.

Module LocationUpdate.
Record t : Type := {
  name : supplied str;
  latitude : supplied float;
  longitude : supplied float }.
End LocationUpdate.

End Schemas.

(** ** [weather/models.py] *)

Module Models.

Definition time : Type := Z.

(** A row of the table [locations]; no column is nullable. *)
Module Location.
Record t : Type := {
  id : Z;
  name : str;
  latitude : float;
  longitude : float;
  created_at : time;
  updated_at : time }.
End Location.

End Models.

(** ** The session of the object-relational mapper

    A session holds the changes made to its objects until [commit] writes
    them to the table in one transaction.  [autoflush] is off, so nothing
    is written before. *)

Module Db.

Import Models.

(** [setattr(obj, column, value)] on a mapped object. *)
Inductive assignment : Type :=
| Set_name (v : option str)
| Set_latitude (v : option float)
| Set_longitude (v : option float).

Inductive change : Type :=
| Insert (name : str) (latitude longitude : float)
| SetAttr (id : Z) (a : assignment)
| Delete (id : Z).

Inductive call : Type :=
| Commit
| Rollback.

Record Session : Type := {
  table : list Location.t;
  next_id : Z;
  pending : list change;
  calls : list call }.

(** What the database does during one operation: its clock, read by
    [func.now()], the order in which it produces the rows of a query that
    asks for none, and the calls it fails. *)
Record Backend : Type := {
  now : time;
  row_order : list Location.t -> list Location.t;
  query_fault : option db_error;
  commit_fault : option db_error;
  refresh_fault : option db_error }.

Definition db (A : Type) : Type := M Session A.

Fixpoint find_id (i : Z) (rows : list Location.t) : option Location.t :=
  match rows with
  | [] => None
  | r :: rest => if Z.eqb (Location.id r) i then Some r else find_id i rest
  end.

Fixpoint replace_id (i : Z) (r' : Location.t) (rows : list Location.t)
  : list Location.t :=
  match rows with
  | [] => []
  | r :: rest =>
      if Z.eqb (Location.id r) i then r' :: rest
      else r :: replace_id i r' rest
  end.

Fixpoint remove_id (i : Z) (rows : list Location.t) : list Location.t :=
  match rows with
  | [] => []
  | r :: rest =>
      if Z.eqb (Location.id r) i then rest else r :: remove_id i rest
  end.

(** An assignment as the UPDATE statement carries it out.  A value equal
    ([==]) to the stored one is no change and is left out of the statement;
    a statement that changes a column also sets [updated_at], by
    [onupdate=func.now()]; [NULL] violates [nullable=False]. *)
Definition assign (t : time) (a : assignment) (r : Location.t)
  : outcome Location.t :=
  match a with
  | Set_name (Some v) =>
      if str_eqb (Location.name r) v then Ok r
      else Ok {| Location.id := Location.id r; Location.name := v;
                 Location.latitude := Location.latitude r;
                 Location.longitude := Location.longitude r;
                 Location.created_at := Location.created_at r;
                 Location.updated_at := t |}
  | Set_latitude (Some v) =>
      if SFeqb (Location.latitude r) v then Ok r
      else Ok {| Location.id := Location.id r;
                 Location.name := Location.name r;
                 Location.latitude := v;
                 Location.longitude := Location.longitude r;
                 Location.created_at := Location.created_at r;
                 Location.updated_at := t |}
  | Set_longitude (Some v) =>
      if SFeqb (Location.longitude r) v then Ok r
      else Ok {| Location.id := Location.id r;
                 Location.name := Location.name r;
                 Location.latitude := Location.latitude r;
                 Location.longitude := v;
                 Location.created_at := Location.created_at r;
                 Location.updated_at := t |}
  | _ => Raise (SQLAlchemyError IntegrityError)
  end.

(** The flush of the pending changes on a copy of the table: the new
    table, the next id and the ids given to the inserted rows.  An INSERT
    takes the next id and the clock for both timestamps, by
    [server_default=func.now()]. *)
Fixpoint flush (t : time) (rows : list Location.t) (next : Z)
  (cs : list change) : outcome (list Location.t * Z * list Z) :=
  match cs with
  | [] => Ok (rows, next, [])
  | Insert n la lo :: cs' =>
      let r := {| Location.id := next; Location.name := n;
                  Location.latitude := la; Location.longitude := lo;
                  Location.created_at := t; Location.updated_at := t |} in
      match flush t (rows ++ [r]) (next + 1) cs' with
      | Ok (rows', next', ids) => Ok (rows', next', next :: ids)
      | Raise e => Raise e
      end
  | SetAttr i a :: cs' =>
      match find_id i rows with
      | None => Raise (SQLAlchemyError StaleDataError)
      | Some r =>
          match assign t a r with
          | Ok r' => flush t (replace_id i r' rows) next cs'
          | Raise e => Raise e
          end
      end
  | Delete i :: cs' => flush t (remove_id i rows) next cs'
  end.

(** [db.add], [setattr] on a loaded object and [db.delete] *)
Definition record (c : change) : db unit :=
  fun s => (Ok tt, {| table := table s; next_id := next_id s;
                      pending := pending s ++ [c]; calls := calls s |}).

(** [db.commit()]: all pending changes or none of them reach the table. *)
Definition commit (b : Backend) : db (list Z) :=
  fun s =>
    let failed := {| table := table s; next_id := next_id s;
                     pending := pending s; calls := calls s ++ [Commit] |} in
    match commit_fault b with
    | Some e => (Raise (SQLAlchemyError e), failed)
    | None =>
        match flush (now b) (table s) (next_id s) (pending s) with
        | Ok (rows, next, ids) =>
            (Ok ids, {| table := rows; next_id := next; pending := [];
                        calls := calls s ++ [Commit] |})
        | Raise e => (Raise e, failed)
        end
    end.

(** [db.rollback()] *)
Definition rollback : db unit :=
  fun s => (Ok tt, {| table := table s; next_id := next_id s; pending := [];
                      calls := calls s ++ [Rollback] |}).

(** [db.query(Location).filter(Location.id == i).first()] *)
Definition query_first (b : Backend) (i : Z) : db (option Location.t) :=
  fun s =>
    match query_fault b with
    | Some e => (Raise (SQLAlchemyError e), s)
    | None => (Ok (find_id i (table s)), s)
    end.

(** [db.query(Location).offset(skip).limit(limit).all()]: the query has
    no [order_by], so the rows come in the order the database chooses for
    this query, and OFFSET and LIMIT cut that sequence. *)
Definition query_page (b : Backend) (skip limit : nat) : db (list Location.t) :=
  fun s =>
    match query_fault b with
    | Some e => (Raise (SQLAlchemyError e), s)
    | None => (Ok (firstn limit (skipn skip (row_order b (table s)))), s)
    end.

(** [db.refresh(obj)]: the row of the object as the table has it. *)
Definition refresh (b : Backend) (i : Z) : db Location.t :=
  fun s =>
    match refresh_fault b with
    | Some e => (Raise (SQLAlchemyError e), s)
    | None =>
        match find_id i (table s) with
        | Some r => (Ok r, s)
        | None => (Raise (SQLAlchemyError InvalidRequestError), s)
        end
    end.

End Db.

(** ** [weather/crud.py] *)

Module Crud.

Import Models Schemas Db.

Definition get_locations (b : Backend) (skip limit : nat)
  : db (list Location.t) :=
  query_page b skip limit.

Definition get_location (b : Backend) (loc_id : Z) : db (option Location.t) :=
  query_first b loc_id.

Definition create_location (b : Backend) (loc : LocationCreate.t)
  : db Location.t :=
  record (Insert (LocationCreate.name loc) (LocationCreate.latitude loc)
            (LocationCreate.longitude loc)) ;;
  try_except
    (ids <- commit b ;;
     refresh b (last ids 0%Z))
    is_SQLAlchemyError
    (fun e => rollback ;; raise e).

(** [loc.dict(exclude_unset=True)], as the assignments the loop makes. *)
Definition update_data (loc : LocationUpdate.t) : list assignment :=
  match LocationUpdate.name loc with
  | Unset => []
  | Null => [Set_name None]
  | Value v => [Set_name (Some v)]
  end ++
  match LocationUpdate.latitude loc with
  | Unset => []
  | Null => [Set_latitude None]
  | Value v => [Set_latitude (Some v)]
  end ++
  match LocationUpdate.longitude loc with
  | Unset => []
  | Null => [Set_longitude None]
  | Value v => [Set_longitude (Some v)]
  end.

Fixpoint setattrs (i : Z) (l : list assignment) : db unit :=
  match l with
  | [] => ret tt
  | a :: l' => record (SetAttr i a) ;; setattrs i l'
  end.

Definition update_location (b : Backend) (loc_id : Z) (loc : LocationUpdate.t)
  : db (option Location.t) :=
  db_loc <- get_location b loc_id ;;
  match db_loc with
  | None => ret None
  | Some _ =>
      setattrs loc_id (update_data loc) ;;
      try_except
        (commit b ;;
         r <- refresh b loc_id ;;
         ret (Some r))
        is_SQLAlchemyError
        (fun e => rollback ;; raise e)
  end.

Definition delete_location (b : Backend) (loc_id : Z)
  : db (option Location.t) :=
  db_loc <- get_location b loc_id ;;
  match db_loc with
  | None => ret None
  | Some r =>
      try_except
        (record (Delete loc_id) ;;
         commit b ;;
         ret (Some r))
        is_SQLAlchemyError
        (fun e => rollback ;; raise e)
  end.

End Crud.

(** ** [weather/api.py]: the parser and the endpoints *)

(** The status of the answer of an endpoint declared with the success
    status [success]: that status on a return, the status of an
    [HTTPException] raised; any other exception leaves the endpoint
    unhandled. *)
Definition status_of {A} (success : Z) (o : outcome A) : option Z :=
  match o with
  | Ok _ => Some success
  | Raise (HTTPException st _) => Some st
  | Raise _ => None
  end.


Module Api.

(** [-90 <= lat <= 90 and -180 <= lon <= 180] *)
Definition in_range (lat lon : float) : bool :=
  SFleb (SFopp f90) lat && SFleb lat f90
  && (SFleb (SFopp f180) lon && SFleb lon f180).

Definition parse_input (w : World) (user_input : str) : io (float * float) :=
  match re_match COORD_RE user_input with
  | Some coords =>
      lat <- lift (float_of_group (group 1 coords)) ;;
      lon <- lift (float_of_group (group 3 coords)) ;;
      if negb (in_range lat lon)
      then raise (ValueError (Coordinates_out_of_range lat lon))
      else ret (lat, lon)
  | None => Geocode.geocode w user_input
  end.

Definition HTTP_200_OK : Z := 200.
Definition HTTP_201_CREATED : Z := 201.
Definition HTTP_400_BAD_REQUEST : Z := 400.
Definition HTTP_404_NOT_FOUND : Z := 404.
Definition HTTP_502_BAD_GATEWAY : Z := 502.

(** The body of a weather answer: [latitude], [longitude] and the upstream
    data under [current] or [forecast]. *)
Record answer (A : Type) : Type := {
  latitude : float;
  longitude : float;
  data : A }.

(** [GET /weather] *)
Definition current (w : World) (loc : str) : io (answer json) :=
  p <- try_except (parse_input w loc) is_ValueError
         (fun e => raise (HTTPException HTTP_400_BAD_REQUEST (str_of_exn e))) ;;
  current_data <- try_except (WeatherApp.fetch_current w (fst p) (snd p))
                    is_ConnectionError
                    (fun e => raise (HTTPException HTTP_502_BAD_GATEWAY
                                       Error_fetching_current_weather)) ;;
  ret {| latitude := fst p; longitude := snd p; data := current_data |}.

(** [GET /forecast] *)
Definition forecast (w : World) (loc : str)
  : io (answer (list WeatherApp.day)) :=
  p <- try_except (parse_input w loc) is_ValueError
         (fun e => raise (HTTPException HTTP_400_BAD_REQUEST (str_of_exn e))) ;;
  forecast_data <- try_except (WeatherApp.fetch_5day w (fst p) (snd p))
                     is_ConnectionError
                     (fun e => raise (HTTPException HTTP_502_BAD_GATEWAY
                                        Error_fetching_5day_forecast)) ;;
  ret {| latitude := fst p; longitude := snd p; data := forecast_data |}.

(** The function of [POST /locations/]; the [status_code=201] of its
    decorator is in [POST_locations] below. *)
Definition create_loc (b : Db.Backend) (loc : Schemas.LocationCreate.t)
  : Db.db Models.Location.t :=
  Crud.create_location b loc.

(** [GET /locations/] *)
Definition read_locations (b : Db.Backend) (skip limit : nat)
  : Db.db (list Models.Location.t) :=
  Crud.get_locations b skip limit.

(** [GET /locations/{loc_id}] *)
Definition read_location (b : Db.Backend) (loc_id : Z)
  : Db.db Models.Location.t :=
  db_loc <- Crud.get_location b loc_id ;;
  match db_loc with
  | None => raise (HTTPException HTTP_404_NOT_FOUND Location_not_found)
  | Some r => ret r
  end.

(** [PUT /locations/{loc_id}] *)
Definition update_loc (b : Db.Backend) (loc_id : Z)
  (loc : Schemas.LocationUpdate.t) : Db.db Models.Location.t :=
  updated <- Crud.update_location b loc_id loc ;;
  match updated with
  | None => raise (HTTPException HTTP_404_NOT_FOUND Location_not_found)
  | Some r => ret r
  end.

(** [DELETE /locations/{loc_id}] *)
Definition delete_loc (b : Db.Backend) (loc_id : Z)
  : Db.db Models.Location.t :=
  deleted <- Crud.delete_location b loc_id ;;
  match deleted with
  | None => raise (HTTPException HTTP_404_NOT_FOUND Location_not_found)
  | Some r => ret r
  end.

(** *** The path operations

    What the decorators add to the functions above, as far as the status
    of the response goes.  A path operation whose decorator declares a
    [status_code] answers with it when the function returns; without one
    it answers 200.  An [HTTPException] that the function raises is
    answered with its own status; any other exception is no answer of the
    operation. *)

(** [@router.get("/weather", ...)] on [current] *)
Definition GET_weather (w : World) (loc : str) : option Z :=
  status_of HTTP_200_OK (fst (run (current w loc))).

(** [@router.get("/forecast", ...)] on [forecast] *)
Definition GET_forecast (w : World) (loc : str) : option Z :=
  status_of HTTP_200_OK (fst (run (forecast w loc))).

(** [@router.post("/locations/", status_code=status.HTTP_201_CREATED, ...)]
    on [create_loc] *)
Definition POST_locations (b : Db.Backend) (loc : Schemas.LocationCreate.t)
  (s : Db.Session) : option Z :=
  status_of HTTP_201_CREATED (fst (create_loc b loc s)).

(** [@router.get("/locations/", ...)] on [read_locations] *)
Definition GET_locations (b : Db.Backend) (skip limit : nat) (s : Db.Session)
  : option Z :=
  status_of HTTP_200_OK (fst (read_locations b skip limit s)).

(** [@router.get("/locations/{loc_id}", ...)] on [read_location] *)
Definition GET_location (b : Db.Backend) (loc_id : Z) (s : Db.Session)
  : option Z :=
  status_of HTTP_200_OK (fst (read_location b loc_id s)).

(** [@router.put("/locations/{loc_id}", ...)] on [update_loc] *)
Definition PUT_location (b : Db.Backend) (loc_id : Z)
  (loc : Schemas.LocationUpdate.t) (s : Db.Session) : option Z :=
  status_of HTTP_200_OK (fst (update_loc b loc_id loc s)).

(** [@router.delete("/locations/{loc_id}", ...)] on [delete_loc] *)
Definition DELETE_location (b : Db.Backend) (loc_id : Z) (s : Db.Session)
  : option Z :=
  status_of HTTP_200_OK (fst (delete_loc b loc_id s)).

End Api.

(** ** The shape of a coordinate string

    What the pattern reads, said without the matcher: a number is an
    optional sign, digits and an optional fraction; it denotes the
    binary64 number nearest to its decimal value. *)

Definition all (p : ascii -> bool) (s : str) : Prop :=
  Forall (fun c => p c = true) s.

Definition digits (ds : str) : Prop := ds <> [] /\ all is_digit ds.

Inductive sign_text (sg : ascii -> bool) : str -> bool -> Prop :=
| no_sign : sign_text sg [] false
| a_sign c : sg c = true -> sign_text sg [c] (Ascii.eqb c "-").

Inductive frac_text : str -> str -> Prop :=
| no_frac : frac_text [] []
| a_frac fs : digits fs -> frac_text ("."%char :: fs) fs.

Inductive number (sg : ascii -> bool) : str -> float -> Prop :=
| number_intro sgn neg ds ft fs :
    sign_text sg sgn neg -> digits ds -> frac_text ft fs ->
    number sg (sgn ++ ds ++ ft)
      (float_of_decimal neg (digits_val (ds ++ fs))
         (- Z.of_nat (List.length fs))).

(** [pair_text s g1 g3]: [s] is [g1], a comma and [g3], with white space
    around each. *)
Definition pair_text (s g1 g3 : str) : Prop :=
  exists w1 w2 w3 w4,
    s = w1 ++ g1 ++ w2 ++ ","%char :: w3 ++ g3 ++ w4
    /\ all is_space w1 /\ all is_space w2
    /\ all is_space w3 /\ all is_space w4.

(** [coordinates sg s g1 lat g3 lon]: [s] writes the numbers [lat] and
    [lon] as [g1] and [g3], signs taken from [sg]. *)
Definition coordinates (sg : ascii -> bool) (s g1 : str) (lat : float)
  (g3 : str) (lon : float) : Prop :=
  pair_text s g1 g3 /\ number sg g1 lat /\ number sg g3 lon.

(** [stops p s]: [s] does not go on with a character of [p]. *)
Definition stops (p : ascii -> bool) (s : str) : Prop :=
  match s with
  | [] => True
  | c :: _ => p c = false
  end.

(** What may follow a number: nothing, or neither a digit nor a point. *)
Definition after_number (s : str) : Prop :=
  match s with
  | [] => True
  | c :: _ => is_digit c = false /\ Ascii.eqb c "." = false
  end.

(** The optional fraction of [number_re]. *)
Definition frac_re (n : nat) : regex :=
  Opt (Group n (Chr "." >> Plus is_digit)).

(** ** Upstream answers, as the specification speaks of them *)

(** The field [key] of a result, when the result is an object that has
    it. *)
Definition field (location : json) (key : str) : option json :=
  match location with
  | JObj items => assoc key items
  | _ => None
  end.

(** The number a value stands for, when [float()] takes it. *)
Definition numeric (v : json) : option float :=
  match py_float v with
  | Ok x => Some x
  | Raise _ => None
  end.

(** The value is no number: [None], a list, an object, or a string that
    does not write a number. *)
Definition non_numeric (v : json) : Prop :=
  match v with
  | JNull | JArr _ | JObj _ => True
  | JStr s => float_of_str s = None
  | JBool _ | JInt _ | JNum _ => False
  end.

(** The upstream answers the forecast request with a payload whose
    [daily] object holds the four arrays; an array that is left out counts
    as empty. *)
Definition daily_arrays (w : World) (lat lon : float)
  (ts xs ns cs : list json) : Prop :=
  exists st payload d,
    upstream w (WeatherApp.daily_request lat lon) = Answered st (Json payload)
    /\ is_error_status st = false
    /\ field payload (lit "daily") = Some (JObj d)
    /\ dict_get (JObj d) (lit "time") (JArr []) = Ok (JArr ts)
    /\ dict_get (JObj d) (lit "temperature_2m_max") (JArr []) = Ok (JArr xs)
    /\ dict_get (JObj d) (lit "temperature_2m_min") (JArr []) = Ok (JArr ns)
    /\ dict_get (JObj d) (lit "weathercode") (JArr []) = Ok (JArr cs).

(** The day record made from position [i] of the four arrays. *)
Definition day_at (ts xs ns cs : list json) (i : nat)
  : option WeatherApp.day :=
  match nth_error ts i, nth_error xs i, nth_error ns i, nth_error cs i with
  | Some t, Some x, Some n, Some c =>
      Some {| WeatherApp.date := t; WeatherApp.temp_max := x;
              WeatherApp.temp_min := n; WeatherApp.weathercode := c |}
  | _, _, _, _ => None
  end.

(** The number of calls of [geocode] among the calls of a run. *)
Definition geocode_calls (t : list event) : nat :=
  List.length
    (filter (fun ev => match ev with Geocode_called _ => true | _ => false end)
       t).

(** ** Worlds for the examples *)

(** No contact address and no network. *)
Definition offline : World :=
  {| GEOCODER_EMAIL := None;
     upstream := fun _ => Unreachable;
     requests_wraps_json_error := true |}.

(** An upstream that answers every request with [body], status 200, and a
    contact address in the environment. *)
Definition answering (b : body) : World :=
  {| GEOCODER_EMAIL := Some (lit "ops@example.org");
     upstream := fun _ => Answered 200 b;
     requests_wraps_json_error := true |}.

(** [n * 10^x] as a JSON number. *)
Definition num (n : N) (x : Z) : json := JNum (float_of_decimal false n x).

Definition five_days : json :=
  JObj [(lit "daily",
         JObj [(lit "time",
                JArr [JStr (lit "2024-05-01"); JStr (lit "2024-05-02");
                      JStr (lit "2024-05-03"); JStr (lit "2024-05-04");
                      JStr (lit "2024-05-05")]);
               (lit "temperature_2m_max",
                JArr [num 215 (-1); num 22 0; num 19 0; num 182 (-1);
                      num 25 0]);
               (lit "temperature_2m_min",
                JArr [num 11 0; num 125 (-1); num 9 0; num 8 0; num 14 0]);
               (lit "weathercode",
                JArr [num 0 0; num 3 0; num 61 0; num 2 0; num 1 0])])].

Definition three_days : json :=
  JObj [(lit "daily",
         JObj [(lit "time",
                JArr [JStr (lit "2024-05-01"); JStr (lit "2024-05-02");
                      JStr (lit "2024-05-03")]);
               (lit "temperature_2m_max",
                JArr [num 215 (-1); num 22 0; num 19 0]);
               (lit "temperature_2m_min",
                JArr [num 11 0; num 125 (-1); num 9 0]);
               (lit "weathercode", JArr [num 0 0; num 3 0; num 61 0])])].

(** A first result whose latitude is the integer [10^400], which JSON can
    write and binary64 cannot hold. *)
Definition huge_latitude : json :=
  JArr [JObj [(lit "lat", JInt (10 ^ 400)); (lit "lon", JStr (lit "-96.7968559"))]].

Definition dallas : json :=
  JArr [JObj [(lit "lat", JStr (lit "32.7762719"));
              (lit "lon", JStr (lit "-96.7968559"));
              (lit "display_name", JStr (lit "Dallas, Texas"))]].

(** ** The store, as the specification speaks of it *)

(** The database fails no call. *)
Definition healthy (b : Db.Backend) : Prop :=
  Db.query_fault b = None /\ Db.commit_fault b = None
  /\ Db.refresh_fault b = None.

(** The session after a failed write: nothing pending, the table as it
    was, [commit] then [rollback] called. *)
Definition rolled_back (s : Db.Session) : Db.Session :=
  {| Db.table := Db.table s; Db.next_id := Db.next_id s; Db.pending := [];
     Db.calls := (Db.calls s ++ [Db.Commit]) ++ [Db.Rollback] |}.

(** The session after a write that reached the table. *)
Definition committed (s : Db.Session) (rows : list Models.Location.t)
  (next : Z) : Db.Session :=
  {| Db.table := rows; Db.next_id := next; Db.pending := [];
     Db.calls := Db.calls s ++ [Db.Commit] |}.

(** The row an INSERT makes of a creation request. *)
Definition new_row (b : Db.Backend) (s : Db.Session)
  (loc : Schemas.LocationCreate.t) : Models.Location.t :=
  {| Models.Location.id := Db.next_id s;
     Models.Location.name := Schemas.LocationCreate.name loc;
     Models.Location.latitude := Schemas.LocationCreate.latitude loc;
     Models.Location.longitude := Schemas.LocationCreate.longitude loc;
     Models.Location.created_at := Db.now b;
     Models.Location.updated_at := Db.now b |}.

(** The assignments of one request, carried out on a row in order. *)
Fixpoint assign_all (t : Models.time) (l : list Db.assignment)
  (r : Models.Location.t) : outcome Models.Location.t :=
  match l with
  | [] => Ok r
  | a :: l' =>
      match Db.assign t a r with
      | Ok r' => assign_all t l' r'
      | Raise e => Raise e
      end
  end.

(** No row has the id the next INSERT takes. *)
Definition next_id_unused (s : Db.Session) : Prop :=
  Db.find_id (Db.next_id s) (Db.table s) = None.

(** No field of the request is [null]. *)
Definition no_null (loc : Schemas.LocationUpdate.t) : Prop :=
  Schemas.LocationUpdate.name loc <> Schemas.Null
  /\ Schemas.LocationUpdate.latitude loc <> Schemas.Null
  /\ Schemas.LocationUpdate.longitude loc <> Schemas.Null.

(** The request supplies a value that differs from the stored one. *)
Definition changes (loc : Schemas.LocationUpdate.t) (r : Models.Location.t)
  : bool :=
  match Schemas.LocationUpdate.name loc with
  | Schemas.Value v => negb (str_eqb (Models.Location.name r) v)
  | _ => false
  end
  || match Schemas.LocationUpdate.latitude loc with
     | Schemas.Value v => negb (SFeqb (Models.Location.latitude r) v)
     | _ => false
     end
  || match Schemas.LocationUpdate.longitude loc with
     | Schemas.Value v => negb (SFeqb (Models.Location.longitude r) v)
     | _ => false
     end.

(** The stored number is the supplied one: the same float, or an equal
    ([==]) one that the UPDATE left in place. *)
Definition stores (stored supplied : float) : Prop :=
  stored = supplied \/ SFeqb stored supplied = true.

(** ** A store for the examples *)

Definition at_noon : Db.Backend :=
  {| Db.now := 1200%Z; Db.row_order := fun rows => rows;
     Db.query_fault := None; Db.commit_fault := None;
     Db.refresh_fault := None |}.

(** The refresh after the commit fails. *)
Definition refresh_fails : Db.Backend :=
  {| Db.now := 1200%Z; Db.row_order := fun rows => rows;
     Db.query_fault := None; Db.commit_fault := None;
     Db.refresh_fault := Some OperationalError |}.

Definition empty_store : Db.Session :=
  {| Db.table := []; Db.next_id := 1%Z; Db.pending := []; Db.calls := [] |}.

Definition latitude_500 : Schemas.LocationCreate.t :=
  {| Schemas.LocationCreate.name := lit "Nowhere";
     Schemas.LocationCreate.latitude := float_of_decimal false 500 0;
     Schemas.LocationCreate.longitude := float_of_decimal false 0 0 |}.

Definition dallas_create : Schemas.LocationCreate.t :=
  {| Schemas.LocationCreate.name := lit "Dallas, TX";
     Schemas.LocationCreate.latitude := float_of_decimal false 327767 (-4);
     Schemas.LocationCreate.longitude := float_of_decimal true 967970 (-4) |}.

Definition dallas_row : Models.Location.t :=
  {| Models.Location.id := 1%Z; Models.Location.name := lit "Dallas, TX";
     Models.Location.latitude := float_of_decimal false 327767 (-4);
     Models.Location.longitude := float_of_decimal true 967970 (-4);
     Models.Location.created_at := 900%Z;
     Models.Location.updated_at := 900%Z |}.

Definition one_row : Db.Session :=
  {| Db.table := [dallas_row]; Db.next_id := 2%Z; Db.pending := [];
     Db.calls := [] |}.

(** A request that sends the stored name of [dallas_row] again. *)
Definition same_name : Schemas.LocationUpdate.t :=
  {| Schemas.LocationUpdate.name := Schemas.Value (lit "Dallas, TX");
     Schemas.LocationUpdate.latitude := Schemas.Unset;
     Schemas.LocationUpdate.longitude := Schemas.Unset |}.

Definition rename_only : Schemas.LocationUpdate.t :=
  {| Schemas.LocationUpdate.name := Schemas.Value (lit "Big D");
     Schemas.LocationUpdate.latitude := Schemas.Unset;
     Schemas.LocationUpdate.longitude := Schemas.Unset |}.

(** ** The parser and the formatter, beyond the specification *)

From Stdlib Require Import DecimalN Permutation.

(** The characters a coordinate string is made of: digits, the two signs,
    white space, the point and the comma. *)
Definition coordinate_char (c : ascii) : bool :=
  is_digit c || is_sign c || is_space c || Ascii.eqb c "." || Ascii.eqb c ",".

(** [math.isfinite(x)] *)
Definition is_finite (x : float) : bool :=
  match x with
  | S754_zero _ | S754_finite _ _ _ => true
  | _ => false
  end.

(** The number that the text [format(x, ".4f")] writes: [x] rounded to
    four decimal places, then to the nearest binary64 number. *)
Definition rounded_4 (x : float) : float :=
  match x with
  | S754_finite s m e => float_of_decimal s (scaled_4 m e) (-4)
  | _ => x
  end.

(** One step of [digits_val]: a digit appended to a number. *)
Definition step (acc : N) (c : ascii) : N := (10 * acc + digit_val c)%N.

(** The characters of a decimal numeral. *)
Definition uint_chars (d : Decimal.uint) : str :=
  list_ascii_of_string (NilEmpty.string_of_uint d).

(** The four digits that [format_4f] writes after the point, for a
    fraction [f] below 10000. *)
Definition four_digits (f : N) : str :=
  [dec_digit (f / 1000); dec_digit (f / 100); dec_digit (f / 10);
   dec_digit f].

(** 32.7762719, as [float("32.7762719")] gives it. *)
Definition lat_dallas : float := float_of_decimal false 327762719 (-7).

(** -96.7968559 *)
Definition lon_dallas : float := float_of_decimal true 967968559 (-7).

(** ** [streamlit_frontend.py]: the weather fetchers *)

Module Ui.

Definition current_request (lat lon : float) : request :=
  {| url := lit "https://api.open-meteo.com/v1/forecast";
     params := [(lit "latitude", PFloat lat); (lit "longitude", PFloat lon);
                (lit "current_weather", PBool true);
                (lit "timezone", PStr (lit "auto"))];
     headers := [];
     timeout := Some 10%Z |}.

Definition fetch_current (w : World) (lat lon : float) : io json :=
  r <- http_get w (current_request lat lon) ;;
  raise_for_status r ;;
  j <- resp_json w r ;;
  lift (getitem j (lit "current_weather")).

Definition daily_request (lat lon : float) : request :=
  {| url := lit "https://api.open-meteo.com/v1/forecast";
     params := [(lit "latitude", PFloat lat); (lit "longitude", PFloat lon);
                (lit "daily",
                 PStr (lit "temperature_2m_max,temperature_2m_min,weathercode"));
                (lit "forecast_days", PInt 5);
                (lit "timezone", PStr (lit "auto"))];
     headers := [];
     timeout := Some 10%Z |}.

(** How the part of [fetch_5day] that indexes the arrays ends: with a
    value, with one of the exceptions above, or with [IndexError], which
    no other function of the program can raise. *)
Inductive result (A : Type) : Type :=
| Returned (a : A)
| Raised (e : exn)
| Raised_IndexError.

Arguments Raised {A} e.
Arguments Raised_IndexError {A}.

Definition and_then {A B} (r : result A) (f : A -> result B) : result B :=
  match r with
  | Returned a => f a
  | Raised e => Raised e
  | Raised_IndexError => Raised_IndexError
  end.

(** [v[i]] for an index [i] of a [range] *)
Definition index (v : json) (i : nat) : result json :=
  match v with
  | JArr l =>
      match nth_error l i with
      | Some x => Returned x
      | None => Raised_IndexError
      end
  | JStr s =>
      match nth_error s i with
      | Some c => Returned (JStr [c])
      | None => Raised_IndexError
      end
  | JObj _ => Raised KeyError
  | _ => Raised TypeError
  end.

(** [daily[key][i]] *)
Definition item (daily : json) (key : str) (i : nat) : result json :=
  match getitem daily key with
  | Ok v => index v i
  | Raise e => Raised e
  end.

(** The dict that the comprehension builds for the index [i], its values
    evaluated in the order written. *)
Definition day_of (daily : json) (i : nat) : result WeatherApp.day :=
  and_then (item daily (lit "time") i) (fun t =>
  and_then (item daily (lit "temperature_2m_max") i) (fun x =>
  and_then (item daily (lit "temperature_2m_min") i) (fun n =>
  and_then (item daily (lit "weathercode") i) (fun c =>
  Returned {| WeatherApp.date := t; WeatherApp.temp_max := x;
              WeatherApp.temp_min := n; WeatherApp.weathercode := c |})))).

(** [[f(i) for i in range]] *)
Fixpoint comprehension {A} (f : nat -> result A) (range : list nat)
  : result (list A) :=
  match range with
  | [] => Returned []
  | i :: rest =>
      and_then (f i) (fun a =>
      and_then (comprehension f rest) (fun l => Returned (a :: l)))
  end.

Definition fetch_5day (w : World) (lat lon : float) (t : list event)
  : result (list WeatherApp.day) * list event :=
  match (r <- http_get w (daily_request lat lon) ;;
         raise_for_status r ;;
         j <- resp_json w r ;;
         lift (getitem j (lit "daily"))) t with
  | (Ok daily, t') =>
      (match getitem daily (lit "time") with
       | Ok times =>
           match len times with
           | Ok n => comprehension (day_of daily) (seq 0 n)
           | Raise e => Raised e
           end
       | Raise e => Raised e
       end, t')
  | (Raise e, t') => (Raised e, t')
  end.

End Ui.

(** An answer whose [daily] object has three dates and two values in each
    of the other arrays. *)
Definition short_arrays : json :=
  JObj [(lit "daily",
         JObj [(lit "time",
                JArr [JStr (lit "2024-05-01"); JStr (lit "2024-05-02");
                      JStr (lit "2024-05-03")]);
               (lit "temperature_2m_max", JArr [num 215 (-1); num 22 0]);
               (lit "temperature_2m_min", JArr [num 11 0; num 125 (-1)]);
               (lit "weathercode", JArr [num 0 0; num 3 0])])].

(** ** The store, beyond the specification *)

(** The primary keys of the rows, in the order of the table. *)
Definition ids (rows : list Models.Location.t) : list Z :=
  map Models.Location.id rows.

(** No number of the request is a NaN, the one float that is not equal
    ([==]) to itself. *)
Definition no_nan (loc : Schemas.LocationUpdate.t) : Prop :=
  Schemas.LocationUpdate.latitude loc <> Schemas.Value S754_nan
  /\ Schemas.LocationUpdate.longitude loc <> Schemas.Value S754_nan.

(** The answer of the endpoints to an id that no row has. *)
Definition not_found : exn :=
  HTTPException Api.HTTP_404_NOT_FOUND Location_not_found.

(** A table of three rows with the ids 1, 2 and 3. *)
Definition row (i : Z) (n : string) : Models.Location.t :=
  {| Models.Location.id := i; Models.Location.name := lit n;
     Models.Location.latitude := float_of_decimal false 327767 (-4);
     Models.Location.longitude := float_of_decimal true 967970 (-4);
     Models.Location.created_at := 900%Z;
     Models.Location.updated_at := 900%Z |}.

Definition three_rows : Db.Session :=
  {| Db.table := [row 1 "Dallas, TX"; row 2 "Austin, TX"; row 3 "Waco, TX"];
     Db.next_id := 4%Z; Db.pending := []; Db.calls := [] |}.

(** The database fails every query. *)
Definition query_fails : Db.Backend :=
  {| Db.now := 1200%Z; Db.row_order := fun rows => rows;
     Db.query_fault := Some OperationalError;
     Db.commit_fault := None; Db.refresh_fault := None |}.

(** A database that fails no call, an hour later. *)
Definition refresh_ok_later : Db.Backend :=
  {| Db.now := 1300%Z; Db.row_order := fun rows => rows;
     Db.query_fault := None; Db.commit_fault := None;
     Db.refresh_fault := None |}.

(** * Properties *)

Unset Implicit Arguments.

(** ** The definitions on concrete inputs *)

Example coord_re_plain :
  re_match COORD_RE (lit "32.7767,-96.7970")
  = Some [(3, lit "-96.7970"); (4, lit ".7970");
          (1, lit "32.7767"); (2, lit ".7767")].
Proof. reflexivity. Qed.

Example coord_re_spaces_and_plus :
  re_match COORD_RE (lit " +1 ,  2.5 " ++ [newline])
  = Some [(3, lit "2.5"); (4, lit ".5"); (1, lit "+1")].
Proof. reflexivity. Qed.

Example coord_re_address : re_match COORD_RE (lit "Dallas, TX") = None.
Proof. reflexivity. Qed.

Example coord_re_trailing_text :
  re_match COORD_RE (lit "1,2" ++ [newline] ++ lit "x") = None.
Proof. reflexivity. Qed.

Example float_of_tenth :
  float_of_str (lit "0.1") = Some (S754_finite false 7205759403792794 (-56)).
Proof. vm_compute. reflexivity. Qed.

Example float_of_close_to_ninety :
  float_of_str (lit "90.00000000000000000001") = Some f90.
Proof. vm_compute. reflexivity. Qed.

Example float_of_exponent :
  float_of_str (lit " -1_0.5e+1 ")
  = Some (S754_finite true 7388718138654720 (-46)).
Proof. vm_compute. reflexivity. Qed.

Example float_of_word : float_of_str (lit "north") = None.
Proof. vm_compute. reflexivity. Qed.

Example format_4f_rounds :
  format_4f (S754_finite false 7205759403792794 (-56)) = lit "0.1000"
  /\ Frontend.lat_lon_str f90 (SFopp f180) = lit "90.0000, -180.0000".
Proof. split; vm_compute; reflexivity. Qed.


(** ** Character classes *)

Ltac by_cases c :=
  destruct c as [[] [] [] [] [] [] [] []]; vm_compute;
  try discriminate; auto.

Lemma digit_not_space c : is_digit c = true -> is_space c = false.
Proof. by_cases c. Qed.

Lemma digit_not_float_space c : is_digit c = true -> is_float_space c = false.
Proof. by_cases c. Qed.

Lemma digit_not_point c : is_digit c = true -> Ascii.eqb c "." = false.
Proof. by_cases c. Qed.

Lemma digit_not_underscore c : is_digit c = true -> Ascii.eqb c "_" = false.
Proof. by_cases c. Qed.

Lemma digit_lower c : is_digit c = true -> lower c = c.
Proof. by_cases c. Qed.

Lemma space_not_digit c : is_space c = true -> is_digit c = false.
Proof. by_cases c. Qed.

Lemma space_not_point c : is_space c = true -> Ascii.eqb c "." = false.
Proof. by_cases c. Qed.

Lemma space_not_comma c : is_space c = true -> Ascii.eqb c "," = false.
Proof. by_cases c. Qed.

Lemma sign_not_digit c : is_sign c = true -> is_digit c = false.
Proof. by_cases c. Qed.

Lemma sign_not_space c : is_sign c = true -> is_space c = false.
Proof. by_cases c. Qed.

Lemma minus_is_sign c : is_minus c = true -> is_sign c = true.
Proof. by_cases c. Qed.

Lemma sign_cases c :
  is_sign c = true -> c = "-"%char \/ c = "+"%char.
Proof. by_cases c. Qed.

(** ** The matcher on a class *)


Lemma firstn_consumed (t rest : str) :
  firstn (List.length (t ++ rest) - List.length rest) (t ++ rest) = t.
Proof.
  rewrite length_app.
  replace (List.length t + List.length rest - List.length rest)
    with (List.length t + 0) by lia.
  rewrite firstn_app_2. simpl. apply app_nil_r.
Qed.

Lemma star_cls_takes p ws rest k g x :
  all p ws -> stops p rest -> k rest g = Some x ->
  star_cls p (ws ++ rest) k g = Some x.
Proof.
  intros Hws Hst Hk. induction Hws as [|c ws Hc _ IH]; simpl.
  - destruct rest as [|c r]; simpl in *; [assumption|].
    rewrite Hst. assumption.
  - rewrite Hc, IH. reflexivity.
Qed.

Lemma plus_takes p ds rest k g x :
  ds <> [] -> all p ds -> stops p rest -> k rest g = Some x ->
  rmatch (Plus p) (ds ++ rest) k g = Some x.
Proof.
  intros Hne Hds Hst Hk. destruct Hds as [|c ds Hc Hds]; [congruence|].
  simpl. rewrite Hc. now apply star_cls_takes.
Qed.

Lemma star_cls_inv p s k g x :
  star_cls p s k g = Some x ->
  exists ws rest, s = ws ++ rest /\ all p ws /\ k rest g = Some x.
Proof.
  induction s as [|c s IH]; simpl; intros H.
  - exists [], []. repeat split; [constructor | assumption].
  - destruct (p c) eqn:Hc.
    + destruct (star_cls p s k g) eqn:Hs.
      * inversion H; subst. destruct (IH eq_refl) as (ws & rest & -> & Hws & Hk).
        exists (c :: ws), rest. repeat split; [constructor|]; assumption.
      * exists [], (c :: s). repeat split; [constructor | assumption].
    + exists [], (c :: s). repeat split; [constructor | assumption].
Qed.

Lemma plus_inv p s k g x :
  rmatch (Plus p) s k g = Some x ->
  exists ds rest, s = ds ++ rest /\ ds <> [] /\ all p ds /\ k rest g = Some x.
Proof.
  simpl. destruct s as [|c s]; [discriminate|].
  destruct (p c) eqn:Hc; [|discriminate]. intros H.
  destruct (star_cls_inv _ _ _ _ _ H) as (ws & rest & -> & Hws & Hk).
  exists (c :: ws), rest. repeat split; [discriminate | constructor |]; assumption.
Qed.

Lemma all_app p (a b : str) : all p a -> all p b -> all p (a ++ b).
Proof. intros Ha Hb. apply Forall_app. split; assumption. Qed.

(** ** The pattern of a number and of a pair *)

Section Pattern.

Variable sg : ascii -> bool.
Hypothesis sg_not_digit : forall c, sg c = true -> is_digit c = false.
Hypothesis sg_not_space : forall c, sg c = true -> is_space c = false.


Lemma after_number_stops s : after_number s -> stops is_digit s.
Proof. destruct s; simpl; tauto. Qed.


Lemma frac_takes n ft fs rest k g x :
  frac_text ft fs -> after_number rest ->
  k rest (match ft with [] => g | _ => (n, ft) :: g end) = Some x ->
  rmatch (frac_re n) (ft ++ rest) k g = Some x.
Proof.
  intros Hf Hr Hk. destruct Hf as [|fs [Hne Hfs]]; simpl app.
  - unfold frac_re. simpl.
    destruct rest as [|c r]; simpl in *; [assumption|].
    destruct Hr as [_ ->]. assumption.
  - unfold frac_re.
    change (rmatch (Opt ?r) ?s ?k ?g)
      with (match rmatch r s k g with Some y => Some y | None => k s g end).
    assert (E : rmatch (Group n (Chr "." >> Plus is_digit))
                  ("."%char :: fs ++ rest) k g = Some x).
    { cbn [rmatch]. rewrite Ascii.eqb_refl.
      apply plus_takes; try assumption.
      - now apply after_number_stops.
      - change ("."%char :: fs ++ rest) with (("."%char :: fs) ++ rest).
        rewrite firstn_consumed. assumption. }
    rewrite E. reflexivity.
Qed.

Lemma frac_inv n s k g x :
  rmatch (frac_re n) s k g = Some x ->
  exists ft fs rest inner,
    s = ft ++ rest /\ frac_text ft fs /\ k rest inner = Some x
    /\ forall m, m <> n -> group m inner = group m g.
Proof.
  unfold frac_re.
  change (rmatch (Opt ?r) ?s ?k ?g)
    with (match rmatch r s k g with Some y => Some y | None => k s g end).
  destruct (rmatch (Group n (Chr "." >> Plus is_digit)) s k g) eqn:E.
  - intros H; inversion H; subst. cbn [rmatch] in E.
    destruct s as [|c s]; [discriminate|].
    destruct (Ascii.eqb c ".") eqn:Hc; [|discriminate].
    apply Ascii.eqb_eq in Hc; subst c.
    apply plus_inv in E. destruct E as (fs & rest & -> & Hne & Hfs & Hk).
    change ("."%char :: fs ++ rest) with (("."%char :: fs) ++ rest) in Hk.
    rewrite firstn_consumed in Hk.
    exists ("."%char :: fs), fs, rest, ((n, "."%char :: fs) :: g).
    repeat split; try assumption.
    + constructor. split; assumption.
    + intros m Hm. simpl. apply Nat.eqb_neq in Hm.
      rewrite Nat.eqb_sym, Hm. reflexivity.
  - intros H. exists [], [], s, g. repeat split; try assumption. constructor.
Qed.

Lemma number_first g v :
  number sg g v -> exists c r, g = c :: r /\ is_space c = false.
Proof.
  intros [sgn neg ds ft fs Hs [Hne Hds] _].
  destruct Hs as [|c Hc].
  - destruct Hds as [|d ds Hd _]; [congruence|].
    exists d, (ds ++ ft). split; [reflexivity|]. now apply digit_not_space.
  - exists c, (ds ++ ft). split; [reflexivity|]. now apply sg_not_space.
Qed.

Lemma number_takes n g v rest g0 :
  number sg g v -> after_number rest ->
  exists inner,
    (forall m, m <> S n -> group m inner = group m g0)
    /\ forall k x, k rest ((n, g) :: inner) = Some x ->
                   rmatch (number_re sg n) (g ++ rest) k g0 = Some x.
Proof.
  intros Hnum Hr.
  destruct Hnum as [sgn neg ds ft fs Hs [Hne Hds] Hf].
  exists (match ft with [] => g0 | _ => (S n, ft) :: g0 end). split.
  { intros m Hm. destruct ft; [reflexivity|].
    cbn [group]. apply Nat.eqb_neq in Hm. rewrite Nat.eqb_sym, Hm.
    reflexivity. }
  intros k x Hk.
  unfold number_re. fold (frac_re (S n)).
  set (whole := (sgn ++ ds ++ ft) ++ rest).
  cbn [rmatch].
  set (K := fun (s' : str) (g' : captures) =>
              rmatch (Plus is_digit) s'
                (fun s'' g'' =>
                   rmatch (frac_re (S n)) s''
                     (fun s3 g3 =>
                        k s3 ((n, firstn (List.length whole - List.length s3)
                                    whole) :: g3)) g'') g').
  assert (HK : K (ds ++ ft ++ rest) g0 = Some x).
  { unfold K. apply plus_takes; try assumption.
    - destruct Hf; simpl.
      + now apply after_number_stops.
      + reflexivity.
    - apply frac_takes with (fs := fs); try assumption.
      unfold whole. rewrite firstn_consumed. exact Hk. }
  change (match rmatch (Cls sg) whole K g0 with
          | Some y => Some y
          | None => K whole g0
          end = Some x).
  unfold whole. destruct Hs as [|c Hc].
  - simpl app. destruct Hds as [|d ds Hd Hds]; [congruence|].
    simpl. destruct (sg d) eqn:Hsd.
    + apply sg_not_digit in Hsd. congruence.
    + rewrite <- app_assoc. exact HK.
  - simpl. rewrite Hc. rewrite <- app_assoc. rewrite HK. reflexivity.
Qed.

Lemma number_inv n s k g0 x :
  rmatch (number_re sg n) s k g0 = Some x ->
  exists t v rest inner,
    s = t ++ rest /\ number sg t v /\ k rest ((n, t) :: inner) = Some x
    /\ forall m, m <> S n -> group m inner = group m g0.
Proof.
  unfold number_re. fold (frac_re (S n)). cbn [rmatch].
  set (K := fun (s' : str) (g' : captures) =>
              rmatch (Plus is_digit) s'
                (fun s'' g'' =>
                   rmatch (frac_re (S n)) s''
                     (fun s3 g3 =>
                        k s3 ((n, firstn (List.length s - List.length s3) s)
                                :: g3)) g'') g').
  assert (HK : forall sgn neg s1, s = sgn ++ s1 -> sign_text sg sgn neg ->
                 K s1 g0 = Some x ->
                 exists t v rest inner,
                   s = t ++ rest /\ number sg t v
                   /\ k rest ((n, t) :: inner) = Some x
                   /\ forall m, m <> S n -> group m inner = group m g0).
  { intros sgn neg s1 Es Hs H. unfold K in H.
    apply plus_inv in H. destruct H as (ds & r1 & -> & Hne & Hds & H).
    apply frac_inv in H.
    destruct H as (ft & fs & rest & inner & -> & Hf & H & Hin).
    exists (sgn ++ ds ++ ft). eexists. exists rest, inner.
    assert (E : s = (sgn ++ ds ++ ft) ++ rest).
    { rewrite Es. now rewrite <- !app_assoc. }
    split; [exact E|]. split.
    { apply number_intro with (neg := neg) (fs := fs);
        [assumption | split; assumption | assumption]. }
    split; [|exact Hin].
    rewrite E in H. rewrite firstn_consumed in H. exact H. }
  intros H.
  change (match rmatch (Cls sg) s K g0 with
          | Some y => Some y
          | None => K s g0
          end = Some x) in H.
  destruct (rmatch (Cls sg) s K g0) eqn:E.
  - inversion H; subst. simpl in E.
    destruct s as [|c s1]; [discriminate|].
    destruct (sg c) eqn:Hc; [|discriminate].
    apply (HK [c] (Ascii.eqb c "-") s1); [reflexivity | now constructor | exact E].
  - apply (HK [] false s); [reflexivity | constructor | exact H].
Qed.

Lemma rmatch_seq_eq r1 r2 s k g :
  rmatch (r1 >> r2) s k g = rmatch r1 s (fun s' g' => rmatch r2 s' k g') g.
Proof. reflexivity. Qed.

Lemma star_takes p ws rest k g x :
  all p ws -> stops p rest -> k rest g = Some x ->
  rmatch (Star p) (ws ++ rest) k g = Some x.
Proof. apply star_cls_takes. Qed.

Lemma star_inv p s k g x :
  rmatch (Star p) s k g = Some x ->
  exists ws rest, s = ws ++ rest /\ all p ws /\ k rest g = Some x.
Proof. apply star_cls_inv. Qed.

Lemma chr_takes c rest k g x :
  k rest g = Some x -> rmatch (Chr c) (c :: rest) k g = Some x.
Proof. simpl. now rewrite Ascii.eqb_refl. Qed.

Lemma chr_inv c s k g x :
  rmatch (Chr c) s k g = Some x ->
  exists rest, s = c :: rest /\ k rest g = Some x.
Proof.
  simpl. destruct s as [|a s]; [discriminate|].
  destruct (Ascii.eqb a c) eqn:E; [|discriminate].
  apply Ascii.eqb_eq in E; subst a. intros H. now exists s.
Qed.

Lemma eol_inv s k g x :
  rmatch Eol s k g = Some x -> all is_space s /\ k s g = Some x.
Proof.
  simpl. destruct s as [|c [|d s]]; try discriminate.
  - intros H. split; [constructor | exact H].
  - destruct (Ascii.eqb c newline) eqn:E; [|discriminate].
    apply Ascii.eqb_eq in E; subst c. intros H.
    split; [|exact H]. repeat constructor.
Qed.

Lemma pair_takes s g1 lat g3 lon :
  coordinates sg s g1 lat g3 lon ->
  exists m, re_match (pair_re sg) s = Some m
            /\ group 1 m = Some g1 /\ group 3 m = Some g3.
Proof.
  intros ((w1 & w2 & w3 & w4 & -> & H1 & H2 & H3 & H4) & N1 & N3).
  assert (A2 : after_number (w2 ++ ","%char :: w3 ++ g3 ++ w4)).
  { destruct H2 as [|c w2 Hc _]; simpl.
    - split; reflexivity.
    - split; [now apply space_not_digit | now apply space_not_point]. }
  destruct (number_takes 1 _ _ _ [] N1 A2) as (in1 & Hin1 & T1).
  assert (A4 : after_number w4).
  { destruct H4 as [|c w4 Hc _]; simpl; [exact I|].
    split; [now apply space_not_digit | now apply space_not_point]. }
  destruct (number_takes 3 _ _ _ ((1, g1) :: in1) N3 A4) as (in3 & Hin3 & T3).
  destruct (number_first _ _ N1) as (c1 & r1 & E1 & S1).
  destruct (number_first _ _ N3) as (c3 & r3 & E3 & S3).
  exists ((3, g3) :: in3). split; [|split].
  - unfold re_match, pair_re.
    rewrite rmatch_seq_eq. apply star_takes; [exact H1 | now rewrite E1 |].
    cbv beta. rewrite rmatch_seq_eq. apply T1.
    cbv beta. rewrite rmatch_seq_eq.
    apply star_takes; [exact H2 | reflexivity |].
    cbv beta. rewrite rmatch_seq_eq. apply chr_takes.
    cbv beta. rewrite rmatch_seq_eq.
    apply star_takes; [exact H3 | now rewrite E3 |].
    cbv beta. rewrite rmatch_seq_eq. apply T3.
    cbv beta. rewrite rmatch_seq_eq. rewrite <- (app_nil_r w4).
    apply star_takes; [exact H4 | exact I |]. reflexivity.
  - cbn [group Nat.eqb]. rewrite Hin3 by discriminate. reflexivity.
  - reflexivity.
Qed.

Lemma pair_inv s m :
  re_match (pair_re sg) s = Some m ->
  exists g1 lat g3 lon,
    coordinates sg s g1 lat g3 lon
    /\ group 1 m = Some g1 /\ group 3 m = Some g3.
Proof.
  unfold re_match, pair_re. intros H.
  rewrite rmatch_seq_eq in H. apply star_inv in H.
  destruct H as (w1 & s1 & -> & H1 & H). cbv beta in H.
  rewrite rmatch_seq_eq in H. apply number_inv in H.
  destruct H as (g1 & lat & s2 & in1 & -> & N1 & H & Hin1). cbv beta in H.
  rewrite rmatch_seq_eq in H. apply star_inv in H.
  destruct H as (w2 & s3 & -> & H2 & H). cbv beta in H.
  rewrite rmatch_seq_eq in H. apply chr_inv in H.
  destruct H as (s4 & -> & H). cbv beta in H.
  rewrite rmatch_seq_eq in H. apply star_inv in H.
  destruct H as (w3 & s5 & -> & H3 & H). cbv beta in H.
  rewrite rmatch_seq_eq in H. apply number_inv in H.
  destruct H as (g3 & lon & s6 & in3 & -> & N3 & H & Hin3). cbv beta in H.
  rewrite rmatch_seq_eq in H. apply star_inv in H.
  destruct H as (w4 & s7 & -> & H4 & H). cbv beta in H.
  apply eol_inv in H. destruct H as (H5 & H). inversion H; subst m.
  exists g1, lat, g3, lon. split; [|split].
  - split; [|split; assumption].
    exists w1, w2, w3, (w4 ++ s7). repeat split; try assumption.
    now apply all_app.
  - cbn [group Nat.eqb]. rewrite Hin3 by discriminate. reflexivity.
  - reflexivity.
Qed.

End Pattern.

Lemma number_minus_sign g v : number is_minus g v -> number is_sign g v.
Proof.
  intros [sgn neg ds ft fs Hs Hd Hf]. constructor; try assumption.
  destruct Hs as [|c Hc]; constructor. now apply minus_is_sign.
Qed.

Lemma minus_not_digit c : is_minus c = true -> is_digit c = false.
Proof. intros H. apply sign_not_digit. now apply minus_is_sign. Qed.

Lemma minus_not_space c : is_minus c = true -> is_space c = false.
Proof. intros H. apply sign_not_space. now apply minus_is_sign. Qed.

(** A string that matches the pattern of the specification matches the
    pattern of the program, with the same two numbers. *)
Lemma spec_pattern_included s :
  re_match SPEC_COORD_RE s <> None ->
  exists g1 lat g3 lon m,
    coordinates is_minus s g1 lat g3 lon
    /\ re_match COORD_RE s = Some m
    /\ group 1 m = Some g1 /\ group 3 m = Some g3.
Proof.
  intros H. destruct (re_match SPEC_COORD_RE s) as [m0|] eqn:E; [|congruence].
  unfold SPEC_COORD_RE in E. apply pair_inv in E.
  destruct E as (g1 & lat & g3 & lon & C & _ & _).
  assert (C' : coordinates is_sign s g1 lat g3 lon).
  { destruct C as (P & N1 & N3).
    split; [exact P|]. split; now apply number_minus_sign. }
  destruct (pair_takes _ sign_not_digit sign_not_space _ _ _ _ _ C') as (m & Hm & G1 & G3).
  exists g1, lat, g3, lon, m.
  split; [exact C|]. split; [exact Hm|]. split; assumption.
Qed.

(** ** [float()] on the text of a number *)

Lemma sign_not_float_space c : is_sign c = true -> is_float_space c = false.
Proof. by_cases c. Qed.

Lemma sign_not_underscore c : is_sign c = true -> Ascii.eqb c "_" = false.
Proof. by_cases c. Qed.

Lemma lstrip_stops p s : stops p s -> lstrip p s = s.
Proof. destruct s as [|c s]; simpl; [reflexivity|]. now intros ->. Qed.

Lemma strip_id p (s r : str) d :
  stops p s -> s = r ++ [d] -> p d = false -> strip p s = s.
Proof.
  intros Hs -> Hd. unfold strip. rewrite (@lstrip_stops _ _ Hs).
  rewrite rev_app_distr. simpl. rewrite Hd. simpl.
  now rewrite rev_involutive.
Qed.

Lemma drop_underscores_id s :
  forall prev, Ascii.eqb prev "_" = false ->
               Forall (fun c => Ascii.eqb c "_" = false) s ->
               drop_underscores prev s = Some s.
Proof.
  induction s as [|c s IH]; intros prev Hp Hs; simpl.
  - now rewrite Hp.
  - inversion Hs as [|? ? Hc Hs']; subst. rewrite Hc, Hp. simpl.
    now rewrite (IH c Hc Hs').
Qed.

Lemma span_takes p ds rest :
  all p ds -> stops p rest -> span p (ds ++ rest) = (ds, rest).
Proof.
  intros Hds Hr. induction Hds as [|c ds Hc _ IH]; simpl.
  - destruct rest as [|c r]; simpl in *; [reflexivity|]. now rewrite Hr.
  - now rewrite Hc, IH.
Qed.

Lemma split_sign_digit d r :
  is_digit d = true -> split_sign (d :: r) = (false, d :: r).
Proof. by_cases d. Qed.

Lemma digit_word_differs d r w0 w :
  is_digit d = true -> is_digit w0 = false ->
  str_eqb (map lower (d :: r)) (w0 :: w) = false.
Proof.
  intros Hd Hw. unfold str_eqb.
  destruct (list_eq_dec ascii_dec (map lower (d :: r)) (w0 :: w)) as [E|];
    [|reflexivity].
  simpl in E. rewrite (digit_lower _ Hd) in E. congruence.
Qed.

Lemma digits_last ds :
  digits ds -> exists r d, ds = r ++ [d] /\ is_digit d = true.
Proof.
  intros [Hne Hds]. destruct (exists_last Hne) as (r & d & ->).
  exists r, d. split; [reflexivity|].
  apply Forall_app in Hds. destruct Hds as [_ Hd]. now inversion Hd.
Qed.

Lemma float_of_digits neg ds ft fs :
  digits ds -> frac_text ft fs ->
  float_of_body neg (ds ++ ft)
  = Some (float_of_decimal neg (digits_val (ds ++ fs))
            (- Z.of_nat (List.length fs))).
Proof.
  intros [Hne Hds] Hf. unfold float_of_body.
  destruct ds as [|d ds']; [congruence|].
  assert (Hd : is_digit d = true) by now inversion Hds.
  change ((d :: ds') ++ ft) with (d :: ds' ++ ft).
  cbv zeta.
  assert (W : forall w, is_digit (hd " "%char (lit w)) = false -> lit w <> [] ->
                        str_eqb (map lower (d :: ds' ++ ft)) (lit w) = false).
  { intros w Hw Hn. destruct (lit w) as [|w0 w']; [congruence|].
    now apply digit_word_differs. }
  rewrite !W by (reflexivity || discriminate).
  cbn [orb].
  change (d :: ds' ++ ft) with ((d :: ds') ++ ft).
  destruct Hf as [|fs [Hfne Hfs]].
  - rewrite span_takes by (assumption || exact I). reflexivity.
  - rewrite span_takes by (assumption || reflexivity).
    rewrite <- (app_nil_r fs) at 1.
    rewrite span_takes by (assumption || exact I). reflexivity.
Qed.

Lemma float_of_number g v : number is_sign g v -> float_of_str g = Some v.
Proof.
  intros [sgn neg ds ft fs Hs Hd Hf]. unfold float_of_str.
  assert (Hlast : exists r d, sgn ++ ds ++ ft = r ++ [d] /\ is_digit d = true).
  { destruct Hf as [|fs Hfs].
    - destruct (digits_last _ Hd) as (r & d & -> & Hdd).
      exists (sgn ++ r), d. split; [|assumption].
      now rewrite app_nil_r, app_assoc.
    - destruct (digits_last _ Hfs) as (r & d & -> & Hdd).
      exists (sgn ++ ds ++ "."%char :: r), d. split; [|assumption].
      now rewrite <- !app_assoc. }
  destruct Hlast as (r & d & E & Hdd).
  assert (Hfirst : stops is_float_space (sgn ++ ds ++ ft)).
  { destruct Hs as [|c Hc]; simpl.
    - destruct Hd as [Hne Hds]. destruct Hds as [|d0 ? Hd0 _]; [congruence|].
      simpl. now apply digit_not_float_space.
    - now apply sign_not_float_space. }
  rewrite (@strip_id is_float_space _ _ _ Hfirst E (digit_not_float_space _ Hdd)).
  rewrite drop_underscores_id; [|reflexivity|].
  - destruct Hs as [|c Hc]; simpl app.
    + destruct Hd as [Hne Hds]. destruct ds as [|d0 ds']; [congruence|].
      assert (Hd0 : is_digit d0 = true) by now inversion Hds.
      change ((d0 :: ds') ++ ft) with (d0 :: ds' ++ ft).
      rewrite (@split_sign_digit d0 _ Hd0).
      change (d0 :: ds' ++ ft) with ((d0 :: ds') ++ ft).
      apply float_of_digits; [split|]; assumption.
    + destruct (sign_cases _ Hc) as [-> | ->]; simpl split_sign;
        now apply float_of_digits.
  - apply Forall_app. split.
    + destruct Hs as [|c Hc]; constructor; [|constructor].
      now apply sign_not_underscore.
    + apply Forall_app. split.
      * destruct Hd as [_ Hds]. eapply Forall_impl; [|exact Hds].
        intros a. apply digit_not_underscore.
      * destruct Hf as [|fs [_ Hfs]]; constructor; [reflexivity|].
        eapply Forall_impl; [|exact Hfs]. intros a. apply digit_not_underscore.
Qed.

(** ** The parser *)

Lemma run_literal_frontend w s m g1 lat g3 lon :
  re_match COORD_RE s = Some m ->
  group 1 m = Some g1 -> group 3 m = Some g3 ->
  float_of_str g1 = Some lat -> float_of_str g3 = Some lon ->
  run (Frontend.parse_input w s) = (Ok (lat, lon), []).
Proof.
  intros Hm G1 G3 F1 F3. unfold Frontend.parse_input. rewrite Hm, G1, G3.
  unfold run, bind, lift, ret, float_of_group, py_float.
  now rewrite F1, F3.
Qed.

Lemma run_literal_api w s m g1 lat g3 lon :
  re_match COORD_RE s = Some m ->
  group 1 m = Some g1 -> group 3 m = Some g3 ->
  float_of_str g1 = Some lat -> float_of_str g3 = Some lon ->
  run (Api.parse_input w s)
  = (if Api.in_range lat lon then Ok (lat, lon)
     else Raise (ValueError (Coordinates_out_of_range lat lon)), []).
Proof.
  intros Hm G1 G3 F1 F3. unfold Api.parse_input. rewrite Hm, G1, G3.
  unfold run, bind, lift, ret, raise, float_of_group, py_float.
  rewrite F1, F3. now destruct (Api.in_range lat lon).
Qed.


(** ** Running a computation *)

Ltac run_io :=
  cbv beta iota zeta
    delta [run bind try_except2 try_except try_except_all http_get emit
           raise_for_status resp_json lift ret raise status content].

(** Every run of [geocode] records its call, first and once; what
    follows is at most the one request it sends. *)
Lemma geocode_trace w address :
  exists rest,
    snd (run (Geocode.geocode w address)) = Geocode_called address :: rest
    /\ geocode_calls rest = 0.
Proof.
  unfold Geocode.geocode, run, bind, emit, try_except, http_get, raise,
    raise_for_status, resp_json, lift, ret.
  destruct (GEOCODER_EMAIL w) as [[|c email]|]; simpl;
    try (exists []; split; reflexivity).
  destruct (upstream w _) as [|st b]; simpl;
    try (eexists; split; reflexivity).
  destruct (is_error_status st); simpl;
    try (eexists; split; reflexivity).
  destruct b as [j|]; simpl; try (eexists; split; reflexivity).
  destruct j as [| | | | |[|location l]|]; simpl;
    try (eexists; split; reflexivity).
  repeat match goal with
         | |- context [Geocode.float_at ?l ?k] =>
             destruct (Geocode.float_at l k); simpl
         | |- context [is_Key_Type_ValueError ?e] =>
             destruct (is_Key_Type_ValueError e); simpl
         end;
    eexists; split; reflexivity.
Qed.

Lemma frontend_geocode_trace w address :
  exists rest,
    snd (run (Frontend.geocode w address)) = Geocode_called address :: rest
    /\ geocode_calls rest = 0.
Proof.
  unfold Frontend.geocode, run, bind, emit, http_get, raise,
    raise_for_status, resp_json, lift, ret.
  simpl.
  destruct (upstream w _) as [|st b]; simpl;
    try (eexists; split; reflexivity).
  destruct (is_error_status st); simpl;
    try (eexists; split; reflexivity).
  destruct b as [j|]; simpl; try (eexists; split; reflexivity).
  destruct (truthy j); simpl; try (eexists; split; reflexivity).
  destruct (first j) as [loc|e]; simpl; try (eexists; split; reflexivity).
  repeat match goal with
         | |- context [getitem ?l ?k] => destruct (getitem l k); simpl
         | |- context [py_float ?v] => destruct (py_float v); simpl
         end;
    eexists; split; reflexivity.
Qed.

(** C2, as amended.  On a string that the pattern of the program (which
    takes a leading [+] as well as [-]) does not match, each parser hands
    the whole string to its geocoding collaborator: the run is the run of
    [geocode] on the string, with its pair or its failure, and it calls
    [geocode] once, on that string. *)
Theorem parse_input_address (w : World) (s : str) :
  re_match COORD_RE s = None ->
  (run (Api.parse_input w s) = run (Geocode.geocode w s)
   /\ geocode_calls (snd (run (Api.parse_input w s))) = 1
   /\ In (Geocode_called s) (snd (run (Api.parse_input w s))))
  /\ (run (Frontend.parse_input w s) = run (Frontend.geocode w s)
      /\ geocode_calls (snd (run (Frontend.parse_input w s))) = 1
      /\ In (Geocode_called s) (snd (run (Frontend.parse_input w s)))).
Proof.
  intros H. unfold Api.parse_input, Frontend.parse_input. rewrite H. split.
  - destruct (geocode_trace w s) as (rest & -> & Hr).
    split; [reflexivity|]. split; [|now left].
    unfold geocode_calls in *. simpl. now rewrite Hr.
  - destruct (frontend_geocode_trace w s) as (rest & -> & Hr).
    split; [reflexivity|]. split; [|now left].
    unfold geocode_calls in *. simpl. now rewrite Hr.
Qed.

Lemma parse_input_address_witness :
  (run (Api.parse_input offline (lit "Dallas, TX"))
   = run (Geocode.geocode offline (lit "Dallas, TX"))
   /\ geocode_calls (snd (run (Api.parse_input offline (lit "Dallas, TX")))) = 1
   /\ In (Geocode_called (lit "Dallas, TX"))
        (snd (run (Api.parse_input offline (lit "Dallas, TX")))))
  /\ (run (Frontend.parse_input offline (lit "Dallas, TX"))
      = run (Frontend.geocode offline (lit "Dallas, TX"))
      /\ geocode_calls
           (snd (run (Frontend.parse_input offline (lit "Dallas, TX")))) = 1
      /\ In (Geocode_called (lit "Dallas, TX"))
           (snd (run (Frontend.parse_input offline (lit "Dallas, TX"))))).
Proof.
  apply (parse_input_address offline (lit "Dallas, TX")). reflexivity.
Defined.

(** C2, as stated, fails: ["+1,+2"] is not empty and does not match the
    pattern of the specification, yet the parser returns the pair without
    a call of the geocoding collaborator. *)
Lemma parse_input_plus_sign_not_geocoded :
  ~ (forall (w : World) (s : str),
        s <> [] -> re_match SPEC_COORD_RE s = None ->
        geocode_calls (snd (run (Api.parse_input w s))) = 1).
Proof.
  intros H. specialize (H offline (lit "+1,+2")).
  assert (E : run (Api.parse_input offline (lit "+1,+2"))
              = (Ok (S754_finite false 4503599627370496 (-52),
                     S754_finite false 4503599627370496 (-51)), [])).
  { vm_compute. reflexivity. }
  rewrite E in H. simpl in H.
  assert (C : 0 = 1) by (apply H; [discriminate | vm_compute; reflexivity]).
  discriminate C.
Qed.

(** ** The range check *)

(** A number whose magnitude is above a positive bound is not between
    the bound and its opposite. *)
Lemma beyond_bound mb eb (x : float) :
  SFltb (S754_finite false mb eb) (SFabs x) = true ->
  SFleb (SFopp (S754_finite false mb eb)) x
  && SFleb x (S754_finite false mb eb) = false.
Proof.
  unfold SFltb, SFleb.
  destruct x as [s|s| |s m e]; simpl; try discriminate.
  - destruct s; reflexivity.
  - rewrite (Z.compare_antisym eb e).
    assert (E : Pos.compare_cont Eq m mb
                = CompOpp (Pos.compare_cont Eq mb m)).
    { now rewrite Pos.compare_cont_antisym. }
    rewrite E.
    destruct (eb ?= e)%Z; simpl.
    + destruct (Pos.compare_cont Eq mb m); simpl; try discriminate.
      destruct s; reflexivity.
    + destruct s; reflexivity.
    + discriminate.
Qed.

Lemma out_of_range lat lon :
  SFltb f90 (SFabs lat) = true \/ SFltb f180 (SFabs lon) = true ->
  Api.in_range lat lon = false.
Proof.
  unfold Api.in_range, f90, f180. intros [H | H].
  - now rewrite (beyond_bound _ _ _ H).
  - rewrite (beyond_bound _ _ _ H). apply andb_false_r.
Qed.

(** To lie between a positive bound and its opposite is for the
    magnitude to be at most the bound. *)
Lemma within_bound mb eb (x : float) :
  SFleb (SFopp (S754_finite false mb eb)) x
  && SFleb x (S754_finite false mb eb)
  = SFleb (SFabs x) (S754_finite false mb eb).
Proof.
  unfold SFleb.
  destruct x as [s|s| |s m e]; simpl.
  - destruct s; reflexivity.
  - destruct s; reflexivity.
  - reflexivity.
  - destruct s; [|reflexivity].
    rewrite (Z.compare_antisym e eb).
    assert (E : Pos.compare_cont Eq mb m
                = CompOpp (Pos.compare_cont Eq m mb)).
    { now rewrite Pos.compare_cont_antisym. }
    rewrite E.
    destruct (e ?= eb)%Z; simpl; try reflexivity.
    destruct (Pos.compare_cont Eq m mb); reflexivity.
Qed.

Lemma in_range_abs lat lon :
  Api.in_range lat lon
  = SFleb (SFabs lat) f90 && SFleb (SFabs lon) f180.
Proof.
  unfold Api.in_range, f90, f180. now rewrite !within_bound.
Qed.

(** C3.  A coordinate literal whose latitude is beyond 90 or whose
    longitude is beyond 180 in magnitude makes the [parse_input] of the
    service layer raise the out-of-range [ValueError]; nothing is
    returned and no collaborator is called. *)
Theorem parse_input_out_of_range (w : World) (s g1 g3 : str)
  (lat lon : float) :
  coordinates is_sign s g1 lat g3 lon ->
  SFltb f90 (SFabs lat) = true \/ SFltb f180 (SFabs lon) = true ->
  run (Api.parse_input w s)
  = (Raise (ValueError (Coordinates_out_of_range lat lon)), []).
Proof.
  intros C R.
  destruct (pair_takes _ sign_not_digit sign_not_space _ _ _ _ _ C) as (m & Hm & G1 & G3).
  destruct C as (_ & N1 & N3).
  rewrite (run_literal_api w s _ _ _ _ _ Hm G1 G3 (float_of_number _ _ N1)
             (float_of_number _ _ N3)).
  now rewrite (out_of_range _ _ R).
Qed.

(** The text of a whole number without sign or fraction. *)
Lemma number_plain sg (ds : str) :
  digits ds ->
  number sg ds (float_of_decimal false (digits_val ds) 0).
Proof.
  intros H.
  pose proof (number_intro (no_sign sg) H no_frac) as N.
  simpl in N. now rewrite !app_nil_r in N.
Qed.

Lemma coordinates_91_0 :
  coordinates is_sign (lit "91,0") (lit "91")
    (float_of_decimal false 91 0) (lit "0") (float_of_decimal false 0 0).
Proof.
  split; [|split].
  - exists [], [], [], []. repeat split; constructor.
  - apply (number_plain is_sign (lit "91")).
    split; [discriminate | repeat constructor].
  - apply (number_plain is_sign (lit "0")).
    split; [discriminate | repeat constructor].
Defined.

Lemma parse_input_out_of_range_witness :
  run (Api.parse_input offline (lit "91,0"))
  = (Raise (ValueError (Coordinates_out_of_range
                          (float_of_decimal false 91 0)
                          (float_of_decimal false 0 0))), []).
Proof.
  apply (parse_input_out_of_range offline _ _ _ _ _ coordinates_91_0).
  left. vm_compute. reflexivity.
Defined.

(** C1, as amended.  A string that matches the coordinate pattern of the
    specification writes two numbers; the parser of the front end returns
    them as (lat, lon); the parser of the service layer returns them when
    the magnitude of the latitude is at most 90 and that of the longitude
    at most 180, and raises the out-of-range error otherwise; neither
    calls the geocoding collaborator nor the network. *)
Theorem parse_input_coordinates (w : World) (s : str) :
  re_match SPEC_COORD_RE s <> None ->
  exists g1 lat g3 lon,
    coordinates is_minus s g1 lat g3 lon
    /\ run (Frontend.parse_input w s) = (Ok (lat, lon), [])
    /\ run (Api.parse_input w s)
       = (if SFleb (SFabs lat) f90 && SFleb (SFabs lon) f180
          then Ok (lat, lon)
          else Raise (ValueError (Coordinates_out_of_range lat lon)), []).
Proof.
  intros H.
  destruct (spec_pattern_included s H) as (g1 & lat & g3 & lon & m & C & Hm & G1 & G3).
  assert (F1 : float_of_str g1 = Some lat).
  { apply float_of_number, number_minus_sign, C. }
  assert (F3 : float_of_str g3 = Some lon).
  { apply float_of_number, number_minus_sign, C. }
  exists g1, lat, g3, lon. split; [exact C|]. split.
  - exact (run_literal_frontend w s _ _ _ _ _ Hm G1 G3 F1 F3).
  - rewrite <- in_range_abs.
    exact (run_literal_api w s _ _ _ _ _ Hm G1 G3 F1 F3).
Qed.

Lemma parse_input_coordinates_witness :
  exists g1 lat g3 lon,
    coordinates is_minus (lit "32.7767,-96.7970") g1 lat g3 lon
    /\ run (Frontend.parse_input offline (lit "32.7767,-96.7970"))
       = (Ok (lat, lon), [])
    /\ run (Api.parse_input offline (lit "32.7767,-96.7970"))
       = (if SFleb (SFabs lat) f90 && SFleb (SFabs lon) f180
          then Ok (lat, lon)
          else Raise (ValueError (Coordinates_out_of_range lat lon)), []).
Proof.
  apply (parse_input_coordinates offline (lit "32.7767,-96.7970")).
  vm_compute. discriminate.
Defined.

(** C1, as stated, fails in the service layer: ["91,0"] matches the
    pattern and [parse_input] raises instead of returning the pair. *)
Lemma parse_input_literal_not_always_returned :
  ~ (forall (w : World) (s : str),
        re_match SPEC_COORD_RE s <> None ->
        exists lat lon, run (Api.parse_input w s) = (Ok (lat, lon), [])).
Proof.
  intros H. destruct (H offline (lit "91,0")) as (lat & lon & E).
  - vm_compute. discriminate.
  - vm_compute in E. discriminate.
Qed.

(** ** The forecast *)

Lemma zip_days_length ts xs ns cs :
  List.length ts = List.length xs -> List.length xs = List.length ns ->
  List.length ns = List.length cs ->
  List.length (WeatherApp.zip_days ts xs ns cs) = List.length ts.
Proof.
  revert xs ns cs.
  induction ts as [|t ts IH]; intros [|x xs] [|n ns] [|c cs]; simpl;
    try discriminate; try reflexivity.
  intros H1 H2 H3. f_equal. apply IH; congruence.
Qed.

Lemma zip_days_nth ts xs ns cs i :
  List.length ts = List.length xs -> List.length xs = List.length ns ->
  List.length ns = List.length cs -> i < List.length ts ->
  day_at ts xs ns cs i <> None
  /\ nth_error (WeatherApp.zip_days ts xs ns cs) i = day_at ts xs ns cs i.
Proof.
  revert xs ns cs i.
  induction ts as [|t ts IH]; intros [|x xs] [|n ns] [|c cs] i; simpl;
    try discriminate; try lia.
  intros H1 H2 H3 Hi. destruct i as [|i].
  - split; [discriminate | reflexivity].
  - change (day_at (t :: ts) (x :: xs) (n :: ns) (c :: cs) (S i))
      with (day_at ts xs ns cs i).
    change (nth_error (?a :: ?l) (S i)) with (nth_error l i).
    apply IH; try congruence. lia.
Qed.

(** The run of [fetch_5day] on an answer that holds the four arrays. *)
Lemma fetch_5day_run w lat lon ts xs ns cs :
  daily_arrays w lat lon ts xs ns cs ->
  fst (run (WeatherApp.fetch_5day w lat lon))
  = if Nat.eqb (List.length ts) (List.length xs)
       && Nat.eqb (List.length xs) (List.length ns)
       && Nat.eqb (List.length ns) (List.length cs)
    then Ok (WeatherApp.zip_days ts xs ns cs)
    else Raise (ValueError Forecast_arrays_unequal).
Proof.
  intros (st & payload & d & Hu & Hst & Hd & Ht & Hx & Hn & Hc).
  unfold WeatherApp.fetch_5day. run_io. rewrite Hu. run_io. rewrite Hst.
  run_io.
  destruct payload as [| | | | | |items]; try discriminate Hd.
  cbn [field] in Hd. cbn [dict_get]. rewrite Hd. run_io.
  rewrite Ht, Hx, Hn, Hc. cbn [len iterate]. run_io.
  destruct (Nat.eqb (List.length ts) (List.length xs)); [|reflexivity].
  destruct (Nat.eqb (List.length xs) (List.length ns)); [|reflexivity].
  destruct (Nat.eqb (List.length ns) (List.length cs)); reflexivity.
Qed.

(** What [fetch_5day] does with the four arrays.  When they are not all
    of one length it raises the malformed-response [ValueError].  When
    they are, it returns one day record for each position of the arrays,
    as many as the arrays are long, the record at each position made from
    the four arrays at that position, in their order; the records are
    five when the arrays hold five entries. *)
Lemma fetch_5day_forecast (w : World) (lat lon : float)
  (ts xs ns cs : list json) :
  daily_arrays w lat lon ts xs ns cs ->
  (~ (List.length ts = List.length xs /\ List.length xs = List.length ns
      /\ List.length ns = List.length cs) ->
   fst (run (WeatherApp.fetch_5day w lat lon))
   = Raise (ValueError Forecast_arrays_unequal))
  /\ (List.length ts = List.length xs /\ List.length xs = List.length ns
      /\ List.length ns = List.length cs ->
      exists days,
        fst (run (WeatherApp.fetch_5day w lat lon)) = Ok days
        /\ List.length days = List.length ts
        /\ (List.length ts = 5 -> List.length days = 5)
        /\ forall i, i < List.length ts ->
                     day_at ts xs ns cs i <> None
                     /\ nth_error days i = day_at ts xs ns cs i).
Proof.
  intros D. rewrite (fetch_5day_run _ _ _ _ _ _ _ D). split.
  - intros H.
    destruct (Nat.eqb_spec (List.length ts) (List.length xs)); [|reflexivity].
    destruct (Nat.eqb_spec (List.length xs) (List.length ns)); [|reflexivity].
    destruct (Nat.eqb_spec (List.length ns) (List.length cs)); [|reflexivity].
    tauto.
  - intros (H1 & H2 & H3). exists (WeatherApp.zip_days ts xs ns cs).
    rewrite (proj2 (Nat.eqb_eq _ _) H1), (proj2 (Nat.eqb_eq _ _) H2),
      (proj2 (Nat.eqb_eq _ _) H3).
    split; [reflexivity|].
    assert (L := zip_days_length ts xs ns cs H1 H2 H3).
    split; [exact L|]. split; [congruence|].
    intros i Hi. now apply zip_days_nth.
Qed.

Lemma five_days_arrays :
  exists ts xs ns cs,
    daily_arrays (answering (Json five_days)) f90 f180 ts xs ns cs
    /\ List.length ts = 5 /\ List.length xs = 5 /\ List.length ns = 5
    /\ List.length cs = 5.
Proof.
  do 4 eexists. split.
  - exists 200%Z, five_days. eexists. repeat split; reflexivity.
  - repeat split; reflexivity.
Defined.

(** The forecast of five days. *)
Lemma fetch_5day_five_days :
  exists days,
    fst (run (WeatherApp.fetch_5day (answering (Json five_days)) f90 f180))
    = Ok days
    /\ List.length days = 5.
Proof.
  destruct five_days_arrays as (ts & xs & ns & cs & D & L1 & L2 & L3 & L4).
  destruct (proj2 (fetch_5day_forecast _ _ _ _ _ _ _ D)) as (days & E & N & F & _).
  - repeat split; congruence.
  - exists days. split; [exact E | exact (F L1)].
Defined.

(** C4.  The claim fails on the code: on a well-formed payload whose
    four arrays hold three days each, [fetch_5day] compares the lengths
    with each other only and returns three records, where its docstring
    ([A list of 5 dicts, one per day]) and the claim have exactly five. *)
Theorem fetch_5day_three_records :
  exists d1 d2 d3,
    run (WeatherApp.fetch_5day (answering (Json three_days)) f90 f180)
    = (Ok [d1; d2; d3], [Http_get (WeatherApp.daily_request f90 f180)])
    /\ WeatherApp.date d1 = JStr (lit "2024-05-01")
    /\ WeatherApp.date d2 = JStr (lit "2024-05-02")
    /\ WeatherApp.date d3 = JStr (lit "2024-05-03").
Proof.
  do 3 eexists. split; [vm_compute; reflexivity|].
  repeat split.
Qed.

(** ** The geocoding client *)

Lemma float_at_field location key :
  Geocode.float_at location key
  = match field location key with
    | Some v => py_float v
    | None => match location with JObj _ => Raise KeyError
                             | _ => Raise TypeError end
    end.
Proof.
  unfold Geocode.float_at, getitem, field.
  destruct location; try reflexivity. now destruct (assoc key items).
Qed.

(** On a value that is no number [float()] raises [TypeError] or
    [ValueError]. *)
Lemma non_numeric_raises v :
  non_numeric v ->
  exists e, py_float v = Raise e /\ is_Key_Type_ValueError e = true.
Proof.
  destruct v as [| |z|x|s|l|items]; cbn [non_numeric py_float];
    try contradiction; try (intros _; eexists; split; reflexivity).
  intros ->. eexists. split; reflexivity.
Qed.

Lemma float_at_numeric location key v x :
  field location key = Some v -> numeric v = Some x ->
  Geocode.float_at location key = Ok x.
Proof.
  intros F N. rewrite float_at_field, F. unfold numeric in N.
  destruct (py_float v); congruence.
Qed.

Lemma float_at_missing location key :
  field location key = None
  \/ (exists v, field location key = Some v /\ non_numeric v) ->
  exists e, Geocode.float_at location key = Raise e
            /\ is_Key_Type_ValueError e = true.
Proof.
  rewrite float_at_field. intros [F | (v & F & N)]; rewrite F.
  - destruct location; eexists; split; reflexivity.
  - exact (non_numeric_raises v N).
Qed.

(** The outcomes of [geocode]: the configuration error when the contact
    address is unset or empty; with an address, the connectivity error
    when the request fails in transport or with an error status; the
    not-found error on an answer that is the empty list; the
    malformed-response error on a list whose first result lacks [lat] or
    holds a [lat] that is no number, or has a numeric [lat] and lacks
    [lon] or holds a [lon] that is no number; the pair of the first
    result when both convert. *)
Lemma geocode_outcomes (w : World) (address : str) :
  ((GEOCODER_EMAIL w = None \/ GEOCODER_EMAIL w = Some []) ->
   fst (run (Geocode.geocode w address))
   = Raise (RuntimeError Missing_GEOCODER_EMAIL))
  /\ forall email,
      GEOCODER_EMAIL w = Some email -> email <> [] ->
      let rq := Geocode.search_request email address in
      ((upstream w rq = Unreachable
        \/ (exists st b, upstream w rq = Answered st b
                         /\ is_error_status st = true)) ->
       fst (run (Geocode.geocode w address))
       = Raise (ConnectionError Error_contacting_geocoding_service))
      /\ (forall st,
             upstream w rq = Answered st (Json (JArr [])) ->
             is_error_status st = false ->
             fst (run (Geocode.geocode w address))
             = Raise (ValueError (No_location_found address)))
      /\ (forall st location others,
             upstream w rq = Answered st (Json (JArr (location :: others))) ->
             is_error_status st = false ->
             ((field location (lit "lat") = None
               \/ (exists v, field location (lit "lat") = Some v
                             /\ non_numeric v)
               \/ ((exists v x, field location (lit "lat") = Some v
                                /\ numeric v = Some x)
                   /\ (field location (lit "lon") = None
                       \/ (exists v, field location (lit "lon") = Some v
                                     /\ non_numeric v)))) ->
              fst (run (Geocode.geocode w address))
              = Raise (ValueError Latitude_or_longitude_missing))
             /\ (forall v1 lat v2 lon,
                    field location (lit "lat") = Some v1 ->
                    numeric v1 = Some lat ->
                    field location (lit "lon") = Some v2 ->
                    numeric v2 = Some lon ->
                    fst (run (Geocode.geocode w address)) = Ok (lat, lon))).
Proof.
  split.
  - intros [E | E]; unfold Geocode.geocode; run_io; now rewrite E.
  - intros email E Hne rq.
    assert (G : forall t,
               Geocode.geocode w address t
               = (let (o, t') :=
                    try_except
                      (resp <- http_get w rq ;; raise_for_status resp ;;
                       ret resp)
                      is_RequestException
                      (fun _ => raise (ConnectionError
                                         Error_contacting_geocoding_service))
                      (t ++ [Geocode_called address]) in
                  match o with
                  | Ok resp =>
                      (data <- try_except (resp_json w resp) is_ValueError
                                 (fun _ => raise
                                    (ValueError
                                       Malformed_JSON_from_geocoding_service)) ;;
                       match data with
                       | JArr (location :: _) =>
                           try_except
                             (lat <- lift (Geocode.float_at location (lit "lat")) ;;
                              lon <- lift (Geocode.float_at location (lit "lon")) ;;
                              ret (lat, lon))
                             is_Key_Type_ValueError
                             (fun _ => raise (ValueError
                                                Latitude_or_longitude_missing))
                       | _ => raise (ValueError (No_location_found address))
                       end) t'
                  | Raise e => (Raise e, t')
                  end)).
    { intros t. unfold Geocode.geocode. rewrite E.
      destruct email as [|c email]; [congruence|]. reflexivity. }
    unfold run. rewrite G. clear G. split; [|split].
    + intros [U | (st & b & U & S)]; run_io; rewrite U; run_io;
        [reflexivity|]. now rewrite S.
    + intros st U S. run_io. rewrite U. run_io. now rewrite S.
    + intros st location others U S. split.
      * intros H. run_io. rewrite U. run_io. rewrite S. run_io.
        destruct H as [H | [H | ((v & x & F1 & N1) & H)]].
        -- destruct (float_at_missing location (lit "lat") (or_introl H))
             as (e & -> & C).
           now rewrite C.
        -- destruct (float_at_missing location (lit "lat") (or_intror H))
             as (e & -> & C).
           now rewrite C.
        -- rewrite (float_at_numeric _ _ _ _ F1 N1).
           destruct (float_at_missing location (lit "lon") H) as (e & -> & C).
           now rewrite C.
      * intros v1 lat v2 lon F1 N1 F2 N2. run_io. rewrite U. run_io.
        rewrite S. run_io.
        rewrite (float_at_numeric _ _ _ _ F1 N1), (float_at_numeric _ _ _ _ F2 N2).
        reflexivity.
Qed.

(** The first result of the answer for Dallas. *)
Example geocode_dallas :
  fst (run (Geocode.geocode (answering (Json dallas)) (lit "Dallas, TX")))
  = Ok (float_of_decimal false 327762719 (-7),
        float_of_decimal true 967968559 (-7)).
Proof. vm_compute. reflexivity. Qed.

(** C7.  The claim fails on the code for a latitude that is a number
    and does not convert: on a first result whose [lat] is the JSON
    integer [10^400], [float()] raises [OverflowError], which the clause
    [except (KeyError, TypeError, ValueError)] does not catch; [geocode]
    ends with that error, after its one request, where its docstring and
    the claim have the malformed-response [ValueError]. *)
Theorem geocode_overflow_escapes :
  run (Geocode.geocode (answering (Json huge_latitude)) (lit "Dallas, TX"))
  = (Raise OverflowError,
     [Geocode_called (lit "Dallas, TX");
      Http_get (Geocode.search_request (lit "ops@example.org")
                  (lit "Dallas, TX"))])
  /\ is_ValueError OverflowError = false.
Proof. split; vm_compute; reflexivity. Qed.

(** ** Reverse geocoding *)

Ltac settle :=
  repeat split; intros;
  repeat match goal with
         | H : Answered _ _ = Answered _ _ |- _ =>
             inversion H; subst; clear H
         | H : field _ _ = _ |- _ => progress cbn [field] in H
         end;
  try congruence; try discriminate; try reflexivity.

(** C8.  [reverse_geocode] raises nothing, whatever the upstream does:
    it returns a value after its one request.  The value is the
    [display_name] of the answer when the request succeeds and the answer
    is an object that has one; it is the text of the pair, the latitude
    and the longitude each written with four decimal places and
    separated by a comma and a space, when the request fails in transport
    or with an error status, when the body is not JSON, and when the
    answer has no [display_name]. *)
Theorem reverse_geocode_total (w : World) (lat lon : float) :
  exists v,
    run (Frontend.reverse_geocode w lat lon)
    = (Ok v, [Http_get (Frontend.reverse_request lat lon)])
    /\ (forall st display_name j,
           upstream w (Frontend.reverse_request lat lon)
           = Answered st (Json j) ->
           is_error_status st = false ->
           field j (lit "display_name") = Some display_name ->
           v = display_name)
    /\ (upstream w (Frontend.reverse_request lat lon) = Unreachable ->
        v = JStr (format_4f lat ++ lit ", " ++ format_4f lon))
    /\ (forall st b,
           upstream w (Frontend.reverse_request lat lon) = Answered st b ->
           is_error_status st = true ->
           v = JStr (format_4f lat ++ lit ", " ++ format_4f lon))
    /\ (forall st,
           upstream w (Frontend.reverse_request lat lon)
           = Answered st NotJson ->
           v = JStr (format_4f lat ++ lit ", " ++ format_4f lon))
    /\ (forall st j,
           upstream w (Frontend.reverse_request lat lon)
           = Answered st (Json j) ->
           field j (lit "display_name") = None ->
           v = JStr (format_4f lat ++ lit ", " ++ format_4f lon)).
Proof.
  change (JStr (format_4f lat ++ lit ", " ++ format_4f lon))
    with (JStr (Frontend.lat_lon_str lat lon)).
  set (rq := Frontend.reverse_request lat lon).
  set (fallback := JStr (Frontend.lat_lon_str lat lon)).
  unfold Frontend.reverse_geocode. fold rq. fold fallback.
  run_io. destruct (upstream w rq) as [|st b] eqn:U; run_io.
  { exists fallback. settle. }
  destruct (is_error_status st) eqn:S; run_io.
  { exists fallback. settle. }
  destruct b as [j|]; run_io.
  2:{ exists fallback. settle. }
  unfold dict_get.
  destruct j as [| | | | | |items]; try solve [exists fallback; settle].
  destruct (assoc (lit "display_name") items) as [dn|] eqn:A.
  - exists dn. settle.
  - exists fallback. settle.
Qed.

Lemma reverse_geocode_total_witness :
  run (Frontend.reverse_geocode offline f90 f180)
  = (Ok (JStr (lit "90.0000, 180.0000")),
     [Http_get (Frontend.reverse_request f90 f180)]).
Proof.
  destruct (reverse_geocode_total offline f90 f180) as (v & E & _ & U & _).
  rewrite E. specialize (U (eq_refl Unreachable)). rewrite U.
  vm_compute. reflexivity.
Defined.

(** ** The store *)

Import Models Schemas Db.

Ltac run_db :=
  cbv beta iota zeta
    delta [bind try_except ret raise lift record commit rollback refresh
           query_first Crud.get_location rolled_back committed];
  cbn [table next_id pending calls].

Lemma find_id_id i rows r : find_id i rows = Some r -> Location.id r = i.
Proof.
  induction rows as [|x rows IH]; simpl; [discriminate|].
  destruct (Z.eqb_spec (Location.id x) i) as [E|E]; [|exact IH].
  intros H. now inversion H; subst.
Qed.

Lemma find_id_last i rows r :
  find_id i rows = None -> Location.id r = i ->
  find_id i (rows ++ [r]) = Some r.
Proof.
  intros H E. induction rows as [|x rows IH]; simpl in *.
  - now rewrite E, Z.eqb_refl.
  - destruct (Location.id x =? i)%Z; [discriminate|]. now apply IH.
Qed.

Lemma find_id_replace i rows r r' :
  find_id i rows = Some r -> Location.id r' = i ->
  find_id i (replace_id i r' rows) = Some r'.
Proof.
  intros H E. induction rows as [|x rows IH]; simpl in *; [discriminate|].
  destruct (Location.id x =? i)%Z eqn:X; simpl.
  - now rewrite E, Z.eqb_refl.
  - rewrite X. now apply IH.
Qed.

Lemma replace_id_same i rows r :
  find_id i rows = Some r -> replace_id i r rows = rows.
Proof.
  induction rows as [|x rows IH]; simpl; [reflexivity|].
  destruct (Location.id x =? i)%Z.
  - intros H. now inversion H.
  - intros H. now rewrite IH.
Qed.

Lemma replace_id_twice i rows r1 r2 :
  Location.id r1 = i ->
  replace_id i r2 (replace_id i r1 rows) = replace_id i r2 rows.
Proof.
  intros E. induction rows as [|x rows IH]; simpl; [reflexivity|].
  destruct (Location.id x =? i)%Z eqn:X; simpl.
  - now rewrite E, Z.eqb_refl.
  - now rewrite X, IH.
Qed.

Lemma assign_keeps t a r r' :
  assign t a r = Ok r' ->
  Location.id r' = Location.id r
  /\ Location.created_at r' = Location.created_at r.
Proof.
  destruct a as [[v|]|[v|]|[v|]]; simpl; try discriminate.
  - destruct (str_eqb (Location.name r) v); intros H; inversion H; now subst.
  - destruct (SFeqb (Location.latitude r) v); intros H; inversion H;
      now subst.
  - destruct (SFeqb (Location.longitude r) v); intros H; inversion H;
      now subst.
Qed.

Lemma assign_raises t a r e :
  assign t a r = Raise e -> e = SQLAlchemyError IntegrityError.
Proof.
  destruct a as [[v|]|[v|]|[v|]]; simpl; try (intros H; now inversion H).
  - destruct (str_eqb (Location.name r) v); discriminate.
  - destruct (SFeqb (Location.latitude r) v); discriminate.
  - destruct (SFeqb (Location.longitude r) v); discriminate.
Qed.

Lemma assign_all_keeps t l :
  forall r r', assign_all t l r = Ok r' ->
               Location.id r' = Location.id r
               /\ Location.created_at r' = Location.created_at r.
Proof.
  induction l as [|a l IH]; simpl; intros r r' H.
  - inversion H. now subst.
  - destruct (assign t a r) as [r1|] eqn:A; [|discriminate].
    destruct (assign_keeps _ _ _ _ A) as [E1 E2].
    destruct (IH _ _ H) as [E3 E4]. split; congruence.
Qed.

Lemma assign_all_raises t l :
  forall r e, assign_all t l r = Raise e -> e = SQLAlchemyError IntegrityError.
Proof.
  induction l as [|a l IH]; simpl; intros r e H; [discriminate|].
  destruct (assign t a r) as [r1|e1] eqn:A.
  - exact (IH _ _ H).
  - inversion H; subst. exact (assign_raises _ _ _ _ A).
Qed.

Lemma flush_setattrs t next i l :
  forall rows r,
    find_id i rows = Some r ->
    flush t rows next (map (SetAttr i) l)
    = match assign_all t l r with
      | Ok r' => Ok (replace_id i r' rows, next, [])
      | Raise e => Raise e
      end.
Proof.
  induction l as [|a l IH]; intros rows r F; simpl.
  - now rewrite (replace_id_same _ _ _ F).
  - rewrite F. destruct (assign t a r) as [r1|e] eqn:A; [|reflexivity].
    assert (E : Location.id r1 = i).
    { destruct (assign_keeps _ _ _ _ A) as [E _]. rewrite E.
      exact (find_id_id _ _ _ F). }
    rewrite (IH _ r1 (find_id_replace _ _ _ _ F E)).
    destruct (assign_all t l r1); [|reflexivity].
    now rewrite (replace_id_twice _ rows _ a0 E).
Qed.

Lemma setattrs_run i l :
  forall s,
    Crud.setattrs i l s
    = (Ok tt, {| table := table s; next_id := next_id s;
                 pending := pending s ++ map (SetAttr i) l;
                 calls := calls s |}).
Proof.
  induction l as [|a l IH]; intros [tb nx pe ca]; simpl.
  - unfold ret. now rewrite app_nil_r.
  - unfold bind, record. rewrite IH. simpl. now rewrite <- app_assoc.
Qed.

(** *** The three writes, run on a session with nothing pending *)

Lemma create_location_run b loc s :
  pending s = [] -> next_id_unused s ->
  Crud.create_location b loc s
  = match commit_fault b with
    | Some d => (Raise (SQLAlchemyError d), rolled_back s)
    | None =>
        match refresh_fault b with
        | Some d =>
            (Raise (SQLAlchemyError d),
             {| table := table s ++ [new_row b s loc];
                next_id := next_id s + 1; pending := [];
                calls := (calls s ++ [Commit]) ++ [Rollback] |})
        | None =>
            (Ok (new_row b s loc),
             committed s (table s ++ [new_row b s loc]) (next_id s + 1))
        end
    end.
Proof.
  intros P U. unfold Crud.create_location. run_db. rewrite P. simpl app.
  destruct (commit_fault b) as [d|]; [reflexivity|].
  cbn [flush]. fold (new_row b s loc). cbn [last is_SQLAlchemyError].
  destruct (refresh_fault b) as [d|]; [reflexivity|].
  run_db. now rewrite (find_id_last _ _ (new_row b s loc) U eq_refl).
Qed.

Lemma update_location_run b i loc s r :
  pending s = [] -> query_fault b = None -> find_id i (table s) = Some r ->
  Crud.update_location b i loc s
  = match commit_fault b with
    | Some d => (Raise (SQLAlchemyError d), rolled_back s)
    | None =>
        match assign_all (now b) (Crud.update_data loc) r with
        | Raise e => (Raise e, rolled_back s)
        | Ok r' =>
            match refresh_fault b with
            | Some d =>
                (Raise (SQLAlchemyError d),
                 {| table := replace_id i r' (table s);
                    next_id := next_id s; pending := [];
                    calls := (calls s ++ [Commit]) ++ [Rollback] |})
            | None =>
                (Ok (Some r'),
                 committed s (replace_id i r' (table s)) (next_id s))
            end
        end
    end.
Proof.
  intros P Q F. unfold Crud.update_location. run_db. rewrite Q, F.
  rewrite setattrs_run. run_db. rewrite P. simpl app.
  destruct (commit_fault b) as [d|]; [reflexivity|].
  rewrite (flush_setattrs _ _ _ _ _ _ F).
  destruct (assign_all (now b) (Crud.update_data loc) r) as [r'|e] eqn:A.
  - destruct (refresh_fault b) as [d|]; [reflexivity|].
    assert (E : Location.id r' = i).
    { destruct (assign_all_keeps _ _ _ _ A) as [E _]. rewrite E.
      exact (find_id_id _ _ _ F). }
    run_db. now rewrite (find_id_replace _ _ _ _ F E).
  - now rewrite (assign_all_raises _ _ _ _ A).
Qed.

Lemma delete_location_run b i s r :
  pending s = [] -> query_fault b = None -> find_id i (table s) = Some r ->
  Crud.delete_location b i s
  = match commit_fault b with
    | Some d => (Raise (SQLAlchemyError d), rolled_back s)
    | None => (Ok (Some r), committed s (remove_id i (table s)) (next_id s))
    end.
Proof.
  intros P Q F. unfold Crud.delete_location. run_db. rewrite Q, F, P.
  simpl app. destruct (commit_fault b) as [d|]; reflexivity.
Qed.

Lemma absent_run b i s :
  query_fault b = None -> find_id i (table s) = None ->
  (forall loc, Crud.update_location b i loc s = (Ok None, s))
  /\ Crud.delete_location b i s = (Ok None, s)
  /\ Crud.get_location b i s = (Ok None, s).
Proof.
  intros Q F. unfold Crud.update_location, Crud.delete_location. run_db.
  rewrite Q, F. repeat split.
Qed.

Lemma str_eqb_eq a b : str_eqb a b = true -> a = b.
Proof.
  unfold str_eqb. destruct (list_eq_dec ascii_dec a b); [auto | discriminate].
Qed.

Lemma update_data_no_null t loc r :
  no_null loc -> exists r', assign_all t (Crud.update_data loc) r = Ok r'.
Proof.
  intros (N1 & N2 & N3). unfold Crud.update_data.
  destruct (LocationUpdate.name loc) as [| |v1]; [|congruence|];
    destruct (LocationUpdate.latitude loc) as [| |v2]; try congruence;
    destruct (LocationUpdate.longitude loc) as [| |v3]; try congruence;
    cbn [app assign_all assign];
    repeat match goal with
           | |- context [str_eqb ?a ?b] => destruct (str_eqb a b)
           | |- context [SFeqb ?a ?b] => destruct (SFeqb a b)
           | _ => progress cbn [assign_all assign Location.name
                                  Location.latitude Location.longitude]
           end;
    eexists; reflexivity.
Qed.

Lemma update_data_null t loc r :
  ~ no_null loc ->
  assign_all t (Crud.update_data loc) r = Raise (SQLAlchemyError IntegrityError).
Proof.
  intros N.
  destruct (assign_all t (Crud.update_data loc) r) as [r'|e] eqn:A.
  - exfalso. apply N. unfold Crud.update_data in A. unfold no_null.
    destruct (LocationUpdate.name loc) as [| |v1];
      destruct (LocationUpdate.latitude loc) as [| |v2];
      destruct (LocationUpdate.longitude loc) as [| |v3];
      try (repeat split; discriminate);
      exfalso; revert A; cbn [app assign_all assign];
      repeat match goal with
             | |- context [str_eqb ?a ?b] => destruct (str_eqb a b)
             | |- context [SFeqb ?a ?b] => destruct (SFeqb a b)
             | _ => progress cbn [assign_all assign Location.name
                                    Location.latitude Location.longitude]
             end;
      discriminate.
  - now rewrite (assign_all_raises _ _ _ _ A).
Qed.

(** What the three writes do.  On a session with nothing pending, each
    write (create, update, delete) calls [commit] once.  When the commit fails,
    or the table refuses the write, the operation calls [rollback],
    raises the same error again and leaves the table as it was.  When the
    commit succeeds the write is in the table whole, and nothing is
    rolled back.  When the commit succeeds and the refresh that follows
    it in create and update fails, the operation calls [rollback] and
    raises the error again, and the committed write stays in the table. *)
Lemma writes_commit_or_roll_back (b : Backend) (s : Session) :
  pending s = [] -> next_id_unused s -> query_fault b = None ->
  (forall d, commit_fault b = Some d ->
     (forall loc,
         Crud.create_location b loc s
         = (Raise (SQLAlchemyError d), rolled_back s))
     /\ (forall i loc r,
            find_id i (table s) = Some r ->
            Crud.update_location b i loc s
            = (Raise (SQLAlchemyError d), rolled_back s))
     /\ (forall i r,
            find_id i (table s) = Some r ->
            Crud.delete_location b i s
            = (Raise (SQLAlchemyError d), rolled_back s)))
  /\ (forall i loc r,
         commit_fault b = None -> find_id i (table s) = Some r ->
         ~ no_null loc ->
         Crud.update_location b i loc s
         = (Raise (SQLAlchemyError IntegrityError), rolled_back s))
  /\ (commit_fault b = None -> refresh_fault b = None ->
      (forall loc,
          Crud.create_location b loc s
          = (Ok (new_row b s loc),
             committed s (table s ++ [new_row b s loc]) (next_id s + 1)))
      /\ (forall i loc r,
             find_id i (table s) = Some r -> no_null loc ->
             exists r',
               Crud.update_location b i loc s
               = (Ok (Some r'),
                  committed s (replace_id i r' (table s)) (next_id s)))
      /\ (forall i r,
             find_id i (table s) = Some r ->
             Crud.delete_location b i s
             = (Ok (Some r),
                committed s (remove_id i (table s)) (next_id s))))
  /\ (forall d, commit_fault b = None -> refresh_fault b = Some d ->
      (forall loc,
          exists s',
            Crud.create_location b loc s = (Raise (SQLAlchemyError d), s')
            /\ calls s' = (calls s ++ [Commit]) ++ [Rollback]
            /\ pending s' = []
            /\ table s' = table s ++ [new_row b s loc])
      /\ (forall i loc r,
             find_id i (table s) = Some r -> no_null loc ->
             exists r' s',
               Crud.update_location b i loc s
               = (Raise (SQLAlchemyError d), s')
               /\ calls s' = (calls s ++ [Commit]) ++ [Rollback]
               /\ pending s' = []
               /\ table s' = replace_id i r' (table s))).
Proof.
  intros P U Q. split; [|split; [|split]].
  - intros d C. split; [|split].
    + intros loc. now rewrite (create_location_run b loc s P U), C.
    + intros i loc r F. now rewrite (update_location_run b i loc s r P Q F), C.
    + intros i r F. now rewrite (delete_location_run b i s r P Q F), C.
  - intros i loc r C F N.
    rewrite (update_location_run b i loc s r P Q F), C.
    now rewrite (update_data_null (now b) loc r N).
  - intros C R. split; [|split].
    + intros loc. now rewrite (create_location_run b loc s P U), C, R.
    + intros i loc r F N.
      destruct (update_data_no_null (now b) loc r N) as (r' & A).
      exists r'.
      now rewrite (update_location_run b i loc s r P Q F), C, A, R.
    + intros i r F. now rewrite (delete_location_run b i s r P Q F), C.
  - intros d C R. split.
    + intros loc. rewrite (create_location_run b loc s P U), C, R.
      eexists. split; [reflexivity|]. repeat split.
    + intros i loc r F N.
      destruct (update_data_no_null (now b) loc r N) as (r' & A).
      exists r'. rewrite (update_location_run b i loc s r P Q F), C, A, R.
      eexists. split; [reflexivity|]. repeat split.
Qed.

(** A creation on the empty store. *)
Lemma create_on_empty_store :
  Crud.create_location at_noon dallas_create empty_store
  = (Ok (new_row at_noon empty_store dallas_create),
     committed empty_store [new_row at_noon empty_store dallas_create] 2).
Proof.
  exact (proj1 (proj1 (proj2 (proj2
           (writes_commit_or_roll_back at_noon empty_store
              eq_refl eq_refl eq_refl))) eq_refl eq_refl) dallas_create).
Defined.

(** C9.  The claim fails on the code: [create_location] has
    [db.refresh] in the [try] block of [db.commit].  When the commit
    succeeds and the refresh fails, the function calls [rollback] and
    raises the failure again, as it does for a failed commit, but the
    transaction is committed already: the new row is in the table.  The
    claim, and the docstring ([SQLAlchemyError: If the database commit
    fails]), have the store unchanged whenever the failure is raised. *)
Theorem create_location_refresh_failure :
  Crud.create_location refresh_fails dallas_create empty_store
  = (Raise (SQLAlchemyError OperationalError),
     {| table := [{| Location.id := 1%Z; Location.name := lit "Dallas, TX";
                     Location.latitude := float_of_decimal false 327767 (-4);
                     Location.longitude := float_of_decimal true 967970 (-4);
                     Location.created_at := 1200%Z;
                     Location.updated_at := 1200%Z |}];
        next_id := 2%Z; pending := []; calls := [Commit; Rollback] |})
  /\ table empty_store = [].
Proof. split; reflexivity. Qed.

(** What the assignments of a request without [null] make of a row. *)
Lemma update_data_spec t loc r :
  no_null loc ->
  exists r',
    assign_all t (Crud.update_data loc) r = Ok r'
    /\ match LocationUpdate.name loc with
       | Value v => Location.name r' = v
       | _ => Location.name r' = Location.name r
       end
    /\ match LocationUpdate.latitude loc with
       | Value v => stores (Location.latitude r') v
       | _ => Location.latitude r' = Location.latitude r
       end
    /\ match LocationUpdate.longitude loc with
       | Value v => stores (Location.longitude r') v
       | _ => Location.longitude r' = Location.longitude r
       end
    /\ (if changes loc r then Location.updated_at r' = t else r' = r).
Proof.
  intros (N1 & N2 & N3). unfold Crud.update_data, changes, stores.
  destruct (LocationUpdate.name loc) as [| |v1]; [|congruence|];
    destruct (LocationUpdate.latitude loc) as [| |v2]; try congruence;
    destruct (LocationUpdate.longitude loc) as [| |v3]; try congruence;
    cbn [app assign_all assign];
    repeat match goal with
           | |- context [str_eqb ?a ?b] => destruct (str_eqb a b) eqn:?
           | |- context [SFeqb ?a ?b] => destruct (SFeqb a b) eqn:?
           | _ => progress cbn [assign_all assign Location.name
                                  Location.latitude Location.longitude]
           end;
    eexists; (split; [reflexivity|]);
    cbn [negb orb Location.name Location.latitude Location.longitude
         Location.updated_at];
    repeat split; auto using str_eqb_eq.
Qed.

(** The update and the creation on a healthy database. *)
Lemma update_replaces_supplied_fields_aux (b : Backend) (s : Session) :
  pending s = [] -> healthy b ->
  (forall i loc r,
      find_id i (table s) = Some r -> no_null loc ->
      exists r',
        Crud.update_location b i loc s
        = (Ok (Some r'), committed s (replace_id i r' (table s)) (next_id s))
        /\ Location.id r' = Location.id r
        /\ Location.created_at r' = Location.created_at r
        /\ match LocationUpdate.name loc with
           | Value v => Location.name r' = v
           | _ => Location.name r' = Location.name r
           end
        /\ match LocationUpdate.latitude loc with
           | Value v => stores (Location.latitude r') v
           | _ => Location.latitude r' = Location.latitude r
           end
        /\ match LocationUpdate.longitude loc with
           | Value v => stores (Location.longitude r') v
           | _ => Location.longitude r' = Location.longitude r
           end
        /\ (if changes loc r then Location.updated_at r' = now b
            else r' = r))
  /\ (next_id_unused s ->
      forall loc,
        exists r s',
          Crud.create_location b loc s = (Ok r, s')
          /\ Location.name r = LocationCreate.name loc
          /\ Location.latitude r = LocationCreate.latitude loc
          /\ Location.longitude r = LocationCreate.longitude loc
          /\ Location.created_at r = Location.updated_at r
          /\ Crud.get_location b (Location.id r) s' = (Ok (Some r), s')).
Proof.
  intros P (Q & C & R). split.
  - intros i loc r F N.
    destruct (update_data_spec (now b) loc r N) as (r' & A & Hn & Hla & Hlo & Hu).
    exists r'. rewrite (update_location_run b i loc s r P Q F), C, A, R.
    destruct (assign_all_keeps _ _ _ _ A) as [E1 E2].
    repeat split; assumption.
  - intros U loc. exists (new_row b s loc). eexists.
    rewrite (create_location_run b loc s P U), C, R.
    split; [reflexivity|]. repeat split.
    unfold Crud.get_location, query_first. rewrite Q.
    change (Location.id (new_row b s loc)) with (next_id s).
    unfold committed. cbn [table].
    now rewrite (find_id_last _ _ (new_row b s loc) U eq_refl).
Qed.

(** C10, as amended.  An update of an existing location whose request
    holds no [null] replaces the fields the request supplies and no
    others: a supplied name is stored; a supplied latitude or longitude
    is stored, or an equal number is left in place; the fields left out,
    the id and [created_at] keep their values; [updated_at] becomes the
    time of the update when a supplied value differs from the stored
    one, and the row stays as it was, [updated_at] included, otherwise.
    A request that holds a [null] fails with the integrity error and
    changes nothing.  A location just created has [created_at] equal to
    [updated_at], holds the name, latitude and longitude of the request,
    and is read back by its id. *)
Theorem update_replaces_supplied_fields (b : Backend) (s : Session) :
  pending s = [] -> healthy b ->
  (forall i loc r,
      find_id i (table s) = Some r -> no_null loc ->
      exists r',
        Crud.update_location b i loc s
        = (Ok (Some r'), committed s (replace_id i r' (table s)) (next_id s))
        /\ Location.id r' = Location.id r
        /\ Location.created_at r' = Location.created_at r
        /\ match LocationUpdate.name loc with
           | Value v => Location.name r' = v
           | _ => Location.name r' = Location.name r
           end
        /\ match LocationUpdate.latitude loc with
           | Value v => stores (Location.latitude r') v
           | _ => Location.latitude r' = Location.latitude r
           end
        /\ match LocationUpdate.longitude loc with
           | Value v => stores (Location.longitude r') v
           | _ => Location.longitude r' = Location.longitude r
           end
        /\ (if changes loc r then Location.updated_at r' = now b
            else r' = r))
  /\ (forall i loc r,
         find_id i (table s) = Some r -> ~ no_null loc ->
         Crud.update_location b i loc s
         = (Raise (SQLAlchemyError IntegrityError), rolled_back s))
  /\ (next_id_unused s ->
      forall loc,
        exists r s',
          Crud.create_location b loc s = (Ok r, s')
          /\ Location.name r = LocationCreate.name loc
          /\ Location.latitude r = LocationCreate.latitude loc
          /\ Location.longitude r = LocationCreate.longitude loc
          /\ Location.created_at r = Location.updated_at r
          /\ Crud.get_location b (Location.id r) s' = (Ok (Some r), s')).
Proof.
  intros P H.
  destruct (update_replaces_supplied_fields_aux b s P H) as (U & C).
  split; [exact U|]. split; [|exact C].
  intros i loc r F N. destruct H as (Q & Cf & R).
  rewrite (update_location_run b i loc s r P Q F), Cf.
  now rewrite (update_data_null (now b) loc r N).
Qed.

Lemma healthy_at_noon : healthy at_noon.
Proof. repeat split. Defined.

Lemma update_replaces_supplied_fields_witness :
  exists r',
    Crud.update_location at_noon 1 rename_only one_row
    = (Ok (Some r'), committed one_row (replace_id 1 r' (table one_row)) 2)
    /\ Location.name r' = lit "Big D"
    /\ Location.latitude r' = Location.latitude dallas_row
    /\ Location.created_at r' = 900%Z
    /\ Location.updated_at r' = 1200%Z.
Proof.
  destruct (proj1 (update_replaces_supplied_fields at_noon one_row eq_refl
                     healthy_at_noon) 1%Z rename_only dallas_row eq_refl)
    as (r' & E & _ & Hc & Hn & Hla & _ & Hu).
  - repeat split; discriminate.
  - exists r'. repeat split; assumption.
Defined.

(** C10, as stated, fails: an update that sends the stored name again
    succeeds and returns the row with the [updated_at] it had, 900, at
    a time when the clock shows 1200. *)
Lemma resent_name_keeps_updated_at :
  ~ (forall (b : Backend) (s s' : Session) (i : Z) (loc : LocationUpdate.t)
       (r r' : Location.t),
        pending s = [] -> healthy b -> find_id i (table s) = Some r ->
        Crud.update_location b i loc s = (Ok (Some r'), s') ->
        Location.updated_at r' = now b).
Proof.
  intros H.
  specialize (H at_noon one_row _ 1%Z same_name dallas_row _ eq_refl
                healthy_at_noon eq_refl eq_refl).
  discriminate H.
Qed.

(** ** Where coordinates are checked *)

Lemma create_loc_run b loc s :
  pending s = [] -> next_id_unused s -> healthy b ->
  Api.create_loc b loc s
  = (Ok (new_row b s loc),
     committed s (table s ++ [new_row b s loc]) (next_id s + 1)).
Proof.
  intros P U (Q & C & R). unfold Api.create_loc.
  now rewrite (create_location_run b loc s P U), C, R.
Qed.

(** C6, as amended.  On a coordinate literal the [parse_input] of the
    service layer returns the two numbers that the literal writes, as
    they are, when the magnitude of the latitude is at most 90 and that
    of the longitude at most 180, and raises the out-of-range error
    otherwise: a literal out of range is rejected, never clamped, and a
    pair returned from a literal is within the bounds.  The latitude and
    the longitude of a request to create a location are not checked: the
    row is stored with the numbers of the request, whatever they are, and
    an update stores a supplied latitude or longitude in the same way. *)
Theorem coordinates_checked_in_parse_input :
  (forall (w : World) (s g1 g3 : str) (lat lon : float),
      coordinates is_sign s g1 lat g3 lon ->
      run (Api.parse_input w s)
      = (if SFleb (SFabs lat) f90 && SFleb (SFabs lon) f180
         then Ok (lat, lon)
         else Raise (ValueError (Coordinates_out_of_range lat lon)), []))
  /\ (forall (w : World) (s : str) (lat lon : float) (t : list event),
         re_match COORD_RE s <> None ->
         run (Api.parse_input w s) = (Ok (lat, lon), t) ->
         SFleb (SFabs lat) f90 = true /\ SFleb (SFabs lon) f180 = true)
  /\ (forall (b : Backend) (s : Session) (loc : LocationCreate.t),
         pending s = [] -> next_id_unused s -> healthy b ->
         exists r s',
           Api.create_loc b loc s = (Ok r, s')
           /\ In r (table s')
           /\ Location.latitude r = LocationCreate.latitude loc
           /\ Location.longitude r = LocationCreate.longitude loc)
  /\ (forall (b : Backend) (s : Session) (i : Z) (r : Location.t)
        (loc : LocationUpdate.t) (la lo : float),
         pending s = [] -> healthy b -> find_id i (table s) = Some r ->
         LocationUpdate.name loc <> Null ->
         LocationUpdate.latitude loc = Value la ->
         LocationUpdate.longitude loc = Value lo ->
         exists r' s',
           Api.update_loc b i loc s = (Ok r', s')
           /\ stores (Location.latitude r') la
           /\ stores (Location.longitude r') lo).
Proof.
  split; [|split; [|split]].
  - intros w s g1 g3 lat lon C.
    destruct (pair_takes _ sign_not_digit sign_not_space _ _ _ _ _ C)
      as (m & Hm & G1 & G3).
    destruct C as (_ & N1 & N3).
    rewrite <- in_range_abs.
    exact (run_literal_api w s _ _ _ _ _ Hm G1 G3 (float_of_number _ _ N1)
             (float_of_number _ _ N3)).
  - intros w s lat lon t M. unfold Api.parse_input.
    destruct (re_match COORD_RE s) as [m|]; [clear M|congruence].
    unfold run. run_io.
    destruct (float_of_group (group 1 m)) as [x|]; [|discriminate].
    destruct (float_of_group (group 3 m)) as [y|]; [|discriminate].
    destruct (Api.in_range x y) eqn:R; simpl; [|discriminate].
    intros H. inversion H; subst. rewrite in_range_abs in R.
    now apply andb_true_iff in R.
  - intros b s loc P U H. exists (new_row b s loc). eexists.
    rewrite (create_loc_run b loc s P U H). split; [reflexivity|].
    repeat split. unfold committed. cbn [table]. apply in_or_app. right.
    now left.
  - intros b s i r loc la lo P H F N La Lo.
    assert (NN : no_null loc).
    { repeat split; [assumption | rewrite La | rewrite Lo]; discriminate. }
    destruct (proj1 (update_replaces_supplied_fields_aux b s P H) i loc r F NN)
      as (r' & E & _ & _ & _ & Hla & Hlo & _).
    rewrite La in Hla. rewrite Lo in Hlo.
    exists r'. eexists. unfold Api.update_loc, bind. rewrite E.
    split; [reflexivity|]. split; assumption.
Qed.

Lemma coordinates_checked_in_parse_input_witness :
  run (Api.parse_input offline (lit "91,0"))
  = (Raise (ValueError (Coordinates_out_of_range
                          (float_of_decimal false 91 0)
                          (float_of_decimal false 0 0))), [])
  /\ SFleb (SFabs (float_of_decimal false 327767 (-4))) f90 = true
  /\ SFleb (SFabs (float_of_decimal true 967970 (-4))) f180 = true.
Proof.
  split.
  - exact (proj1 coordinates_checked_in_parse_input offline _ _ _ _ _
             coordinates_91_0).
  - apply (proj1 (proj2 coordinates_checked_in_parse_input) offline
             (lit "32.7767,-96.7970") _ _ []).
    + vm_compute. discriminate.
    + vm_compute. reflexivity.
Defined.

(** C6, as stated, fails: a request to create a location at latitude 500
    is accepted and the row is stored with that latitude, which is
    beyond 90. *)
Lemma out_of_range_location_is_created :
  ~ (forall (b : Backend) (s s' : Session) (loc : LocationCreate.t)
       (r : Location.t),
        Api.create_loc b loc s = (Ok r, s') ->
        SFleb (SFabs (Location.latitude r)) f90 = true
        /\ SFleb (SFabs (Location.longitude r)) f180 = true).
Proof.
  intros H.
  destruct (H at_noon empty_store _ latitude_500 _ eq_refl) as (H1 & _).
  vm_compute in H1. discriminate H1.
Qed.

(** ** The status of an answer *)

(** C5, as amended.  The weather endpoints answer 400 when [parse_input]
    raises a [ValueError] (a literal out of range, and also a geocoding
    lookup that finds nothing or reads a malformed answer), 502 when the
    weather client raises its connectivity error, and 200 when both
    succeed.  The location endpoints answer 404 when the id is not in the
    table and 200 when it is; the listing answers 200; the creation
    answers 201. *)
Theorem status_mapping :
  (forall (w : World) (loc : str) (e : exn) (t : list event),
      run (Api.parse_input w loc) = (Raise e, t) ->
      is_ValueError e = true ->
      Api.GET_weather w loc = Some 400%Z
      /\ Api.GET_forecast w loc = Some 400%Z)
  /\ (forall (w : World) (loc : str) (lat lon : float) (t : list event),
         run (Api.parse_input w loc) = (Ok (lat, lon), t) ->
         (forall e t',
             WeatherApp.fetch_current w lat lon t = (Raise e, t') ->
             is_ConnectionError e = true ->
             Api.GET_weather w loc = Some 502%Z)
         /\ (forall e t',
                WeatherApp.fetch_5day w lat lon t = (Raise e, t') ->
                is_ConnectionError e = true ->
                Api.GET_forecast w loc = Some 502%Z)
         /\ (forall d t',
                WeatherApp.fetch_current w lat lon t = (Ok d, t') ->
                Api.GET_weather w loc = Some 200%Z)
         /\ (forall d t',
                WeatherApp.fetch_5day w lat lon t = (Ok d, t') ->
                Api.GET_forecast w loc = Some 200%Z))
  /\ (forall (b : Backend) (s : Session) (i : Z),
         query_fault b = None -> find_id i (table s) = None ->
         Api.GET_location b i s = Some 404%Z
         /\ (forall loc, Api.PUT_location b i loc s = Some 404%Z)
         /\ Api.DELETE_location b i s = Some 404%Z)
  /\ (forall (b : Backend) (s : Session) (i : Z) (r : Location.t),
         pending s = [] -> healthy b -> find_id i (table s) = Some r ->
         Api.GET_location b i s = Some 200%Z
         /\ (forall loc,
                no_null loc -> Api.PUT_location b i loc s = Some 200%Z)
         /\ Api.DELETE_location b i s = Some 200%Z)
  /\ (forall (b : Backend) (s : Session) (skip limit : nat),
         query_fault b = None ->
         Api.GET_locations b skip limit s = Some 200%Z)
  /\ (forall (b : Backend) (s : Session) (loc : LocationCreate.t),
         pending s = [] -> next_id_unused s -> healthy b ->
         Api.POST_locations b loc s = Some 201%Z).
Proof.
  unfold Api.GET_weather, Api.GET_forecast, Api.GET_location,
    Api.PUT_location, Api.DELETE_location, Api.GET_locations,
    Api.POST_locations.
  split; [|split; [|split; [|split; [|split]]]].
  - intros w loc e t P V. unfold Api.current, Api.forecast, run in *.
    run_io. rewrite P, V. split; reflexivity.
  - intros w loc lat lon t P. unfold Api.current, Api.forecast, run in *.
    repeat split; intros x t' F; try intros C; run_io; rewrite P;
      cbn [fst snd]; rewrite F; try rewrite C; reflexivity.
  - intros b s i Q F. destruct (absent_run b i s Q F) as (U & D & G).
    unfold Api.read_location, Api.update_loc, Api.delete_loc, bind.
    rewrite G, D. repeat split. intros loc. now rewrite U.
  - intros b s i r P (Q & C & R) F.
    unfold Api.read_location, Api.update_loc, Api.delete_loc, bind.
    split; [|split].
    + unfold Crud.get_location, query_first. now rewrite Q, F.
    + intros loc N.
      destruct (update_data_no_null (now b) loc r N) as (r' & A).
      now rewrite (update_location_run b i loc s r P Q F), C, A, R.
    + now rewrite (delete_location_run b i s r P Q F), C.
  - intros b s skip limit Q.
    unfold Api.read_locations, Crud.get_locations, query_page.
    now rewrite Q.
  - intros b s loc P U H. now rewrite (create_loc_run b loc s P U H).
Qed.

Lemma status_mapping_witness :
  Api.GET_weather (answering (Json (JArr []))) (lit "Atlantis")
  = Some 400%Z
  /\ Api.POST_locations at_noon dallas_create empty_store = Some 201%Z.
Proof.
  split.
  - refine (proj1 (proj1 status_mapping (answering (Json (JArr [])))
                     (lit "Atlantis")
                     (ValueError (No_location_found (lit "Atlantis"))) _ _ _)).
    + vm_compute. reflexivity.
    + reflexivity.
  - apply (proj2 (proj2 (proj2 (proj2 (proj2 status_mapping))))).
    + reflexivity.
    + reflexivity.
    + exact healthy_at_noon.
Defined.

(** C5, as stated, fails: when the geocoding client finds no location
    for the address of a weather request, the answer is 400, not the 404
    of a not-found outcome. *)
Lemma geocoding_not_found_answers_400 :
  ~ (forall (w : World) (loc : str) (t : list event),
        run (Geocode.geocode w loc)
        = (Raise (ValueError (No_location_found loc)), t) ->
        status_of Api.HTTP_200_OK (fst (run (Api.current w loc)))
        = Some Api.HTTP_404_NOT_FOUND).
Proof.
  intros H.
  specialize (H (answering (Json (JArr []))) (lit "Atlantis") _ eq_refl).
  vm_compute in H. discriminate H.
Qed.

(** * Further properties

    ** The parser on every input *)

Lemma all_impl (p q : ascii -> bool) (s : str) :
  (forall c, p c = true -> q c = true) -> all p s -> all q s.
Proof. intros H. apply Forall_impl. exact H. Qed.

Lemma digit_is_coordinate_char c :
  is_digit c = true -> coordinate_char c = true.
Proof. unfold coordinate_char. now intros ->. Qed.

Lemma space_is_coordinate_char c :
  is_space c = true -> coordinate_char c = true.
Proof.
  unfold coordinate_char. intros ->.
  now rewrite orb_true_r.
Qed.

Lemma sign_is_coordinate_char c :
  is_sign c = true -> coordinate_char c = true.
Proof.
  unfold coordinate_char. intros ->. now rewrite orb_true_r.
Qed.

Lemma number_chars g v : number is_sign g v -> all coordinate_char g.
Proof.
  intros [sgn neg ds ft fs Hs [_ Hd] Hf].
  apply all_app; [|apply all_app].
  - destruct Hs as [|c Hc]; [constructor|].
    constructor; [now apply sign_is_coordinate_char | constructor].
  - exact (all_impl _ _ _ digit_is_coordinate_char Hd).
  - destruct Hf as [|fs [_ Hfs]]; [constructor|].
    constructor; [reflexivity|].
    exact (all_impl _ _ _ digit_is_coordinate_char Hfs).
Qed.

Lemma coordinates_chars s g1 lat g3 lon :
  coordinates is_sign s g1 lat g3 lon -> all coordinate_char s.
Proof.
  intros ((w1 & w2 & w3 & w4 & -> & H1 & H2 & H3 & H4) & N1 & N3).
  assert (Sp : forall ws, all is_space ws -> all coordinate_char ws).
  { intros ws. apply all_impl. exact space_is_coordinate_char. }
  apply all_app; [now apply Sp|].
  apply all_app; [exact (number_chars _ _ N1)|].
  apply all_app; [now apply Sp|].
  constructor; [reflexivity|].
  apply all_app; [now apply Sp|].
  apply all_app; [exact (number_chars _ _ N3)|now apply Sp].
Qed.

(** X1.  The pattern of [parse_input] matches exactly the strings of the
    coordinate shape: white space, a number, white space, a comma, white
    space, a number, white space, each number an optional [+] or [-],
    digits and an optional fraction.  On a match groups 1 and 3 are the
    texts of the two numbers. *)
Theorem coord_re_reads_coordinates (s : str) :
  (forall m,
      re_match COORD_RE s = Some m ->
      exists g1 lat g3 lon,
        coordinates is_sign s g1 lat g3 lon
        /\ group 1 m = Some g1 /\ group 3 m = Some g3)
  /\ (forall g1 lat g3 lon,
         coordinates is_sign s g1 lat g3 lon ->
         exists m,
           re_match COORD_RE s = Some m
           /\ group 1 m = Some g1 /\ group 3 m = Some g3).
Proof.
  split.
  - intros m. apply (pair_inv _ s m).
  - intros g1 lat g3 lon.
    apply (pair_takes _ sign_not_digit sign_not_space s g1 lat g3 lon).
Qed.

Lemma coord_re_reads_coordinates_witness :
  exists g1 lat g3 lon,
    coordinates is_sign (lit " +32.7767 , -96.7970 ") g1 lat g3 lon.
Proof.
  destruct (re_match COORD_RE (lit " +32.7767 , -96.7970 ")) as [m|] eqn:E;
    [|vm_compute in E; discriminate].
  destruct (proj1 (coord_re_reads_coordinates _) m E)
    as (g1 & lat & g3 & lon & C & _).
  now exists g1, lat, g3, lon.
Defined.

(** X2.  An input that holds a character other than a digit, a sign,
    white space, a point or a comma is never read as coordinates: both
    parsers hand it to their geocoder, and return or raise what the
    geocoder does. *)
Theorem other_characters_are_geocoded (w : World) (s : str) (c : ascii) :
  In c s -> coordinate_char c = false ->
  run (Api.parse_input w s) = run (Geocode.geocode w s)
  /\ run (Frontend.parse_input w s) = run (Frontend.geocode w s).
Proof.
  intros Hin Hc.
  assert (E : re_match COORD_RE s = None).
  { destruct (re_match COORD_RE s) as [m|] eqn:E; [|reflexivity].
    destruct (pair_inv _ s m E) as (g1 & lat & g3 & lon & C & _).
    pose proof (coordinates_chars _ _ _ _ _ C) as A.
    unfold all in A. rewrite Forall_forall in A.
    rewrite (A c Hin) in Hc. discriminate. }
  unfold Api.parse_input, Frontend.parse_input. now rewrite E.
Qed.

Lemma other_characters_are_geocoded_witness :
  run (Api.parse_input offline (lit "32.7767;-96.7970"))
  = run (Geocode.geocode offline (lit "32.7767;-96.7970"))
  /\ run (Frontend.parse_input offline (lit "32.7767;-96.7970"))
     = run (Frontend.geocode offline (lit "32.7767;-96.7970")).
Proof.
  apply (other_characters_are_geocoded offline (lit "32.7767;-96.7970")
           ";"%char).
  - vm_compute. tauto.
  - reflexivity.
Defined.

Lemma pair_text_pad (a b s g1 g3 : str) :
  all is_space a -> all is_space b -> pair_text s g1 g3 ->
  pair_text (a ++ s ++ b) g1 g3.
Proof.
  intros Ha Hb (w1 & w2 & w3 & w4 & -> & H1 & H2 & H3 & H4).
  exists (a ++ w1), w2, w3, (w4 ++ b).
  repeat split; auto using all_app.
  rewrite <- !app_assoc. simpl. now rewrite <- !app_assoc.
Qed.

(** X3.  White space before and after a coordinate string changes
    nothing: both parsers give the padded string the result they give the
    string itself. *)
Theorem parse_input_ignores_outer_space (w : World) (s a b : str) :
  re_match COORD_RE s <> None -> all is_space a -> all is_space b ->
  run (Api.parse_input w (a ++ s ++ b)) = run (Api.parse_input w s)
  /\ run (Frontend.parse_input w (a ++ s ++ b))
     = run (Frontend.parse_input w s).
Proof.
  intros Hm Ha Hb.
  destruct (re_match COORD_RE s) as [m|] eqn:E; [clear Hm|congruence].
  destruct (pair_inv _ s m E) as (g1 & lat & g3 & lon & C & G1 & G3).
  assert (C' : coordinates is_sign (a ++ s ++ b) g1 lat g3 lon).
  { destruct C as (P & N1 & N3). split; [|split]; auto.
    now apply pair_text_pad. }
  destruct (pair_takes _ sign_not_digit sign_not_space _ _ _ _ _ C')
    as (m' & E' & G1' & G3').
  destruct C as (_ & N1 & N3).
  pose proof (float_of_number _ _ N1) as F1.
  pose proof (float_of_number _ _ N3) as F3.
  rewrite (run_literal_api w _ _ _ _ _ _ E' G1' G3' F1 F3).
  rewrite (run_literal_api w _ _ _ _ _ _ E G1 G3 F1 F3).
  rewrite (run_literal_frontend w _ _ _ _ _ _ E' G1' G3' F1 F3).
  rewrite (run_literal_frontend w _ _ _ _ _ _ E G1 G3 F1 F3).
  split; reflexivity.
Qed.

Lemma parse_input_ignores_outer_space_witness :
  run (Api.parse_input offline
         ([" "%char] ++ lit "32.7767,-96.7970" ++ [newline; " "%char]))
  = run (Api.parse_input offline (lit "32.7767,-96.7970"))
  /\ run (Frontend.parse_input offline
            ([" "%char] ++ lit "32.7767,-96.7970" ++ [newline; " "%char]))
     = run (Frontend.parse_input offline (lit "32.7767,-96.7970")).
Proof.
  apply (parse_input_ignores_outer_space offline (lit "32.7767,-96.7970")).
  - vm_compute. discriminate.
  - repeat constructor.
  - repeat constructor.
Defined.

(** ** The bounds of the range check *)

(** X4.  The range check of the service parser is inclusive: the pair
    of a coordinate string is returned, with no call to a collaborator,
    exactly when the magnitude of the latitude is at most 90 and that of
    the longitude at most 180. *)
Theorem parse_input_in_range (w : World) (s g1 g3 : str) (lat lon : float) :
  coordinates is_sign s g1 lat g3 lon ->
  run (Api.parse_input w s) = (Ok (lat, lon), [])
  <-> SFleb (SFabs lat) f90 = true /\ SFleb (SFabs lon) f180 = true.
Proof.
  intros C.
  destruct (pair_takes _ sign_not_digit sign_not_space _ _ _ _ _ C)
    as (m & Hm & G1 & G3).
  destruct C as (_ & N1 & N3).
  rewrite (run_literal_api w s _ _ _ _ _ Hm G1 G3 (float_of_number _ _ N1)
             (float_of_number _ _ N3)).
  rewrite in_range_abs, <- andb_true_iff.
  destruct (SFleb (SFabs lat) f90 && SFleb (SFabs lon) f180);
    split; intros H; try reflexivity; discriminate.
Qed.

Lemma coordinates_90_180 :
  coordinates is_sign (lit "90,180") (lit "90")
    (float_of_decimal false 90 0) (lit "180") (float_of_decimal false 180 0).
Proof.
  split; [|split].
  - exists [], [], [], []. repeat split; constructor.
  - apply (number_plain is_sign (lit "90")).
    split; [discriminate | repeat constructor].
  - apply (number_plain is_sign (lit "180")).
    split; [discriminate | repeat constructor].
Defined.

Lemma parse_input_in_range_witness :
  run (Api.parse_input offline (lit "90,180"))
  = (Ok (float_of_decimal false 90 0, float_of_decimal false 180 0), []).
Proof.
  apply (proj2 (parse_input_in_range offline _ _ _ _ _ coordinates_90_180)).
  split; vm_compute; reflexivity.
Defined.

(** ** The four-decimal text of a number, read back *)

Lemma digits_val_fold ds : digits_val ds = fold_left step ds 0%N.
Proof. reflexivity. Qed.

Lemma digits_val_app a b :
  digits_val (a ++ b) = fold_left step b (digits_val a).
Proof. unfold digits_val. apply fold_left_app. Qed.

Lemma of_uint_acc_fold d :
  forall acc,
    N.pos (Pos.of_uint_acc d acc) = fold_left step (uint_chars d) (N.pos acc).
Proof.
  induction d; intros acc; [reflexivity| ..];
    cbn [Pos.of_uint_acc uint_chars NilEmpty.string_of_uint
         list_ascii_of_string fold_left];
    fold (uint_chars d); rewrite IHd; f_equal; unfold step;
    match goal with
    | |- context [digit_val ?c] =>
        let v := eval vm_compute in (digit_val c) in
        change (digit_val c) with v
    end; lia.
Qed.

Lemma of_uint_fold d : Pos.of_uint d = fold_left step (uint_chars d) 0%N.
Proof.
  induction d; [reflexivity| ..];
    cbn [Pos.of_uint uint_chars NilEmpty.string_of_uint
         list_ascii_of_string fold_left];
    fold (uint_chars d);
    [exact IHd | rewrite of_uint_acc_fold; reflexivity ..].
Qed.

Lemma uint_chars_digits d : all is_digit (uint_chars d).
Proof.
  induction d; [constructor| ..]; constructor; auto.
Qed.

Lemma dec_str_digits n : digits (dec_str n).
Proof.
  unfold dec_str, NilZero.string_of_uint.
  destruct (N.to_uint n) eqn:E;
    (split; [discriminate|]);
    try exact (uint_chars_digits (N.to_uint n));
    try (rewrite <- E; exact (uint_chars_digits (N.to_uint n))).
  repeat constructor.
Qed.

Lemma dec_str_val n : digits_val (dec_str n) = n.
Proof.
  rewrite <- (DecimalN.Unsigned.of_to n) at 2.
  unfold dec_str, NilZero.string_of_uint, N.of_uint.
  rewrite of_uint_fold, digits_val_fold.
  destruct (N.to_uint n); reflexivity.
Qed.

Lemma dec_digit_code k : code (dec_digit k) = (48 + k mod 10)%N.
Proof.
  unfold code, dec_digit. apply N_ascii_embedding.
  pose proof (N.mod_upper_bound k 10). lia.
Qed.

Lemma dec_digit_is_digit k : is_digit (dec_digit k) = true.
Proof.
  unfold is_digit. rewrite dec_digit_code.
  pose proof (N.mod_upper_bound k 10).
  pose proof (N.le_0_l (k mod 10)).
  apply andb_true_iff. split; apply N.leb_le; lia.
Qed.

Lemma dec_digit_val k : digit_val (dec_digit k) = (k mod 10)%N.
Proof.
  unfold digit_val. rewrite dec_digit_code.
  pose proof (N.le_0_l (k mod 10)). lia.
Qed.

Lemma four_digits_digits f : digits (four_digits f).
Proof.
  split; [discriminate|].
  repeat constructor; apply dec_digit_is_digit.
Qed.

Lemma four_digits_val n :
  digits_val (dec_str (n / 10000) ++ four_digits (n mod 10000)) = n.
Proof.
  rewrite digits_val_app, dec_str_val.
  unfold four_digits. cbn [fold_left]. unfold step.
  rewrite !dec_digit_val.
  set (f := (n mod 10000)%N).
  assert (Hf : (f < 10000)%N) by (apply N.mod_upper_bound; lia).
  pose proof (N.div_mod n 10000 ltac:(lia)) as Hn. fold f in Hn.
  replace (f / 100)%N with (f / 10 / 10)%N
    by (now rewrite N.Div0.div_div).
  replace (f / 1000)%N with (f / 10 / 10 / 10)%N
    by (now rewrite !N.Div0.div_div).
  pose proof (N.div_mod f 10 ltac:(lia)) as H1.
  pose proof (N.div_mod (f / 10) 10 ltac:(lia)) as H2.
  pose proof (N.div_mod (f / 10 / 10) 10 ltac:(lia)) as H3.
  assert (H4 : (f / 10 / 10 / 10 < 10)%N).
  { rewrite !N.Div0.div_div. apply N.Div0.div_lt_upper_bound. exact Hf. }
  rewrite (N.mod_small _ _ H4). lia.
Qed.

Lemma format_4f_finite s m e :
  number is_sign (format_4f (S754_finite s m e))
    (rounded_4 (S754_finite s m e)).
Proof.
  cbn [format_4f rounded_4]. set (n := scaled_4 m e).
  pose proof (number_intro (sg := is_sign)
                (sgn := if s then ["-"%char] else []) (neg := s)
                (ds := dec_str (n / 10000))
                (ft := "."%char :: four_digits (n mod 10000))
                (fs := four_digits (n mod 10000))) as N.
  rewrite four_digits_val in N.
  apply N.
  - destruct s; [exact (a_sign is_sign "-"%char eq_refl) | constructor].
  - apply dec_str_digits.
  - constructor. apply four_digits_digits.
Qed.

Lemma format_4f_zero s :
  number is_sign (format_4f (S754_zero s)) (S754_zero s).
Proof.
  pose proof (number_intro (sg := is_sign)
                (sgn := if s then ["-"%char] else []) (neg := s)
                (ds := lit "0") (ft := lit ".0000") (fs := lit "0000")) as N.
  assert (D0 : digits (lit "0")) by (split; [discriminate|repeat constructor]).
  assert (D4 : digits (lit "0000"))
    by (split; [discriminate|repeat constructor]).
  destruct s.
  - exact (N (a_sign is_sign "-"%char eq_refl) D0 (a_frac D4)).
  - exact (N (no_sign is_sign) D0 (a_frac D4)).
Qed.

Lemma format_4f_number x :
  is_finite x = true -> number is_sign (format_4f x) (rounded_4 x).
Proof.
  destruct x as [s|s| |s m e]; try discriminate; intros _.
  - apply format_4f_zero.
  - apply format_4f_finite.
Qed.

Lemma lat_lon_str_coordinates lat lon :
  is_finite lat = true -> is_finite lon = true ->
  coordinates is_sign (Frontend.lat_lon_str lat lon)
    (format_4f lat) (rounded_4 lat) (format_4f lon) (rounded_4 lon).
Proof.
  intros Hlat Hlon. split; [|split].
  - exists [], [], [" "%char], []. repeat split; repeat constructor.
    unfold Frontend.lat_lon_str. now rewrite app_nil_r.
  - now apply format_4f_number.
  - now apply format_4f_number.
Qed.

(** X5.  The text that the front end shows for a pair of finite
    coordinates, [f"{lat:.4f}, {lon:.4f}"], is always a coordinate string:
    [parse_input] reads it back without geocoding, as the two numbers
    rounded to four decimal places.  The edit form is pre-filled with this
    text and parses it on every save. *)
Theorem lat_lon_str_parses_back (w : World) (lat lon : float) :
  is_finite lat = true -> is_finite lon = true ->
  run (Frontend.parse_input w (Frontend.lat_lon_str lat lon))
  = (Ok (rounded_4 lat, rounded_4 lon), []).
Proof.
  intros Hlat Hlon.
  pose proof (lat_lon_str_coordinates lat lon Hlat Hlon) as C.
  destruct (pair_takes _ sign_not_digit sign_not_space _ _ _ _ _ C)
    as (m & Hm & G1 & G3).
  destruct C as (_ & N1 & N3).
  exact (run_literal_frontend w _ _ _ _ _ _ Hm G1 G3
           (float_of_number _ _ N1) (float_of_number _ _ N3)).
Qed.

Lemma lat_lon_str_parses_back_witness :
  run (Frontend.parse_input offline (Frontend.lat_lon_str lat_dallas lon_dallas))
  = (Ok (rounded_4 lat_dallas, rounded_4 lon_dallas), []).
Proof.
  apply (lat_lon_str_parses_back offline lat_dallas lon_dallas);
    vm_compute; reflexivity.
Defined.

(** The text of 32.7762719, -96.7968559 and the numbers read back from
    it: the fifth decimal and those after it are lost. *)
Example lat_lon_str_dallas :
  Frontend.lat_lon_str lat_dallas lon_dallas = lit "32.7763, -96.7969"
  /\ rounded_4 lat_dallas = float_of_decimal false 327763 (-4)
  /\ rounded_4 lat_dallas <> lat_dallas.
Proof. vm_compute. repeat split. discriminate. Qed.

(** ** The geocoders, beyond the specification *)

(** X6.  [geocode] of the service sends nothing when the contact address
    is unset or empty; with a contact address it sends exactly one
    request, whatever the answer: a GET of the search URL with the
    address as [q], [format=json], [limit=1], the [User-Agent] that names
    the contact address, and the time limit of 10 seconds. *)
Theorem geocode_requests (w : World) (address : str) :
  snd (run (Geocode.geocode w address))
  = match GEOCODER_EMAIL w with
    | None | Some [] => [Geocode_called address]
    | Some email =>
        [Geocode_called address;
         Http_get {| url := lit "https://nominatim.openstreetmap.org/search";
                     params := [(lit "q", PStr address);
                                (lit "format", PStr (lit "json"));
                                (lit "limit", PInt 1)];
                     headers := [(lit "User-Agent",
                                  lit "weather-app-example/1.0 (" ++ email
                                    ++ lit ")")];
                     timeout := Some 10%Z |}]
    end.
Proof.
  unfold Geocode.geocode, run, bind, emit, try_except, http_get, raise,
    raise_for_status, resp_json, lift, ret.
  destruct (GEOCODER_EMAIL w) as [[|c email]|]; simpl; try reflexivity.
  destruct (upstream w _) as [|st b]; simpl; try reflexivity.
  destruct (is_error_status st); simpl; try reflexivity.
  destruct b as [j|]; simpl; try reflexivity.
  destruct j as [| | | | |[|location l]|]; simpl; try reflexivity.
  repeat match goal with
         | |- context [Geocode.float_at ?l ?k] =>
             destruct (Geocode.float_at l k); simpl
         | |- context [is_Key_Type_ValueError ?e] =>
             destruct (is_Key_Type_ValueError e); simpl
         end;
    reflexivity.
Qed.

(** X7.  With a contact address and a request that succeeds, [geocode]
    of the service raises the malformed-JSON [ValueError] on a body that
    is not JSON, with either release of [requests], and the not-found
    [ValueError] on every JSON value that is not a list with a first
    element: [null], a number, a string, an object. *)
Theorem geocode_unusable_answers (w : World) (address email : str) :
  GEOCODER_EMAIL w = Some email -> email <> [] ->
  (forall st,
      upstream w (Geocode.search_request email address) = Answered st NotJson ->
      is_error_status st = false ->
      fst (run (Geocode.geocode w address))
      = Raise (ValueError Malformed_JSON_from_geocoding_service))
  /\ (forall st j,
         upstream w (Geocode.search_request email address)
         = Answered st (Json j) ->
         is_error_status st = false ->
         (forall location others, j <> JArr (location :: others)) ->
         fst (run (Geocode.geocode w address))
         = Raise (ValueError (No_location_found address))).
Proof.
  intros E Hne.
  destruct email as [|c email]; [congruence|].
  split.
  - intros st U S. unfold Geocode.geocode. rewrite E. run_io.
    rewrite U. run_io. rewrite S. run_io.
    now destruct (requests_wraps_json_error w).
  - intros st j U S Hj. unfold Geocode.geocode. rewrite E. run_io.
    rewrite U. run_io. rewrite S. run_io.
    destruct j as [| | | | |[|location l]|]; try reflexivity.
    now destruct (Hj location l).
Qed.

Lemma geocode_unusable_answers_witness :
  fst (run (Geocode.geocode (answering NotJson) (lit "Dallas, TX")))
  = Raise (ValueError Malformed_JSON_from_geocoding_service)
  /\ fst (run (Geocode.geocode (answering (Json (JObj []))) (lit "Dallas, TX")))
     = Raise (ValueError (No_location_found (lit "Dallas, TX"))).
Proof.
  split.
  - apply (proj1 (geocode_unusable_answers (answering NotJson)
                    (lit "Dallas, TX") (lit "ops@example.org") eq_refl
                    ltac:(discriminate)) 200%Z eq_refl eq_refl).
  - apply (proj2 (geocode_unusable_answers (answering (Json (JObj [])))
                    (lit "Dallas, TX") (lit "ops@example.org") eq_refl
                    ltac:(discriminate)) 200%Z (JObj []) eq_refl eq_refl).
    discriminate.
Defined.

(** X8.  [geocode] of the front end sends its one request and lets every
    failure through as it is: the exception of [requests] when the request
    fails in transport or with an error status, the JSON error on a body
    that is not JSON, [KeyError] when the first result has no [lat]; it
    raises the not-found [ValueError] on every answer that is falsy (an
    empty list, an empty object, [null], zero); it returns the pair of
    the first result when [lat] and [lon] are numbers. *)
Theorem frontend_geocode_outcomes (w : World) (address : str) :
  snd (run (Frontend.geocode w address))
  = [Geocode_called address; Http_get (Frontend.search_request address)]
  /\ (upstream w (Frontend.search_request address) = Unreachable ->
      fst (run (Frontend.geocode w address))
      = Raise (RequestException Transport))
  /\ (forall st b,
         upstream w (Frontend.search_request address) = Answered st b ->
         is_error_status st = true ->
         fst (run (Frontend.geocode w address))
         = Raise (RequestException (HTTPError st)))
  /\ (forall st,
         upstream w (Frontend.search_request address) = Answered st NotJson ->
         is_error_status st = false ->
         fst (run (Frontend.geocode w address))
         = Raise (JSONDecodeError (requests_wraps_json_error w)))
  /\ (forall st j,
         upstream w (Frontend.search_request address) = Answered st (Json j) ->
         is_error_status st = false -> truthy j = false ->
         fst (run (Frontend.geocode w address))
         = Raise (ValueError (No_location_found address)))
  /\ (forall st items others,
         upstream w (Frontend.search_request address)
         = Answered st (Json (JArr (JObj items :: others))) ->
         is_error_status st = false ->
         assoc (lit "lat") items = None ->
         fst (run (Frontend.geocode w address)) = Raise KeyError)
  /\ (forall st location others v1 lat v2 lon,
         upstream w (Frontend.search_request address)
         = Answered st (Json (JArr (location :: others))) ->
         is_error_status st = false ->
         field location (lit "lat") = Some v1 -> numeric v1 = Some lat ->
         field location (lit "lon") = Some v2 -> numeric v2 = Some lon ->
         fst (run (Frontend.geocode w address)) = Ok (lat, lon)).
Proof.
  split; [|repeat split].
  - unfold Frontend.geocode, run, bind, emit, http_get, raise,
      raise_for_status, resp_json, lift, ret.
    simpl.
    destruct (upstream w _) as [|st b]; simpl; try reflexivity.
    destruct (is_error_status st); simpl; try reflexivity.
    destruct b as [j|]; simpl; try reflexivity.
    destruct (truthy j); simpl; try reflexivity.
    destruct (first j) as [loc|e]; simpl; try reflexivity.
    repeat match goal with
           | |- context [getitem ?l ?k] => destruct (getitem l k); simpl
           | |- context [py_float ?v] => destruct (py_float v); simpl
           end;
      reflexivity.
  - intros U. unfold Frontend.geocode. run_io. now rewrite U.
  - intros st b U S. unfold Frontend.geocode. run_io. rewrite U. run_io.
    now rewrite S.
  - intros st U S. unfold Frontend.geocode. run_io. rewrite U. run_io.
    now rewrite S.
  - intros st j U S T. unfold Frontend.geocode. run_io. rewrite U. run_io.
    rewrite S. run_io. now rewrite T.
  - intros st items others U S A. unfold Frontend.geocode. run_io.
    rewrite U. run_io. rewrite S. run_io. cbn [truthy negb first getitem].
    now rewrite A.
  - intros st location others v1 lat v2 lon U S F1 N1 F2 N2.
    unfold Frontend.geocode. run_io. rewrite U. run_io. rewrite S. run_io.
    cbn [truthy negb first].
    destruct location as [| | | | | |items]; try discriminate.
    cbn [field] in F1, F2. cbn [getitem]. rewrite F1, F2.
    unfold numeric in N1, N2.
    destruct (py_float v1) as [x1|]; [|discriminate].
    destruct (py_float v2) as [x2|]; [|discriminate].
    inversion N1. inversion N2. reflexivity.
Qed.

Lemma frontend_geocode_outcomes_witness :
  fst (run (Frontend.geocode (answering (Json dallas)) (lit "Dallas, TX")))
  = Ok (lat_dallas, lon_dallas)
  /\ fst (run (Frontend.geocode offline (lit "Dallas, TX")))
     = Raise (RequestException Transport).
Proof.
  split.
  - refine (proj2 (proj2 (proj2 (proj2 (proj2 (proj2
              (frontend_geocode_outcomes (answering (Json dallas))
                 (lit "Dallas, TX")))))))
              200%Z _ [] _ _ _ _ eq_refl eq_refl eq_refl _ eq_refl _);
      vm_compute; reflexivity.
  - apply (proj1 (proj2 (frontend_geocode_outcomes offline (lit "Dallas, TX")))).
    reflexivity.
Defined.

(** ** The weather client, beyond the specification *)

Lemma fetch_current_trace (w : World) (lat lon : float) :
  snd (run (WeatherApp.fetch_current w lat lon))
  = [Http_get (WeatherApp.current_request lat lon)].
Proof.
  unfold WeatherApp.fetch_current. run_io.
  destruct (upstream w _) as [|st b]; run_io; try reflexivity.
  destruct (is_error_status st); run_io; try reflexivity.
  destruct b as [j|]; run_io.
  - destruct j as [| | | | | |items]; try reflexivity.
    now destruct (assoc (lit "current_weather") items).
  - now destruct (requests_wraps_json_error w).
Qed.

Lemma fetch_5day_trace (w : World) (lat lon : float) :
  snd (run (WeatherApp.fetch_5day w lat lon))
  = [Http_get (WeatherApp.daily_request lat lon)].
Proof.
  unfold WeatherApp.fetch_5day. run_io.
  destruct (upstream w _) as [|st b]; run_io; try reflexivity.
  destruct (is_error_status st); run_io; try reflexivity.
  destruct b as [j|]; run_io;
    [|now destruct (requests_wraps_json_error w)].
  destruct (dict_get j (lit "daily") JNull) as [daily|]; [|reflexivity].
  destruct daily as [| | | | | |d]; try reflexivity.
  repeat match goal with
         | |- context [dict_get ?v ?k ?x] =>
             destruct (dict_get v k x); try reflexivity
         | |- context [len ?v] => destruct (len v); try reflexivity
         | |- context [negb ?c] => destruct c; cbn [negb]; try reflexivity
         | |- context [iterate ?v] => destruct (iterate v); try reflexivity
         end.
Qed.

(** X9.  [fetch_current] sends exactly one request.  It raises the
    connectivity error when the request fails in transport or with an
    error status; on a body that is not JSON it raises the connectivity
    error with a release of [requests] whose JSON error is a
    [RequestException], and the invalid-JSON [ValueError] with an older
    one; it raises the missing-field [ValueError] when the answer is not
    an object or has no [current_weather]; otherwise it returns the value
    of [current_weather] as it came. *)
Theorem fetch_current_outcomes (w : World) (lat lon : float) :
  snd (run (WeatherApp.fetch_current w lat lon))
  = [Http_get (WeatherApp.current_request lat lon)]
  /\ ((upstream w (WeatherApp.current_request lat lon) = Unreachable
       \/ (exists st b,
              upstream w (WeatherApp.current_request lat lon) = Answered st b
              /\ is_error_status st = true)) ->
      fst (run (WeatherApp.fetch_current w lat lon))
      = Raise (ConnectionError Error_fetching_current_weather))
  /\ (forall st,
         upstream w (WeatherApp.current_request lat lon)
         = Answered st NotJson ->
         is_error_status st = false ->
         fst (run (WeatherApp.fetch_current w lat lon))
         = Raise (if requests_wraps_json_error w
                  then ConnectionError Error_fetching_current_weather
                  else ValueError Invalid_JSON_for_current_weather))
  /\ (forall st j,
         upstream w (WeatherApp.current_request lat lon)
         = Answered st (Json j) ->
         is_error_status st = false ->
         field j (lit "current_weather") = None ->
         fst (run (WeatherApp.fetch_current w lat lon))
         = Raise (ValueError Missing_current_weather))
  /\ (forall st j cur,
         upstream w (WeatherApp.current_request lat lon)
         = Answered st (Json j) ->
         is_error_status st = false ->
         field j (lit "current_weather") = Some cur ->
         fst (run (WeatherApp.fetch_current w lat lon)) = Ok cur).
Proof.
  split; [apply fetch_current_trace|].
  unfold WeatherApp.fetch_current. repeat split.
  - intros [U | (st & b & U & S)]; run_io; rewrite U; run_io;
      [reflexivity|]. now rewrite S.
  - intros st U S. run_io. rewrite U. run_io. rewrite S. run_io.
    now destruct (requests_wraps_json_error w).
  - intros st j U S F. run_io. rewrite U. run_io. rewrite S. run_io.
    destruct j as [| | | | | |items]; try reflexivity.
    cbn [field] in F. now rewrite F.
  - intros st j cur U S F. run_io. rewrite U. run_io. rewrite S. run_io.
    destruct j as [| | | | | |items]; try discriminate.
    cbn [field] in F. now rewrite F.
Qed.

Lemma fetch_current_outcomes_witness :
  fst (run (WeatherApp.fetch_current
              (answering (Json (JObj [(lit "current_weather", JNull)])))
              f90 f180))
  = Ok JNull
  /\ fst (run (WeatherApp.fetch_current (answering NotJson) f90 f180))
     = Raise (ConnectionError Error_fetching_current_weather).
Proof.
  split.
  - apply (proj2 (proj2 (proj2 (proj2
             (fetch_current_outcomes
                (answering (Json (JObj [(lit "current_weather", JNull)])))
                f90 f180))))
             200%Z (JObj [(lit "current_weather", JNull)]) JNull);
      reflexivity.
  - apply (proj1 (proj2 (proj2 (fetch_current_outcomes (answering NotJson)
                                  f90 f180))) 200%Z); reflexivity.
Defined.

(** The arrays of a [daily] object that holds none of the four keys. *)
Lemma no_arrays_run (w : World) (lat lon : float) st items d :
  upstream w (WeatherApp.daily_request lat lon)
  = Answered st (Json (JObj items)) ->
  is_error_status st = false ->
  assoc (lit "daily") items = Some (JObj d) ->
  assoc (lit "time") d = None ->
  assoc (lit "temperature_2m_max") d = None ->
  assoc (lit "temperature_2m_min") d = None ->
  assoc (lit "weathercode") d = None ->
  fst (run (WeatherApp.fetch_5day w lat lon)) = Ok [].
Proof.
  intros U S D T X N C. unfold WeatherApp.fetch_5day. run_io.
  rewrite U. run_io. rewrite S. run_io. cbn [dict_get]. rewrite D.
  cbn [dict_get]. now rewrite T, X, N, C.
Qed.

(** X10.  [fetch_5day] sends exactly one request.  It raises the
    connectivity error when the request fails in transport or with an
    error status, and on a body that is not JSON when the JSON error of
    [requests] is a [RequestException] (the invalid-JSON [ValueError]
    otherwise).  A JSON answer that is not an object makes it fail with
    [AttributeError]; an object without [daily], or whose [daily] is not
    an object, gives the missing-data [ValueError]; a [daily] object
    with none of the four arrays gives the empty forecast. *)
Theorem fetch_5day_outcomes (w : World) (lat lon : float) :
  snd (run (WeatherApp.fetch_5day w lat lon))
  = [Http_get (WeatherApp.daily_request lat lon)]
  /\ ((upstream w (WeatherApp.daily_request lat lon) = Unreachable
       \/ (exists st b,
              upstream w (WeatherApp.daily_request lat lon) = Answered st b
              /\ is_error_status st = true)) ->
      fst (run (WeatherApp.fetch_5day w lat lon))
      = Raise (ConnectionError Error_fetching_5day_forecast))
  /\ (forall st,
         upstream w (WeatherApp.daily_request lat lon)
         = Answered st NotJson ->
         is_error_status st = false ->
         fst (run (WeatherApp.fetch_5day w lat lon))
         = Raise (if requests_wraps_json_error w
                  then ConnectionError Error_fetching_5day_forecast
                  else ValueError Invalid_JSON_for_5day_forecast))
  /\ (forall st j,
         upstream w (WeatherApp.daily_request lat lon)
         = Answered st (Json j) ->
         is_error_status st = false ->
         (forall items, j <> JObj items) ->
         fst (run (WeatherApp.fetch_5day w lat lon)) = Raise AttributeError)
  /\ (forall st items,
         upstream w (WeatherApp.daily_request lat lon)
         = Answered st (Json (JObj items)) ->
         is_error_status st = false ->
         (forall d, assoc (lit "daily") items <> Some (JObj d)) ->
         fst (run (WeatherApp.fetch_5day w lat lon))
         = Raise (ValueError Missing_daily))
  /\ (forall st items d,
         upstream w (WeatherApp.daily_request lat lon)
         = Answered st (Json (JObj items)) ->
         is_error_status st = false ->
         assoc (lit "daily") items = Some (JObj d) ->
         assoc (lit "time") d = None ->
         assoc (lit "temperature_2m_max") d = None ->
         assoc (lit "temperature_2m_min") d = None ->
         assoc (lit "weathercode") d = None ->
         fst (run (WeatherApp.fetch_5day w lat lon)) = Ok []).
Proof.
  split; [|split; [|split; [|split; [|split]]]].
  - apply fetch_5day_trace.
  - unfold WeatherApp.fetch_5day.
    intros [U | (st & b & U & S)]; run_io; rewrite U; run_io;
      [reflexivity|]. now rewrite S.
  - intros st U S. unfold WeatherApp.fetch_5day. run_io. rewrite U. run_io.
    rewrite S. run_io. now destruct (requests_wraps_json_error w).
  - intros st j U S Hj. unfold WeatherApp.fetch_5day. run_io. rewrite U.
    run_io. rewrite S. run_io.
    destruct j as [| | | | | |items]; try reflexivity.
    now destruct (Hj items).
  - intros st items U S Hd. unfold WeatherApp.fetch_5day. run_io. rewrite U.
    run_io. rewrite S. run_io. cbn [dict_get].
    destruct (assoc (lit "daily") items) as [daily|]; [|reflexivity].
    destruct daily as [| | | | | |d]; try reflexivity.
    now destruct (Hd d).
  - intros st items d. apply no_arrays_run.
Qed.

Lemma fetch_5day_outcomes_witness :
  fst (run (WeatherApp.fetch_5day (answering (Json (JArr []))) f90 f180))
  = Raise AttributeError
  /\ fst (run (WeatherApp.fetch_5day
                 (answering (Json (JObj [(lit "daily", JObj [])]))) f90 f180))
     = Ok [].
Proof.
  split.
  - apply (proj1 (proj2 (proj2 (proj2
             (fetch_5day_outcomes (answering (Json (JArr []))) f90 f180))))
             200%Z (JArr []) eq_refl eq_refl).
    discriminate.
  - apply (proj2 (proj2 (proj2 (proj2 (proj2
             (fetch_5day_outcomes
                (answering (Json (JObj [(lit "daily", JObj [])])))
                f90 f180)))))
             200%Z [(lit "daily", JObj [])] []); reflexivity.
Defined.

(** ** The weather endpoints, beyond the specification *)

(** X11.  Once [parse_input] has returned a pair, [GET /weather] and
    [GET /forecast] answer with that pair as [latitude] and [longitude]
    and with the value of the weather client, unchanged; an exception of
    the client that is not the connectivity error (the malformed-payload
    [ValueError], [AttributeError]) is not mapped to an HTTP status: it
    leaves the endpoint as it is. *)
Theorem weather_endpoints_pass_through (w : World) (loc : str)
  (lat lon : float) (t : list event) :
  run (Api.parse_input w loc) = (Ok (lat, lon), t) ->
  (forall d t',
      WeatherApp.fetch_current w lat lon t = (Ok d, t') ->
      run (Api.current w loc)
      = (Ok {| Api.latitude := lat; Api.longitude := lon; Api.data := d |},
         t'))
  /\ (forall e t',
         WeatherApp.fetch_current w lat lon t = (Raise e, t') ->
         is_ConnectionError e = false ->
         run (Api.current w loc) = (Raise e, t'))
  /\ (forall d t',
         WeatherApp.fetch_5day w lat lon t = (Ok d, t') ->
         run (Api.forecast w loc)
         = (Ok {| Api.latitude := lat; Api.longitude := lon; Api.data := d |},
            t'))
  /\ (forall e t',
         WeatherApp.fetch_5day w lat lon t = (Raise e, t') ->
         is_ConnectionError e = false ->
         run (Api.forecast w loc) = (Raise e, t')).
Proof.
  intros P. unfold run in P.
  repeat split; intros; unfold Api.current, Api.forecast; run_io;
    rewrite P; cbn [fst snd];
    match goal with
    | H : _ = (_, _) |- _ => rewrite H
    end;
    try reflexivity;
    match goal with
    | H : is_ConnectionError _ = false |- _ => rewrite H
    end;
    reflexivity.
Qed.

Lemma weather_endpoints_pass_through_witness :
  run (Api.current (answering (Json (JObj []))) (lit "90,180"))
  = (Raise (ValueError Missing_current_weather),
     [Http_get (WeatherApp.current_request (float_of_decimal false 90 0)
                  (float_of_decimal false 180 0))]).
Proof.
  apply (proj1 (proj2 (weather_endpoints_pass_through
                         (answering (Json (JObj []))) (lit "90,180")
                         (float_of_decimal false 90 0)
                         (float_of_decimal false 180 0) []
                         ltac:(vm_compute; reflexivity))));
    vm_compute; reflexivity.
Defined.

(** X12.  On a coordinate string the weather endpoints never geocode.
    When the pair is out of range they answer 400 with the out-of-range
    message and send nothing to the weather service; when it is in range
    they send exactly one request, for the parsed pair, whatever its
    outcome. *)
Theorem weather_endpoints_on_coordinates (w : World) (s g1 g3 : str)
  (lat lon : float) :
  coordinates is_sign s g1 lat g3 lon ->
  (Api.in_range lat lon = false ->
   run (Api.current w s)
   = (Raise (HTTPException Api.HTTP_400_BAD_REQUEST
               (Coordinates_out_of_range lat lon)), [])
   /\ run (Api.forecast w s)
      = (Raise (HTTPException Api.HTTP_400_BAD_REQUEST
                  (Coordinates_out_of_range lat lon)), []))
  /\ (Api.in_range lat lon = true ->
      snd (run (Api.current w s))
      = [Http_get (WeatherApp.current_request lat lon)]
      /\ snd (run (Api.forecast w s))
         = [Http_get (WeatherApp.daily_request lat lon)]).
Proof.
  intros C.
  destruct (pair_takes _ sign_not_digit sign_not_space _ _ _ _ _ C)
    as (m & Hm & G1 & G3).
  destruct C as (_ & N1 & N3).
  pose proof (run_literal_api w s _ _ _ _ _ Hm G1 G3 (float_of_number _ _ N1)
                (float_of_number _ _ N3)) as P.
  unfold run in P.
  split; intros R; rewrite R in P.
  - split; unfold Api.current, Api.forecast; run_io; rewrite P; reflexivity.
  - split; unfold Api.current, Api.forecast; run_io; rewrite P; cbn [fst snd].
    + pose proof (fetch_current_trace w lat lon) as T. unfold run in T.
      destruct (WeatherApp.fetch_current w lat lon []) as [[d|e] t'];
        [exact T|].
      destruct (is_ConnectionError e); exact T.
    + pose proof (fetch_5day_trace w lat lon) as T. unfold run in T.
      destruct (WeatherApp.fetch_5day w lat lon []) as [[d|e] t'];
        [exact T|].
      destruct (is_ConnectionError e); exact T.
Qed.

Lemma weather_endpoints_on_coordinates_witness :
  run (Api.current (answering (Json five_days)) (lit "91,0"))
  = (Raise (HTTPException Api.HTTP_400_BAD_REQUEST
              (Coordinates_out_of_range (float_of_decimal false 91 0)
                 (float_of_decimal false 0 0))), [])
  /\ snd (run (Api.forecast (answering (Json five_days)) (lit "90,180")))
     = [Http_get (WeatherApp.daily_request (float_of_decimal false 90 0)
                    (float_of_decimal false 180 0))].
Proof.
  split.
  - apply (proj1 (weather_endpoints_on_coordinates (answering (Json five_days))
                    _ _ _ _ _ coordinates_91_0)).
    vm_compute. reflexivity.
  - apply (proj2 (weather_endpoints_on_coordinates (answering (Json five_days))
                    _ _ _ _ _ coordinates_90_180)).
    vm_compute. reflexivity.
Defined.

(** ** The weather fetchers of the front end *)

Lemma comprehension_map {A} (f : nat -> Ui.result A) (g : nat -> nat) l :
  Ui.comprehension f (map g l) = Ui.comprehension (fun i => f (g i)) l.
Proof.
  induction l as [|i l IH]; [reflexivity|].
  cbn [map Ui.comprehension]. now rewrite IH.
Qed.

Lemma day_of_arrays d ts xs ns cs i :
  assoc (lit "time") d = Some (JArr ts) ->
  assoc (lit "temperature_2m_max") d = Some (JArr xs) ->
  assoc (lit "temperature_2m_min") d = Some (JArr ns) ->
  assoc (lit "weathercode") d = Some (JArr cs) ->
  Ui.day_of (JObj d) i
  = match day_at ts xs ns cs i with
    | Some x => Ui.Returned x
    | None => Ui.Raised_IndexError
    end.
Proof.
  intros T X N C. unfold Ui.day_of, Ui.item, getitem.
  rewrite T, X, N, C. unfold Ui.index, day_at, Ui.and_then.
  destruct (nth_error ts i); [|reflexivity].
  destruct (nth_error xs i); [|reflexivity].
  destruct (nth_error ns i); [|reflexivity].
  destruct (nth_error cs i); reflexivity.
Qed.

Lemma comprehension_days :
  forall ts xs ns cs,
    Ui.comprehension
      (fun i => match day_at ts xs ns cs i with
                | Some x => Ui.Returned x
                | None => Ui.Raised_IndexError
                end)
      (seq 0 (List.length ts))
    = if (List.length ts <=? List.length xs)
         && (List.length ts <=? List.length ns)
         && (List.length ts <=? List.length cs)
      then Ui.Returned (WeatherApp.zip_days ts xs ns cs)
      else Ui.Raised_IndexError.
Proof.
  induction ts as [|t ts IH]; intros xs ns cs; [reflexivity|].
  cbn [List.length seq Ui.comprehension].
  rewrite <- seq_shift, comprehension_map.
  destruct xs as [|x xs]; [reflexivity|].
  destruct ns as [|n ns];
    [cbn; now rewrite andb_false_r|].
  destruct cs as [|c cs];
    [cbn; now rewrite andb_false_r|].
  change (fun i => match day_at (t :: ts) (x :: xs) (n :: ns) (c :: cs) (S i)
                   with
                   | Some d => Ui.Returned d
                   | None => Ui.Raised_IndexError
                   end)
    with (fun i => match day_at ts xs ns cs i with
                   | Some d => Ui.Returned d
                   | None => Ui.Raised_IndexError
                   end).
  rewrite IH. cbn [day_at nth_error Ui.and_then List.length Nat.leb].
  cbn [WeatherApp.zip_days].
  now destruct ((List.length ts <=? List.length xs)
                && (List.length ts <=? List.length ns)
                && (List.length ts <=? List.length cs)).
Qed.

Lemma comprehension_ext {A} (f g : nat -> Ui.result A) l :
  (forall i, f i = g i) -> Ui.comprehension f l = Ui.comprehension g l.
Proof.
  intros H. induction l as [|i l IH]; [reflexivity|].
  cbn [Ui.comprehension]. now rewrite H, IH.
Qed.

Lemma ui_fetch_5day_run (w : World) (lat lon : float) st payload d
  ts xs ns cs :
  upstream w (Ui.daily_request lat lon) = Answered st (Json payload) ->
  is_error_status st = false ->
  field payload (lit "daily") = Some (JObj d) ->
  assoc (lit "time") d = Some (JArr ts) ->
  assoc (lit "temperature_2m_max") d = Some (JArr xs) ->
  assoc (lit "temperature_2m_min") d = Some (JArr ns) ->
  assoc (lit "weathercode") d = Some (JArr cs) ->
  Ui.fetch_5day w lat lon []
  = (if (List.length ts <=? List.length xs)
        && (List.length ts <=? List.length ns)
        && (List.length ts <=? List.length cs)
     then Ui.Returned (WeatherApp.zip_days ts xs ns cs)
     else Ui.Raised_IndexError,
     [Http_get (Ui.daily_request lat lon)]).
Proof.
  intros U S D T X N C. unfold Ui.fetch_5day. run_io. rewrite U. run_io.
  rewrite S. run_io.
  destruct payload as [| | | | | |items]; try discriminate.
  cbn [field] in D. cbn [getitem]. rewrite D. cbn [getitem]. rewrite T.
  cbn [len].
  rewrite (comprehension_ext _ _ _
             (fun i => day_of_arrays d ts xs ns cs i T X N C)).
  now rewrite comprehension_days.
Qed.

(** X13.  [fetch_current] of the front end sends the request that the
    service's [fetch_current] sends, and returns a value exactly when the
    service's does, the same one.  Where the service raises its own
    errors the front end lets the failure through: on an object without
    [current_weather] it raises [KeyError], the service the missing-field
    [ValueError]. *)
Theorem ui_fetch_current_agrees (w : World) (lat lon : float) :
  snd (run (Ui.fetch_current w lat lon))
  = snd (run (WeatherApp.fetch_current w lat lon))
  /\ (forall cur,
         fst (run (Ui.fetch_current w lat lon)) = Ok cur
         <-> fst (run (WeatherApp.fetch_current w lat lon)) = Ok cur)
  /\ (forall st items,
         upstream w (Ui.current_request lat lon)
         = Answered st (Json (JObj items)) ->
         is_error_status st = false ->
         assoc (lit "current_weather") items = None ->
         fst (run (Ui.fetch_current w lat lon)) = Raise KeyError
         /\ fst (run (WeatherApp.fetch_current w lat lon))
            = Raise (ValueError Missing_current_weather)).
Proof.
  unfold Ui.fetch_current, WeatherApp.fetch_current.
  change (Ui.current_request lat lon)
    with (WeatherApp.current_request lat lon).
  split; [|split].
  - run_io.
    destruct (upstream w _) as [|st b]; run_io; try reflexivity.
    destruct (is_error_status st); run_io; try reflexivity.
    destruct b as [j|]; run_io.
    + destruct j as [| | | | | |items]; try reflexivity.
      cbn [getitem]. now destruct (assoc (lit "current_weather") items).
    + now destruct (requests_wraps_json_error w).
  - intros cur. run_io.
    destruct (upstream w _) as [|st b]; run_io;
      [split; discriminate|].
    destruct (is_error_status st); run_io; [split; discriminate|].
    destruct b as [j|]; run_io.
    + destruct j as [| | | | | |items]; try (split; discriminate).
      cbn [getitem].
      destruct (assoc (lit "current_weather") items);
        split; intros H; first [exact H | discriminate].
    + destruct (requests_wraps_json_error w); split; discriminate.
  - intros st items U S A. run_io. rewrite U. run_io. rewrite S. run_io.
    cbn [getitem]. now rewrite A.
Qed.

Lemma ui_fetch_current_agrees_witness :
  fst (run (Ui.fetch_current (answering (Json (JObj []))) f90 f180))
  = Raise KeyError
  /\ fst (run (WeatherApp.fetch_current (answering (Json (JObj []))) f90 f180))
     = Raise (ValueError Missing_current_weather).
Proof.
  apply (proj2 (proj2 (ui_fetch_current_agrees (answering (Json (JObj [])))
                         f90 f180)) 200%Z []); reflexivity.
Defined.

(** X14.  When the upstream answers with a [daily] object that holds the
    four arrays, [fetch_5day] of the front end makes one day record for
    each date, from the values at the same position; arrays longer than
    [time] are cut without an error; an array shorter than [time] makes
    it fail with [IndexError].  Whenever the service's [fetch_5day]
    returns a forecast for the same arrays, the front end returns the
    same forecast. *)
Theorem ui_fetch_5day_days (w : World) (lat lon : float) (st : Z)
  (payload : json) (d : list (str * json)) (ts xs ns cs : list json) :
  upstream w (Ui.daily_request lat lon) = Answered st (Json payload) ->
  is_error_status st = false ->
  field payload (lit "daily") = Some (JObj d) ->
  assoc (lit "time") d = Some (JArr ts) ->
  assoc (lit "temperature_2m_max") d = Some (JArr xs) ->
  assoc (lit "temperature_2m_min") d = Some (JArr ns) ->
  assoc (lit "weathercode") d = Some (JArr cs) ->
  snd (Ui.fetch_5day w lat lon []) = [Http_get (Ui.daily_request lat lon)]
  /\ (List.length ts <= List.length xs /\ List.length ts <= List.length ns
      /\ List.length ts <= List.length cs ->
      fst (Ui.fetch_5day w lat lon [])
      = Ui.Returned (WeatherApp.zip_days ts xs ns cs)
      /\ List.length (WeatherApp.zip_days ts xs ns cs) = List.length ts)
  /\ (List.length xs < List.length ts \/ List.length ns < List.length ts
      \/ List.length cs < List.length ts ->
      fst (Ui.fetch_5day w lat lon []) = Ui.Raised_IndexError)
  /\ (forall days,
         daily_arrays w lat lon ts xs ns cs ->
         fst (run (WeatherApp.fetch_5day w lat lon)) = Ok days ->
         fst (Ui.fetch_5day w lat lon []) = Ui.Returned days).
Proof.
  intros U S D T X N C.
  rewrite (ui_fetch_5day_run w lat lon st payload d ts xs ns cs U S D T X N C).
  cbn [fst snd].
  split; [reflexivity|]. split; [|split].
  - intros (H1 & H2 & H3).
    rewrite (proj2 (Nat.leb_le _ _) H1), (proj2 (Nat.leb_le _ _) H2),
      (proj2 (Nat.leb_le _ _) H3).
    split; [reflexivity|].
    clear - H1 H2 H3. revert xs ns cs H1 H2 H3.
    induction ts as [|t ts IH]; intros xs ns cs H1 H2 H3; [reflexivity|].
    destruct xs as [|x xs]; [cbn in H1; lia|].
    destruct ns as [|n ns]; [cbn in H2; lia|].
    destruct cs as [|c cs]; [cbn in H3; lia|].
    cbn [WeatherApp.zip_days List.length]. f_equal.
    apply IH; cbn in *; lia.
  - intros H.
    assert (E : (List.length ts <=? List.length xs)
                && (List.length ts <=? List.length ns)
                && (List.length ts <=? List.length cs) = false).
    { destruct H as [H | [H | H]].
      - now rewrite (proj2 (Nat.leb_gt _ _) H).
      - rewrite (proj2 (Nat.leb_gt _ _) H). now rewrite andb_false_r.
      - rewrite (proj2 (Nat.leb_gt _ _) H). now rewrite andb_false_r. }
    now rewrite E.
  - intros days A R.
    rewrite (fetch_5day_run w lat lon ts xs ns cs A) in R.
    destruct (Nat.eqb (List.length ts) (List.length xs)) eqn:E1;
      [|discriminate].
    destruct (Nat.eqb (List.length xs) (List.length ns)) eqn:E2;
      [|discriminate].
    destruct (Nat.eqb (List.length ns) (List.length cs)) eqn:E3;
      [|discriminate].
    apply Nat.eqb_eq in E1, E2, E3. cbn in R. inversion R.
    rewrite <- E3, <- E2, <- E1, Nat.leb_refl. reflexivity.
Qed.

Lemma ui_fetch_5day_days_witness :
  fst (Ui.fetch_5day (answering (Json short_arrays)) f90 f180 [])
  = Ui.Raised_IndexError.
Proof.
  refine (proj1 (proj2 (proj2
            (ui_fetch_5day_days (answering (Json short_arrays)) f90 f180
               200%Z short_arrays _ _ _ _ _ eq_refl eq_refl eq_refl
               eq_refl eq_refl eq_refl eq_refl))) _).
  left. cbn. lia.
Defined.

(** ** The store, beyond the specification *)

(** X15.  For an id that no row has, [update_location] and
    [delete_location] return [None] and the three endpoints raise the 404
    [HTTPException] with the detail [Location not found]; the session is
    left as it was: nothing is written, and neither [commit] nor
    [rollback] is called. *)
Theorem absent_id_is_not_written (b : Backend) (s : Session) (i : Z) :
  query_fault b = None -> find_id i (table s) = None ->
  (forall loc,
      Crud.update_location b i loc s = (Ok None, s)
      /\ Api.update_loc b i loc s = (Raise not_found, s))
  /\ Crud.delete_location b i s = (Ok None, s)
  /\ Api.delete_loc b i s = (Raise not_found, s)
  /\ Api.read_location b i s = (Raise not_found, s).
Proof.
  intros Q F.
  destruct (absent_run b i s Q F) as (U & D & G).
  repeat split.
  - apply U.
  - unfold Api.update_loc, bind. now rewrite U.
  - exact D.
  - unfold Api.delete_loc, bind. now rewrite D.
  - unfold Api.read_location, bind. now rewrite G.
Qed.

Lemma absent_id_is_not_written_witness :
  Crud.delete_location at_noon 7 three_rows = (Ok None, three_rows)
  /\ Api.delete_loc at_noon 7 three_rows = (Raise not_found, three_rows).
Proof.
  pose proof (absent_id_is_not_written at_noon three_rows 7 eq_refl eq_refl)
    as (_ & D & A & _).
  split; assumption.
Defined.

Lemma failed_query_run (b : Backend) (s : Session) (d : db_error) :
  query_fault b = Some d ->
  (forall i, Crud.get_location b i s = (Raise (SQLAlchemyError d), s))
  /\ (forall i loc,
         Crud.update_location b i loc s = (Raise (SQLAlchemyError d), s))
  /\ (forall i, Crud.delete_location b i s = (Raise (SQLAlchemyError d), s)).
Proof.
  intros Q.
  assert (G : forall i, Crud.get_location b i s = (Raise (SQLAlchemyError d), s)).
  { intros i. unfold Crud.get_location, query_first. now rewrite Q. }
  split; [exact G|]. split.
  - intros i loc. unfold Crud.update_location, bind. now rewrite G.
  - intros i. unfold Crud.delete_location, bind. now rewrite G.
Qed.

(** X16.  The lookup that opens every operation is made outside the
    [try] block: when the query fails, the error of the database leaves
    [get_location], [get_locations], [update_location] and
    [delete_location] as it is, and no [rollback] is called; the
    endpoints do not map it to an HTTP status. *)
Theorem failed_query_propagates (b : Backend) (s : Session) (d : db_error) :
  query_fault b = Some d ->
  (forall i, Crud.get_location b i s = (Raise (SQLAlchemyError d), s))
  /\ (forall skip limit,
         Crud.get_locations b skip limit s = (Raise (SQLAlchemyError d), s))
  /\ (forall i loc,
         Crud.update_location b i loc s = (Raise (SQLAlchemyError d), s)
         /\ status_of Api.HTTP_200_OK (fst (Api.update_loc b i loc s)) = None)
  /\ (forall i,
         Crud.delete_location b i s = (Raise (SQLAlchemyError d), s)
         /\ status_of Api.HTTP_200_OK (fst (Api.delete_loc b i s)) = None
         /\ status_of Api.HTTP_200_OK (fst (Api.read_location b i s)) = None).
Proof.
  intros Q.
  destruct (failed_query_run b s d Q) as (G & U & D).
  repeat split.
  - exact G.
  - intros skip limit. unfold Crud.get_locations, query_page. now rewrite Q.
  - apply U.
  - unfold Api.update_loc, bind. now rewrite U.
  - apply D.
  - unfold Api.delete_loc, bind. now rewrite D.
  - unfold Api.read_location, bind. now rewrite G.
Qed.

Lemma failed_query_propagates_witness :
  Crud.delete_location query_fails 1 three_rows
  = (Raise (SQLAlchemyError OperationalError), three_rows).
Proof.
  apply (proj2 (proj2 (proj2
           (failed_query_propagates query_fails three_rows OperationalError
              eq_refl))) 1%Z).
Defined.

(** ** Pages of the table *)

Lemma In_firstn {A} (n : nat) (l : list A) x : In x (firstn n l) -> In x l.
Proof.
  intros H. rewrite <- (firstn_skipn n l). apply in_or_app. now left.
Qed.

Lemma In_skipn {A} (n : nat) (l : list A) x : In x (skipn n l) -> In x l.
Proof.
  intros H. rewrite <- (firstn_skipn n l). apply in_or_app. now right.
Qed.

(** X17.  While the query succeeds and the database produces every row
    of the table once, [GET /locations/] changes nothing and returns
    [min(limit, rows - skip)] rows, each of them a row of the table: at
    most [limit], and none when [skip] reaches the number of rows.  Which
    rows a page holds is left to the order of the database: the query
    asks for none. *)
Theorem read_locations_pages (b : Backend) (s : Session) (skip limit : nat) :
  query_fault b = None ->
  Permutation (row_order b (table s)) (table s) ->
  exists page,
    Api.read_locations b skip limit s = (Ok page, s)
    /\ List.length page = Nat.min limit (List.length (table s) - skip)
    /\ (forall r, In r page -> In r (table s))
    /\ (List.length (table s) <= skip -> page = []).
Proof.
  intros Q P.
  unfold Api.read_locations, Crud.get_locations, query_page. rewrite Q.
  eexists. split; [reflexivity|].
  assert (L : List.length
                (firstn limit (skipn skip (row_order b (table s))))
              = Nat.min limit (List.length (table s) - skip)).
  { now rewrite length_firstn, length_skipn, (Permutation_length P). }
  split; [exact L|]. split.
  - intros r H. apply (Permutation_in r P).
    exact (In_skipn _ _ _ (In_firstn _ _ _ H)).
  - intros H. apply length_zero_iff_nil. rewrite L. lia.
Qed.

Lemma read_locations_pages_witness :
  exists page,
    Api.read_locations at_noon 1 5 three_rows = (Ok page, three_rows)
    /\ List.length page = 2.
Proof.
  destruct (read_locations_pages at_noon three_rows 1 5 eq_refl
              (Permutation_refl _))
    as (page & R & L & _).
  exists page. split; [exact R | exact L].
Defined.

(** ** Rows that an operation leaves alone *)

Lemma find_id_none i rows : ~ In i (ids rows) -> find_id i rows = None.
Proof.
  induction rows as [|r rows IH]; intros H; [reflexivity|].
  cbn [find_id]. destruct (Z.eqb_spec (Location.id r) i) as [E|E].
  - destruct H. now left.
  - apply IH. intros H'. apply H. now right.
Qed.

Lemma find_id_remove i rows :
  NoDup (ids rows) -> find_id i (remove_id i rows) = None.
Proof.
  induction rows as [|r rows IH]; intros H; [reflexivity|].
  inversion H as [|x l Hx Hl]; subst.
  cbn [remove_id]. destruct (Z.eqb_spec (Location.id r) i) as [E|E].
  - subst. now apply find_id_none.
  - cbn [find_id]. destruct (Z.eqb_spec (Location.id r) i); [contradiction|].
    now apply IH.
Qed.

Lemma find_id_remove_other i j rows :
  j <> i -> find_id j (remove_id i rows) = find_id j rows.
Proof.
  intros H. induction rows as [|r rows IH]; [reflexivity|].
  cbn [remove_id find_id].
  destruct (Z.eqb_spec (Location.id r) i) as [E|E].
  - destruct (Z.eqb_spec (Location.id r) j); [congruence|reflexivity].
  - cbn [find_id]. now rewrite IH.
Qed.

Lemma length_remove_id i rows r :
  find_id i rows = Some r ->
  List.length (remove_id i rows) + 1 = List.length rows.
Proof.
  induction rows as [|x rows IH]; [discriminate|].
  cbn [find_id remove_id]. destruct (Z.eqb (Location.id x) i).
  - intros _. cbn. lia.
  - intros H. cbn [List.length]. specialize (IH H). lia.
Qed.

Lemma find_id_replace_other i j r' rows :
  j <> i -> Location.id r' = i ->
  find_id j (replace_id i r' rows) = find_id j rows.
Proof.
  intros H E. induction rows as [|r rows IH]; [reflexivity|].
  cbn [replace_id find_id].
  destruct (Z.eqb_spec (Location.id r) i) as [E1|E1]; cbn [find_id].
  - destruct (Z.eqb_spec (Location.id r') j); [congruence|].
    destruct (Z.eqb_spec (Location.id r) j); [congruence|reflexivity].
  - now rewrite IH.
Qed.

Lemma ids_replace i r' rows :
  Location.id r' = i -> ids (replace_id i r' rows) = ids rows.
Proof.
  intros E. induction rows as [|r rows IH]; [reflexivity|].
  cbn [replace_id]. destruct (Z.eqb_spec (Location.id r) i) as [E1|E1].
  - cbn. congruence.
  - unfold ids in *. cbn [map]. now rewrite IH.
Qed.

Lemma remove_id_last i rows r :
  find_id i rows = None -> Location.id r = i ->
  remove_id i (rows ++ [r]) = rows.
Proof.
  intros H E. induction rows as [|x rows IH].
  - cbn. now rewrite (proj2 (Z.eqb_eq _ _) E).
  - cbn [find_id] in H. cbn [app remove_id].
    destruct (Z.eqb (Location.id x) i); [discriminate|].
    now rewrite IH.
Qed.

(** X18.  With a database that fails no call and a table whose ids are
    distinct, [delete_location] returns the row it found and removes it:
    a lookup of the id then finds nothing and [GET /locations/{id}]
    answers 404, every other id is found as before, and the table has
    one row less. *)
Theorem delete_removes_the_row (b : Backend) (s : Session) (i : Z)
  (r : Location.t) :
  pending s = [] -> healthy b -> NoDup (ids (table s)) ->
  find_id i (table s) = Some r ->
  exists s',
    Crud.delete_location b i s = (Ok (Some r), s')
    /\ Crud.get_location b i s' = (Ok None, s')
    /\ Api.read_location b i s' = (Raise not_found, s')
    /\ (forall j, j <> i -> find_id j (table s') = find_id j (table s))
    /\ List.length (table s') + 1 = List.length (table s).
Proof.
  intros P (Q & C & R) N F.
  rewrite (delete_location_run b i s r P Q F), C.
  eexists. split; [reflexivity|].
  assert (G : Crud.get_location b i
                (committed s (remove_id i (table s)) (next_id s))
              = (Ok None, committed s (remove_id i (table s)) (next_id s))).
  { unfold Crud.get_location, query_first. rewrite Q.
    unfold committed. cbn [table]. now rewrite find_id_remove. }
  split; [exact G|]. split; [|split].
  - unfold Api.read_location, bind. now rewrite G.
  - intros j H. unfold committed. cbn [table].
    now apply find_id_remove_other.
  - unfold committed. cbn [table]. exact (length_remove_id _ _ _ F).
Qed.

Lemma delete_removes_the_row_witness :
  exists s',
    Crud.delete_location at_noon 2 three_rows
    = (Ok (Some (row 2 "Austin, TX")), s')
    /\ Crud.get_location at_noon 2 s' = (Ok None, s').
Proof.
  destruct (delete_removes_the_row at_noon three_rows 2 (row 2 "Austin, TX")
              eq_refl healthy_at_noon) as (s' & D & G & _).
  - repeat constructor; cbn; intuition discriminate.
  - reflexivity.
  - exists s'. split; [exact D | exact G].
Defined.

(** X19.  However an update ends, with the updated row, with [None] or
    with an error of the database, it adds and removes no row and leaves
    every row with another id as it was; nothing stays pending. *)
Theorem update_touches_one_row (b : Backend) (s s' : Session) (i : Z)
  (loc : LocationUpdate.t) (o : outcome (option Location.t)) :
  pending s = [] -> Crud.update_location b i loc s = (o, s') ->
  ids (table s') = ids (table s)
  /\ (forall j, j <> i -> find_id j (table s') = find_id j (table s))
  /\ next_id s' = next_id s
  /\ pending s' = [].
Proof.
  intros P H.
  destruct (query_fault b) as [d|] eqn:Q.
  { destruct (failed_query_run b s d Q) as (_ & U & _).
    rewrite U in H. inversion H; subst. now repeat split. }
  destruct (find_id i (table s)) as [r|] eqn:F.
  2:{ destruct (absent_run b i s Q F) as (U & _).
      rewrite U in H. inversion H; subst. now repeat split. }
  rewrite (update_location_run b i loc s r P Q F) in H.
  destruct (commit_fault b) as [d|].
  { inversion H; subst. now repeat split. }
  destruct (assign_all (now b) (Crud.update_data loc) r) as [r'|e] eqn:A.
  2:{ inversion H; subst. now repeat split. }
  destruct (assign_all_keeps _ _ _ _ A) as (I & _).
  rewrite (find_id_id _ _ _ F) in I.
  destruct (refresh_fault b) as [d|]; inversion H; subst;
    unfold committed; cbn [table next_id pending];
    (split; [now apply ids_replace|]);
    (split; [intros j Hj; now apply find_id_replace_other|]);
    now split.
Qed.

Lemma update_touches_one_row_witness :
  find_id 1 (table (snd (Crud.update_location refresh_fails 2 rename_only
                           three_rows)))
  = find_id 1 (table three_rows)
  /\ ids (table (snd (Crud.update_location refresh_fails 2 rename_only
                        three_rows)))
     = ids (table three_rows).
Proof.
  destruct (update_touches_one_row refresh_fails three_rows _ 2 rename_only _
              eq_refl (surjective_pairing _)) as (I & F & _).
  split; [apply F; discriminate | exact I].
Defined.

(** X20.  With a database that fails no call, deleting the location
    that [create_location] has just returned gives that row back and
    restores the table as it was before the creation. *)
Theorem create_then_delete (b : Backend) (s : Session)
  (loc : LocationCreate.t) :
  pending s = [] -> next_id_unused s -> healthy b ->
  exists r s1 s2,
    Crud.create_location b loc s = (Ok r, s1)
    /\ Crud.delete_location b (Location.id r) s1 = (Ok (Some r), s2)
    /\ table s2 = table s.
Proof.
  intros P U (Q & C & R).
  exists (new_row b s loc),
    (committed s (table s ++ [new_row b s loc]) (next_id s + 1)).
  eexists. split; [|split].
  - rewrite (create_location_run b loc s P U), C, R. reflexivity.
  - rewrite (delete_location_run b _
               (committed s (table s ++ [new_row b s loc]) (next_id s + 1))
               (new_row b s loc) eq_refl Q).
    + rewrite C. reflexivity.
    + unfold committed. cbn [table]. now apply find_id_last.
  - unfold committed. cbn [table].
    now apply remove_id_last.
Qed.

Lemma create_then_delete_witness :
  exists r s1 s2,
    Crud.create_location at_noon dallas_create three_rows = (Ok r, s1)
    /\ Crud.delete_location at_noon (Location.id r) s1 = (Ok (Some r), s2)
    /\ table s2 = table three_rows.
Proof.
  apply (create_then_delete at_noon three_rows dallas_create eq_refl).
  - reflexivity.
  - exact healthy_at_noon.
Defined.

(** ** An update sent twice *)

Lemma SFeqb_refl (x : float) : x <> S754_nan -> SFeqb x x = true.
Proof.
  unfold SFeqb. destruct x as [s|s| |s m e]; cbn; try congruence.
  - now destruct s.
  - rewrite Z.compare_refl, Pos.compare_cont_refl. now destruct s.
Qed.

Lemma str_eqb_refl (a : str) : str_eqb a a = true.
Proof. unfold str_eqb. now destruct (list_eq_dec ascii_dec a a). Qed.

Lemma stores_eqb (stored v : float) :
  v <> S754_nan -> stores stored v -> SFeqb stored v = true.
Proof. intros H [-> | E]; [now apply SFeqb_refl | exact E]. Qed.

Lemma changes_settled (loc : LocationUpdate.t) (r r' : Location.t) :
  no_nan loc ->
  match LocationUpdate.name loc with
  | Value v => Location.name r' = v
  | _ => Location.name r' = Location.name r
  end ->
  match LocationUpdate.latitude loc with
  | Value v => stores (Location.latitude r') v
  | _ => Location.latitude r' = Location.latitude r
  end ->
  match LocationUpdate.longitude loc with
  | Value v => stores (Location.longitude r') v
  | _ => Location.longitude r' = Location.longitude r
  end ->
  changes loc r' = false.
Proof.
  destruct loc as [n la lo]. unfold no_nan, changes.
  cbn [LocationUpdate.name LocationUpdate.latitude LocationUpdate.longitude].
  intros (Nla & Nlo) Sn Sla Slo.
  assert (A : match n with
              | Value v => negb (str_eqb (Location.name r') v)
              | _ => false
              end = false).
  { destruct n as [| |v]; try reflexivity.
    now rewrite Sn, str_eqb_refl. }
  assert (B : match la with
              | Value v => negb (SFeqb (Location.latitude r') v)
              | _ => false
              end = false).
  { destruct la as [| |v]; try reflexivity.
    rewrite (stores_eqb _ v); [reflexivity| |exact Sla].
    intros ->. now apply Nla. }
  assert (C : match lo with
              | Value v => negb (SFeqb (Location.longitude r') v)
              | _ => false
              end = false).
  { destruct lo as [| |v]; try reflexivity.
    rewrite (stores_eqb _ v); [reflexivity| |exact Slo].
    intros ->. now apply Nlo. }
  now rewrite A, B, C.
Qed.

(** X21.  With a database that fails no call, an update request without
    [null] and without NaN that is sent a second time changes nothing:
    the second call returns the row that the first one returned, with
    the [updated_at] of the first, whatever the clock shows by then, and
    the table stays as the first call left it. *)
Theorem update_twice_is_update_once (b1 b2 : Backend) (s : Session) (i : Z)
  (loc : LocationUpdate.t) (r : Location.t) :
  pending s = [] -> healthy b1 -> healthy b2 ->
  find_id i (table s) = Some r -> no_null loc -> no_nan loc ->
  exists r' s1 s2,
    Crud.update_location b1 i loc s = (Ok (Some r'), s1)
    /\ Crud.update_location b2 i loc s1 = (Ok (Some r'), s2)
    /\ table s2 = table s1.
Proof.
  intros P H1 H2 F NN (Nla & Nlo).
  destruct (proj1 (update_replaces_supplied_fields_aux b1 s P H1) i loc r F NN)
    as (r' & U1 & I & _ & Sn & Sla & Slo & _).
  rewrite (find_id_id _ _ _ F) in I.
  set (s1 := committed s (replace_id i r' (table s)) (next_id s)) in *.
  assert (F1 : find_id i (table s1) = Some r').
  { unfold s1, committed. cbn [table]. exact (find_id_replace _ _ _ _ F I). }
  destruct (proj1 (update_replaces_supplied_fields_aux b2 s1 eq_refl H2)
              i loc r' F1 NN)
    as (r'' & U2 & _ & _ & _ & _ & _ & Ch).
  pose proof (changes_settled loc r r' (conj Nla Nlo) Sn Sla Slo) as E.
  rewrite E in Ch. subst r''.
  exists r', s1. eexists. split; [exact U1|]. split; [exact U2|].
  unfold committed. cbn [table]. now apply replace_id_same.
Qed.

Lemma update_twice_is_update_once_witness :
  exists r' s1 s2,
    Crud.update_location at_noon 1 rename_only one_row = (Ok (Some r'), s1)
    /\ Crud.update_location refresh_ok_later 1 rename_only s1
       = (Ok (Some r'), s2)
    /\ table s2 = table s1.
Proof.
  apply (update_twice_is_update_once at_noon refresh_ok_later one_row 1
           rename_only dallas_row eq_refl healthy_at_noon).
  - repeat split.
  - reflexivity.
  - repeat split; discriminate.
  - repeat split; discriminate.
Defined.
